(** * LokiTableMetadataStore: a shallow embedding

    This development models the table metadata store of
    [src/table/persistence/LokiTableMetadataStore.ts]: the OData filter
    tokenizer and rewriter, the entity operations with their ETag checks,
    the paginated entity query, the batch undo logs, the table registry and
    the service properties.

    JavaScript strings are sequences of UTF-16 code units.  They are modelled
    by [string], one [ascii] per code unit, which covers the code units below
    256; every character the store itself tests for (quotes, parentheses,
    colons, digits, letters, white space) lies in that range. *)

From Stdlib Require Import ZArith Ascii String List Bool Lia Sorting.Sorted.
From stdpp Require Import base option list gmap strings fin_maps.

Local Open Scope Z_scope.

(** ** JavaScript string primitives *)

Module JS.

Definition strlen (s : string) : Z := Z.of_nat (String.length s).

(** Index arguments of [substring] are clamped to [0 .. length]. *)
Definition clamp (len n : Z) : nat := Z.to_nat (Z.max 0 (Z.min n len)).

(** [s.substring(a, b)]: the arguments are clamped, and swapped when [a > b]. *)
Definition substring (s : string) (a b : Z) : string :=
  let a' := clamp (strlen s) a in
  let b' := clamp (strlen s) b in
  String.substring (Nat.min a' b') (Nat.max a' b' - Nat.min a' b') s.

(** [s.substring(a)]. *)
Definition substringFrom (s : string) (a : Z) : string :=
  substring s a (strlen s).

(** [s.slice(a, b)]: negative arguments count from the end, no swapping. *)
Definition slice (s : string) (a b : Z) : string :=
  let norm n := if n <? 0 then Z.max (strlen s + n) 0 else Z.min n (strlen s) in
  if norm a <? norm b then substring s (norm a) (norm b) else "".

(** [s[i]], [None] standing for [undefined]. *)
Definition charAt (s : string) (i : Z) : option ascii :=
  if i <? 0 then None else String.get (Z.to_nat i) s.

Definition isChar (c : ascii) (o : option ascii) : bool :=
  match o with Some d => Ascii.eqb c d | None => false end.

(** [s.startsWith(p)]. *)
Definition startsWith (p s : string) : bool := String.prefix p s.

(** [s.endsWith(p)]. *)
Definition endsWith (p s : string) : bool :=
  (strlen p <=? strlen s) && String.eqb (substringFrom s (strlen s - strlen p)) p.

(** [s.includes(c)] for a one-character needle. *)
Fixpoint includesChar (c : ascii) (s : string) : bool :=
  match s with
  | EmptyString => false
  | String d s' => Ascii.eqb c d || includesChar c s'
  end.

(** [s.indexOf(c)] for a one-character needle; [-1] when absent. *)
Fixpoint indexOfChar (c : ascii) (s : string) : Z :=
  match s with
  | EmptyString => -1
  | String d s' =>
      if Ascii.eqb c d then 0
      else let r := indexOfChar c s' in if r <? 0 then -1 else r + 1
  end.

(** [s.replace(pat, rep)] with a string pattern: the first occurrence only. *)
Fixpoint replaceFirst (pat rep s : string) : string :=
  if String.prefix pat s then rep +:+ substringFrom s (strlen pat)
  else match s with
       | EmptyString => EmptyString
       | String c s' => String c (replaceFirst pat rep s')
       end.

(** [s.replace(/c/g, rep)] for a one-character pattern. *)
Fixpoint replaceAllChar (c : ascii) (rep s : string) : string :=
  match s with
  | EmptyString => EmptyString
  | String d s' =>
      if Ascii.eqb c d then rep +:+ replaceAllChar c rep s'
      else String d (replaceAllChar c rep s')
  end.

(** [s.replace(/cc/g, rep)] for a doubled character: matches are found left to
    right and do not overlap. *)
Fixpoint replaceAllPair (c : ascii) (rep s : string) : string :=
  match s with
  | String d (String e s'' as s') =>
      if Ascii.eqb c d && Ascii.eqb c e then rep +:+ replaceAllPair c rep s''
      else String d (replaceAllPair c rep s')
  | _ => s
  end.

(** Character classes of JavaScript regular expressions (no [u] or [i] flag):
    [\d], [\w] and [\s]. *)
Definition isDigit (c : ascii) : bool :=
  Ascii.leb "0" c && Ascii.leb c "9".

Definition isWordChar (c : ascii) : bool :=
  isDigit c
  || (Ascii.leb "A" c && Ascii.leb c "Z")
  || (Ascii.leb "a" c && Ascii.leb c "z")
  || Ascii.eqb c "_".

Definition isSpace (c : ascii) : bool :=
  match c with
  | "009" | "010" | "011" | "012" | "013" | " " | "160" => true
  | _ => false
  end%char.

Definition isWordOpt (o : option ascii) : bool :=
  match o with Some c => isWordChar c | None => false end.

(** [\b] between the character before a position ([None] at the start) and the
    character at it ([None] at the end). *)
Definition wordBoundary (prev next : option ascii) : bool :=
  xorb (isWordOpt prev) (isWordOpt next).

Definition headChar (s : string) : option ascii :=
  match s with EmptyString => None | String c _ => Some c end.

Fixpoint dropChars (n : nat) (s : string) : string :=
  match n, s with
  | S k, String _ s' => dropChars k s'
  | _, _ => s
  end.

(** Length of the longest run of digits at the head of [s]. *)
Fixpoint spanDigits (s : string) : nat :=
  match s with
  | String c s' => if isDigit c then S (spanDigits s') else O
  | EmptyString => O
  end.

End JS.

(** ** Regular expressions of the query compiler

    Each scanner below is one regular expression of the source, written as the
    left-to-right scan the regular-expression engine performs.  [prev] is the
    character before the current position and [skip] counts the characters of
    the current position that a match found earlier still covers. *)

Module Regex.
Import JS.

(** [/\b\d+/] has a match: a digit that starts a word. *)
Fixpoint hasBoundaryDigits (prev : option ascii) (s : string) : bool :=
  match s with
  | EmptyString => false
  | String c s' =>
      (isDigit c && negb (isWordOpt prev)) || hasBoundaryDigits (Some c) s'
  end.

(** A match of [\b[0-9]*L\b] (for [atLeastOne = false]) or of [\b[0-9]+L\b]
    (for [atLeastOne = true]) that starts at the head of [s]; the result is the
    length of the match.  The greedy run of digits is the only one that can be
    followed by [L]. *)
Definition longIntAt (atLeastOne : bool) (prev : option ascii) (s : string) : option nat :=
  let d := spanDigits s in
  if wordBoundary prev (headChar s) && (negb atLeastOne || (0 <? d)%nat) then
    match dropChars d s with
    | String "L" rest =>
        if wordBoundary (Some "L"%char) (headChar rest) then Some (S d) else None
    | _ => None
    end
  else None.

(** All matches of the long-integer expression, as [String.prototype.match]
    with the [g] flag returns them ([null] is the empty list). *)
Fixpoint matchAllLongInt (atLeastOne : bool) (prev : option ascii) (skip : nat)
    (s : string) : list string :=
  match s with
  | EmptyString => []
  | String c s' =>
      match skip with
      | S k => matchAllLongInt atLeastOne (Some c) k s'
      | O =>
          match longIntAt atLeastOne prev s with
          | Some n => String.substring 0 n s :: matchAllLongInt atLeastOne (Some c) (n - 1) s'
          | None => matchAllLongInt atLeastOne (Some c) 0 s'
          end
      end
  end.

(** [token.replace(/L\b/g, "")]. *)
Fixpoint removeLB (s : string) : string :=
  match s with
  | EmptyString => EmptyString
  | String c s' =>
      if Ascii.eqb c "L" && negb (isWordOpt (headChar s')) then removeLB s'
      else String c (removeLB s')
  end.

(** [token.replace(/\bdatetime\b/g, "")]. *)
Fixpoint removeDatetime (prev : option ascii) (skip : nat) (s : string) : string :=
  match s with
  | EmptyString => EmptyString
  | String c s' =>
      match skip with
      | S k => removeDatetime (Some c) k s'
      | O =>
          if negb (isWordOpt prev) && startsWith "datetime" s
             && negb (isWordOpt (headChar (dropChars 8 s)))
          then removeDatetime (Some c) 7 s'
          else String c (removeDatetime (Some c) 0 s')
      end
  end.

End Regex.

Import JS Regex.

(** ** The query tokenizer ([tokenizeQuery]) *)

(** The keyword table of [convertToken]. *)
Definition convertToken (token : string) : string :=
  if String.eqb token "TableName" then "name"
  else if String.eqb token "eq" then "==="
  else if String.eqb token "gt" then ">"
  else if String.eqb token "ge" then ">="
  else if String.eqb token "lt" then "<"
  else if String.eqb token "le" then "<="
  else if String.eqb token "ne" then "!=="
  else if String.eqb token "and" then "&&"
  else if String.eqb token "or" then "||"
  else if String.eqb token "not" then "!"
  else token.

(** The [inString] branch of [appendToken], applied to the text between
    [tokenStart] and the closing quote: doubled quotes are unescaped, the text
    before the first quote is the type prefix, and the rest becomes a string in
    backticks.  The [guid] prefix is dropped. *)
Definition stringToken (raw : string) : string :=
  let token := replaceAllPair "'" "'" raw in
  let stringStart := indexOfChar "'" token in
  let typePrefix := substring token 0 stringStart in
  let backtickString := "`" +:+ substringFrom token (strlen typePrefix + 1) +:+ "`" in
  if String.eqb typePrefix "guid" then backtickString
  else typePrefix +:+ backtickString.

(** The variables the scanning loop of [tokenizeQuery] shares with its local
    function [appendToken]. *)
Record Scan := {
  cur : Z;                (* i *)
  tokenStart : Z;
  inString : bool;
  tokens : list string
}.

Definition setCur (st : Scan) (n : Z) : Scan :=
  {| cur := n; tokenStart := tokenStart st; inString := inString st; tokens := tokens st |}.

Definition setTokenStart (st : Scan) (n : Z) : Scan :=
  {| cur := cur st; tokenStart := n; inString := inString st; tokens := tokens st |}.

Definition setInString (st : Scan) (b : bool) : Scan :=
  {| cur := cur st; tokenStart := tokenStart st; inString := b; tokens := tokens st |}.

Definition pushToken (st : Scan) (token : string) : Scan :=
  {| cur := cur st; tokenStart := tokenStart st; inString := inString st;
     tokens := tokens st ++ [token] |}.

Definition appendToken (query : string) (st : Scan) : Scan :=
  let st' :=
    if 0 <? cur st - tokenStart st then
      let raw := substring query (tokenStart st) (cur st) in
      let token := if inString st then stringToken raw else convertToken raw in
      if String.eqb token "" then st else pushToken st token
    else st in
  setTokenStart st' (cur st + 1).

(** The test that decides, at a parenthesis, whether the text before it is
    closed as a token of its own first. *)
Definition breaksBeforeParen (query : string) (st : Scan) : bool :=
  let i := cur st in
  (negb (i =? 0)
   && (match charAt query (i - 1) with Some c => negb (isSpace c) | None => false end
       || ((5 <=? i) && String.eqb (slice query (i - 5) i) " true")
       || ((6 <=? i) && String.eqb (slice query (i - 6) i) " false")))
  || match matchAllLongInt true None 0 (substring query (tokenStart st) i) with
     | [] => false
     | _ => true
     end.

(** One pass through the body of the [for] loop, without the loop's own
    increment of [i]. *)
Definition scanStep (query : string) (st : Scan) : Scan :=
  let i := cur st in
  let c := charAt query i in
  if inString st then
    if (i <? strlen query - 1) && isChar "'" c && isChar "'" (charAt query (i + 1))
    then setCur st (i + 1)
    else if isChar "'" c then setInString (appendToken query st) false
    else st
  else if isChar "(" c || isChar ")" c then
    let st1 := if breaksBeforeParen query st then appendToken query st else st in
    let st2 := appendToken query (setCur st1 (i - 1)) in
    let st3 := setCur st2 (i - 1 + 1) in
    let st4 := pushToken st3 (match c with Some d => String d "" | None => "" end) in
    setTokenStart st4 (tokenStart st4 + 1)
  else if match c with Some d => isSpace d | None => false end then appendToken query st
  else if isChar "'" c then setInString st true
  else st.

(** The [for] loop.  Every pass moves [i] forward, so [fuel] passes are
    enough for a query of [fuel] characters. *)
Fixpoint scanLoop (fuel : nat) (query : string) (st : Scan) : Scan :=
  match fuel with
  | O => st
  | S fuel' =>
      if cur st <? strlen query then
        let st' := scanStep query st in
        scanLoop fuel' query (setCur st' (cur st' + 1))
      else st
  end.

Definition tokenizeQuery (originalQuery : string) : list string :=
  let query := replaceAllChar "`" "\`" originalQuery in
  let st0 := {| cur := 0; tokenStart := 0; inString := false; tokens := [] |} in
  let st := scanLoop (String.length query) query st0 in
  tokens (appendToken query st).

(** ** The query rewriter ([transformQuery]) *)

(** A computation either returns or throws. *)
Inductive result (E A : Type) : Type :=
  | Ok (a : A)
  | Throw (e : E).
Arguments Ok {E A} a.
Arguments Throw {E A} e.

(** The two [Error]s that [transformQuery] throws. *)
Inductive QueryError : Type :=
  | CustomPropertiesNotSupported   (* "Custom properties are not supported on this query type." *)
  | BinaryFilterNotSupported.      (* "Binary filter is not supported yet." *)

Definition comparisonOperators : list string :=
  ["==="; ">"; ">="; "<"; "<="; "!=="].

Definition operatorsAndParens : list string :=
  ["==="; ">"; ">="; "<"; "<="; "!=="; "&&"; "||"; "!"; "("; ")"].

(** [list.includes(token)]. *)
Definition includes (l : list string) (token : string) : bool :=
  existsb (String.eqb token) l.

(** The condition of the first [if] in the loop body: the token is neither a
    number, nor a boolean, nor a backtick string, nor an operator or a
    parenthesis, so it names a property. *)
Definition isIdentifier (token : string) : bool :=
  negb (hasBoundaryDigits None token)
  && negb (String.eqb token "true")
  && negb (String.eqb token "false")
  && negb (includesChar "`" token)
  && negb (includes operatorsAndParens token).

(** [tokens[n]], the empty string standing for no token: an [undefined] there
    is only reached behind the bounds test. *)
Definition tokenAt (tokens : list string) (n : Z) : string :=
  if n <? 0 then "" else default "" (tokens !! Z.to_nat n).

(** What one non-empty token adds to [transformedQuery], or the error thrown
    for it.  [counter] is the index of the token and [previousIsOp] tells
    whether the token before it is a comparison operator. *)
Definition transformToken (systemProperties : gmap string string)
    (allowCustomProperties : bool) (tokens : list string) (counter : Z)
    (previousIsOp : bool) (token : string) : result QueryError string :=
  if isIdentifier token then
    match systemProperties !! token with
    | Some field => Ok ("item." +:+ field +:+ " ")
    | None =>
        if allowCustomProperties then
          if (counter + 2 <=? Z.of_nat (length tokens) - 1)
             && startsWith "datetime" (tokenAt tokens (counter + 2))
          then Ok ("new Date(item.properties." +:+ token +:+ ").getTime() ")
          else Ok ("item.properties." +:+ token +:+ " ")
        else Throw CustomPropertiesNotSupported
    end
  else
    let matchLongInt := matchAllLongInt false None 0 token in
    if previousIsOp && (length matchLongInt =? 1)%nat then
      Ok (("'" +:+ removeLB token +:+ "'") +:+ " ")
    else if previousIsOp && startsWith "datetime" token then
      Ok (("new Date(" +:+ removeDatetime None 0 token +:+ ").getTime()") +:+ " ")
    else if previousIsOp && (startsWith "X" token || startsWith "binary" token) then
      Throw BinaryFilterNotSupported
    else Ok (token +:+ " ").

(** The [for ... of] loop over the tokens: [rest] are the tokens still to be
    visited, [counter] the index of the last one visited, [isOp] the flag left
    by the last non-empty one and [transformedQuery] the text so far. *)
Fixpoint transformLoop (systemProperties : gmap string string)
    (allowCustomProperties : bool) (tokens rest : list string) (counter : Z)
    (isOp : bool) (transformedQuery : string) : result QueryError string :=
  match rest with
  | [] => Ok (transformedQuery +:+ ")")
  | token :: rest' =>
      let counter := counter + 1 in
      if String.eqb token "" then
        transformLoop systemProperties allowCustomProperties tokens rest' counter
          isOp transformedQuery
      else
        let previousIsOp := isOp in
        let isOp := includes comparisonOperators token in
        match transformToken systemProperties allowCustomProperties tokens counter
                previousIsOp token with
        | Throw e => Throw e
        | Ok piece =>
            transformLoop systemProperties allowCustomProperties tokens rest' counter
              isOp (transformedQuery +:+ piece)
        end
  end.

(** [transformQuery] on a token list. *)
Definition transformTokens (systemProperties : gmap string string)
    (allowCustomProperties : bool) (tokens : list string) : result QueryError string :=
  transformLoop systemProperties allowCustomProperties tokens tokens (-1) false "return ( ".

Definition transformQuery (query : string) (systemProperties : gmap string string)
    (allowCustomProperties : bool) : result QueryError string :=
  transformTokens systemProperties allowCustomProperties (tokenizeQuery query).

Definition tableSystemProperties : gmap string string :=
  {[ "name" := "table" ]}.

Definition entitySystemProperties : gmap string string :=
  {[ "PartitionKey" := "PartitionKey"; "RowKey" := "RowKey" ]}.

Definition transformTableQuery (query : string) : result QueryError string :=
  transformQuery query tableSystemProperties false.

Definition transformEntityQuery (query : string) : result QueryError string :=
  transformQuery query entitySystemProperties true.

(** ** The data model *)

(** Property values of an entity. *)
Inductive JSValue : Type :=
  | VUndefined
  | VNull
  | VBoolean (b : bool)
  | VNumber (n : Z)
  | VString (s : string).

Global Instance JSValue_eq_dec : EqDecision JSValue.
Proof. solve_decision. Defined.

Definition isUndefined (v : JSValue) : bool :=
  match v with VUndefined => true | _ => false end.

(** [obj[key]]: a missing key reads as [undefined]. *)
Definition getProperty (obj : gmap string JSValue) (key : string) : JSValue :=
  default VUndefined (obj !! key).

(** The [Entity] of the store's interface; [lastModifiedTime] is a [Date],
    held as its time value. *)
Record Entity := {
  PartitionKey : string;
  RowKey : string;
  properties : gmap string JSValue;
  lastModifiedTime : Z;
  eTag : string
}.

Global Instance Entity_eq_dec : EqDecision Entity.
Proof. solve_decision. Defined.

(** A document: an entity object held by a collection, which marks it with the
    identifier [$loki]. *)
Record Doc := {
  loki : nat;
  entity : Entity
}.

Global Instance Doc_eq_dec : EqDecision Doc.
Proof. solve_decision. Defined.

(** A record of the table registry ([tableAcl] plays no part here). *)
Record Table := {
  account : string;
  table : string
}.

(** *** Durable collections *)

Module Loki.

(** Modelled from the spec: the durable collection of section 4.1 (the LokiJS
    library, which is not part of the repository): an ordered sequence of
    documents and the counter that numbers them.  [findOne] returns the first
    document with the given keys, [insert] appends the object under a fresh
    identifier, [remove] takes out the document that carries the identifier of
    the object passed, and [update] puts the object passed in the place of the
    document that carries its identifier.  [remove] and [update] of an
    identifier that the collection does not hold leave it as it is.  A
    document is a value here; [removeKept] is [remove] for an object that
    the caller has kept and that an earlier [remove] may have taken out. *)
Record Collection := {
  data : list Doc;
  maxId : nat
}.

Definition emptyCollection : Collection := {| data := []; maxId := 0 |}.

Definition hasKeys (partitionKey rowKey : string) (d : Doc) : bool :=
  String.eqb (PartitionKey (entity d)) partitionKey
  && String.eqb (RowKey (entity d)) rowKey.

Definition findOne (partitionKey rowKey : string) (c : Collection) : option Doc :=
  List.find (hasKeys partitionKey rowKey) (data c).

Definition insert (e : Entity) (c : Collection) : Collection * Doc :=
  let d := {| loki := S (maxId c); entity := e |} in
  ({| data := data c ++ [d]; maxId := S (maxId c) |}, d).

Fixpoint removeId (id : nat) (l : list Doc) : list Doc :=
  match l with
  | [] => []
  | d :: l' => if Nat.eqb (loki d) id then l' else d :: removeId id l'
  end.

Definition remove (d : Doc) (c : Collection) : Collection :=
  {| data := removeId (loki d) (data c); maxId := maxId c |}.

(** The collection holds a document with this identifier. *)
Definition holdsId (id : nat) (c : Collection) : bool :=
  existsb (fun d => Nat.eqb (loki d) id) (data c).

(** [remove] of an object that the caller has kept since the collection was
    given it, as the delete log keeps the entities inserted.  [remove] takes
    the [$loki] of the object it removes away, and throws when it is handed
    an object without [$loki].  The object kept is the very object of the
    collection and no identifier is given twice, so it is without [$loki]
    exactly when the collection holds no document with its identifier.
    [None] is the throw. *)
Definition removeKept (d : Doc) (c : Collection) : option Collection :=
  if holdsId (loki d) c then Some (remove d c) else None.

Fixpoint replaceId (d : Doc) (l : list Doc) : list Doc :=
  match l with
  | [] => []
  | x :: l' => if Nat.eqb (loki x) (loki d) then d :: l' else x :: replaceId d l'
  end.

Definition update (d : Doc) (c : Collection) : Collection :=
  {| data := replaceId d (data c); maxId := maxId c |}.

End Loki.

(** *** The store *)

(** The database and the two undo logs of the class.
    [transactionDeleteTheseEntities] holds the objects handed to [insert]
    during a batch: the log and the collection share each of them, so an entry
    is the document as the collection numbered it. *)
Record Store := {
  tables : list Table;                       (* $TABLES_COLLECTION$ *)
  collections : gmap string Loki.Collection; (* the entity collections, by name *)
  transactionRollbackTheseEntities : list Doc;
  transactionDeleteTheseEntities : list Doc
}.

Definition emptyStore : Store :=
  {| tables := []; collections := ∅;
     transactionRollbackTheseEntities := [];
     transactionDeleteTheseEntities := [] |}.

Definition setCollection (name : string) (c : Loki.Collection) (st : Store) : Store :=
  {| tables := tables st;
     collections := <[name := c]> (collections st);
     transactionRollbackTheseEntities := transactionRollbackTheseEntities st;
     transactionDeleteTheseEntities := transactionDeleteTheseEntities st |}.

Definition pushRollback (d : Doc) (st : Store) : Store :=
  {| tables := tables st;
     collections := collections st;
     transactionRollbackTheseEntities := transactionRollbackTheseEntities st ++ [d];
     transactionDeleteTheseEntities := transactionDeleteTheseEntities st |}.

Definition pushDelete (d : Doc) (st : Store) : Store :=
  {| tables := tables st;
     collections := collections st;
     transactionRollbackTheseEntities := transactionRollbackTheseEntities st;
     transactionDeleteTheseEntities := transactionDeleteTheseEntities st ++ [d] |}.

Definition resetTrackers (st : Store) : Store :=
  {| tables := tables st;
     collections := collections st;
     transactionRollbackTheseEntities := [];
     transactionDeleteTheseEntities := [] |}.

(** The errors of [StorageErrorFactory] that the modelled operations throw,
    the [Error] of [beginBatchTransaction], and the [Error] of the
    collection's [remove] for an object that is not stored. *)
Inductive StorageError : Type :=
  | TableNotExist
  | TableAlreadyExists
  | EntityNotFound
  | EntityAlreadyExist
  | PreconditionFailed
  | PropertiesNeedValue
  | QueryConditionInvalid
  | TransactionOverlap
  | NotADocument.

(** An operation of the store: it reads and changes the store and returns or
    throws; what it did to the store before throwing stays done. *)
Definition Op (A : Type) : Type := Store -> Store * result StorageError A.

Definition throw {A} (e : StorageError) : Op A := fun st => (st, Throw e).
Definition getStore : Op Store := fun st => (st, Ok st).
Definition modify (f : Store -> Store) : Op unit := fun st => (f st, Ok tt).

Global Instance Op_ret : MRet Op := fun A a st => (st, Ok a).
Global Instance Op_bind : MBind Op := fun A B k m st =>
  match m st with
  | (st', Ok a) => k a st'
  | (st', Throw e) => (st', Throw e)
  end.

Definition getTableCollectionName (account table : string) : string :=
  account +:+ "$" +:+ table.

Definition hasTable (account0 table0 : string) (st : Store) : bool :=
  existsb (fun t => String.eqb (account t) account0 && String.eqb (table t) table0)
          (tables st).

(** The two lookups every entity operation starts with: the registry record
    and the entity collection; either one missing is [TableNotExist]. *)
Definition getEntityCollection (account table : string) : Op Loki.Collection :=
  st ← getStore;
  if hasTable account table st then
    match collections st !! getTableCollectionName account table with
    | Some c => mret c
    | None => throw TableNotExist
    end
  else throw TableNotExist.

(** ** Entity operations *)

(** Modelled from the spec: the constant [ODATA_TYPE] of [utils/constants],
    which is not among the sources; the spec gives the suffix of a type tag as
    [@odata.type]. *)
Definition ODATA_TYPE : string := "@odata.type".

(** [batchId !== ""], for an optional [batchId]. *)
Definition notEmptyString (batchId : option string) : bool :=
  match batchId with
  | Some s => negb (String.eqb s "")
  | None => true
  end.

(** [batchId !== "" && batchId !== undefined]. *)
Definition notEmptyNorUndefined (batchId : option string) : bool :=
  match batchId with
  | Some s => negb (String.eqb s "")
  | None => false
  end.

(** [eTag.replace(":", "%3A").replace(":", "%3A")]. *)
Definition encodeColons (s : string) : string :=
  replaceFirst ":" "%3A" (replaceFirst ":" "%3A" s).

(** The test on [encodedIfMatch] that update and merge share. *)
Definition etagMatches (storedETag : string) (ifMatch : option string) : bool :=
  let encodedEtag := encodeColons storedETag in
  let encodedIfMatch := encodeColons <$> ifMatch in
  match encodedIfMatch with
  | None => true
  | Some m => String.eqb m "*" || String.eqb encodedEtag m
  end.

(** One pass of the loop of [mergeTableEntity] over the incoming properties. *)
Definition mergeProperty (incoming : gmap string JSValue) (key : string)
    (value : JSValue) (merged : gmap string JSValue) : gmap string JSValue :=
  if endsWith ODATA_TYPE key then merged
  else
    let merged' := <[key := value]> merged in
    let tag := getProperty incoming (key +:+ ODATA_TYPE) in
    if isUndefined tag then delete (key +:+ ODATA_TYPE) merged'
    else <[key +:+ ODATA_TYPE := tag]> merged'.

(** [mergedDEntity]: the fields of [doc], then those of [entity] over them,
    with the properties of [doc] as the starting point of the merge. *)
Definition mergedDEntity (doc : Doc) (e : Entity) : Doc :=
  {| loki := loki doc;
     entity :=
       {| PartitionKey := PartitionKey e;
          RowKey := RowKey e;
          properties :=
            map_fold (mergeProperty (properties e)) (properties (entity doc))
                     (properties e);
          lastModifiedTime := lastModifiedTime e;
          eTag := eTag e |} |}.

Section Operations.

(** [getTimestampString] of [utils/utils], which is not among the sources. *)
Variable getTimestampString : Z -> string.

(** The two assignments to [entity.properties] before an entity is stored. *)
Definition stampTimestamp (e : Entity) : Entity :=
  {| PartitionKey := PartitionKey e;
     RowKey := RowKey e;
     properties :=
       <["Timestamp@odata.type" := VString "Edm.DateTime"]>
         (<["Timestamp" := VString (getTimestampString (lastModifiedTime e))]>
            (properties e));
     lastModifiedTime := lastModifiedTime e;
     eTag := eTag e |}.

Definition createTable (tableModel : Table) : Op unit :=
  st ← getStore;
  if hasTable (account tableModel) (table tableModel) st then throw TableAlreadyExists
  else
    modify (fun st =>
      {| tables := tables st ++ [tableModel];
         collections :=
           <[getTableCollectionName (account tableModel) (table tableModel)
             := Loki.emptyCollection]> (collections st);
         transactionRollbackTheseEntities := transactionRollbackTheseEntities st;
         transactionDeleteTheseEntities := transactionDeleteTheseEntities st |}).

Definition insertTableEntity (table account : string) (e : Entity)
    (batchId : option string) : Op Doc :=
  coll ← getEntityCollection account table;
  match Loki.findOne (PartitionKey e) (RowKey e) coll with
  | Some _ => throw EntityAlreadyExist
  | None =>
      let '(coll', doc) := Loki.insert (stampTimestamp e) coll in
      (if notEmptyNorUndefined batchId then modify (pushDelete doc) else mret tt);;
      modify (setCollection (getTableCollectionName account table) coll');;
      mret doc
  end.

Definition queryTableEntitiesWithPartitionAndRowKey (table account : string)
    (partitionKey rowKey : string) : Op (option Doc) :=
  st ← getStore;
  match collections st !! getTableCollectionName account table with
  | None => throw TableNotExist
  | Some tableColl => mret (Loki.findOne partitionKey rowKey tableColl)
  end.

Definition updateTableEntity (table account : string) (e : Entity)
    (ifMatch batchId : option string) : Op Doc :=
  coll ← getEntityCollection account table;
  match Loki.findOne (PartitionKey e) (RowKey e) coll with
  | None => throw EntityNotFound
  | Some doc =>
      (if notEmptyString batchId then modify (pushRollback doc) else mret tt);;
      if etagMatches (eTag (entity doc)) ifMatch then
        let '(coll', stored) := Loki.insert (stampTimestamp e) (Loki.remove doc coll) in
        modify (setCollection (getTableCollectionName account table) coll');;
        mret stored
      else throw PreconditionFailed
  end.

Definition mergeTableEntity (table account : string) (e : Entity)
    (ifMatch batchId : option string) : Op Doc :=
  coll ← getEntityCollection account table;
  match Loki.findOne (PartitionKey e) (RowKey e) coll with
  | None => throw EntityNotFound
  | Some doc =>
      (if notEmptyString batchId then modify (pushRollback doc) else mret tt);;
      if etagMatches (eTag (entity doc)) ifMatch then
        let merged := mergedDEntity doc e in
        modify (setCollection (getTableCollectionName account table)
                  (Loki.update merged coll));;
        mret merged
      else throw PreconditionFailed
  end.

(** [ifMatch === undefined || ifMatch === "*"]. *)
Definition isUpsert (ifMatch : option string) : bool :=
  match ifMatch with
  | None => true
  | Some m => String.eqb m "*"
  end.

Definition insertOrUpdateTableEntity (table account : string) (e : Entity)
    (ifMatch batchId : option string) : Op Doc :=
  if isUpsert ifMatch then
    existingEntity ← queryTableEntitiesWithPartitionAndRowKey table account
                       (PartitionKey e) (RowKey e);
    match existingEntity with
    | Some _ => updateTableEntity table account e ifMatch batchId
    | None => insertTableEntity table account e batchId
    end
  else updateTableEntity table account e ifMatch batchId.

Definition insertOrMergeTableEntity (table account : string) (e : Entity)
    (ifMatch batchId : option string) : Op Doc :=
  if isUpsert ifMatch then
    existingEntity ← queryTableEntitiesWithPartitionAndRowKey table account
                       (PartitionKey e) (RowKey e);
    match existingEntity with
    | Some _ => mergeTableEntity table account e ifMatch batchId
    | None => insertTableEntity table account e batchId
    end
  else mergeTableEntity table account e ifMatch batchId.

(** [partitionKey] and [rowKey] are tested against [undefined], so they are
    optional here; [etag] and [batchId] are strings. *)
Definition deleteTableEntity (table account : string)
    (partitionKey rowKey : option string) (etag : string) (batchId : string)
    : Op unit :=
  coll ← getEntityCollection account table;
  match partitionKey, rowKey with
  | Some pk, Some rk =>
      match Loki.findOne pk rk coll with
      | None => throw EntityNotFound
      | Some doc =>
          if negb (String.eqb etag "*") && negb (String.eqb (eTag (entity doc)) etag)
          then throw PreconditionFailed
          else
            (if negb (String.eqb batchId "") then modify (pushRollback doc)
             else mret tt);;
            modify (setCollection (getTableCollectionName account table)
                      (Loki.remove doc coll))
      end
  | _, _ => throw PropertiesNeedValue
  end.

(** ** Batch transactions *)

Definition beginBatchTransaction (batchId : string) : Op unit :=
  st ← getStore;
  if (0 <? length (transactionRollbackTheseEntities st))%nat
     || (0 <? length (transactionDeleteTheseEntities st))%nat
  then throw TransactionOverlap
  else mret tt.

(** One pass of the first loop of the rollback: the five fields of the
    pre-image are copied, the current document with the same keys is removed
    if there is one, and the copy is inserted. *)
Definition restorePreImage (c : Loki.Collection) (preImage : Doc) : Loki.Collection :=
  let copiedEntity :=
    {| PartitionKey := PartitionKey (entity preImage);
       RowKey := RowKey (entity preImage);
       properties := properties (entity preImage);
       lastModifiedTime := lastModifiedTime (entity preImage);
       eTag := eTag (entity preImage) |} in
  let c' :=
    match Loki.findOne (PartitionKey (entity preImage)) (RowKey (entity preImage)) c with
    | Some doc => Loki.remove doc c
    | None => c
    end in
  fst (Loki.insert copiedEntity c').

(** The second loop of the rollback: [remove] for the entries of the delete
    log, in order.  It stops at the first entry for which [remove] throws,
    with the removals before it done; the flag tells whether it has reached
    the end of the log. *)
Fixpoint removeInserted (deleteThese : list Doc) (c : Loki.Collection)
    : Loki.Collection * bool :=
  match deleteThese with
  | [] => (c, true)
  | deleteRow :: rest =>
      match Loki.removeKept deleteRow c with
      | Some c' => removeInserted rest c'
      | None => (c, false)
      end
  end.

(** What the two loops give when no [remove] of the second throws. *)
Definition rollbackCollection (rollbackThese deleteThese : list Doc)
    (c : Loki.Collection) : Loki.Collection :=
  foldl (fun c deleteRow => Loki.remove deleteRow c)
        (foldl restorePreImage c rollbackThese)
        deleteThese.

(** A throw of the second loop leaves the function at once: what the loops
    have done to the collection stays done, and the two assignments that
    reset the logs are not reached. *)
Definition endBatchTransaction (account table : string) (batchId : string)
    (succeeded : bool) : Op unit :=
  (if negb succeeded then
     st ← getStore;
     match collections st !! getTableCollectionName account table with
     | Some tableBatchCollection =>
         let restored :=
           foldl restorePreImage tableBatchCollection
             (transactionRollbackTheseEntities st) in
         let '(final, completed) :=
           removeInserted (transactionDeleteTheseEntities st) restored in
         modify (setCollection (getTableCollectionName account table) final);;
         if completed then mret tt else throw NotADocument
     | None => mret tt
     end
   else mret tt);;
  modify resetTrackers.

End Operations.

(** ** Queries *)

Module Models.
(** [Models.QueryOptions]: the [$filter] and [$top] of a request; [top] is a
    count. *)
Record QueryOptions := {
  filter : option string;
  top : option nat
}.
End Models.

(** [a > b] and [a >= b] on strings that may be [undefined]: a comparison with
    [undefined] is false. *)
Definition jsGt (a b : option string) : bool :=
  match a, b with
  | Some x, Some y => String.ltb y x
  | _, _ => false
  end.

Definition jsGe (a b : option string) : bool :=
  match a, b with
  | Some x, Some y => String.leb y x
  | _, _ => false
  end.

(** [a === b] on strings that may be [undefined]. *)
Definition jsEq (a b : option string) : bool :=
  match a, b with
  | Some x, Some y => String.eqb x y
  | None, None => true
  | _, _ => false
  end.

(** The second [where] of [queryTableEntities], on the two keys of [data]. *)
Definition continuationFilter (decodedNextPartitionKey decodedNextRowKey : option string)
    (dataPartitionKey dataRowKey : option string) : bool :=
  if match decodedNextPartitionKey with
     | Some _ => jsGt dataPartitionKey decodedNextPartitionKey
     | None => false
     end
  then true
  else
    match decodedNextRowKey with
    | Some _ =>
        if jsGe dataRowKey decodedNextRowKey
           && (jsEq dataPartitionKey decodedNextPartitionKey
               || jsEq dataPartitionKey None)
        then true
        else false
    | None => true
    end.

(** The comparison function handed to [sort]. *)
Definition compareKeys (obj1 obj2 : Doc) : Z :=
  if String.ltb (PartitionKey (entity obj2)) (PartitionKey (entity obj1)) then 1
  else if String.eqb (PartitionKey (entity obj1)) (PartitionKey (entity obj2)) then
    if String.ltb (RowKey (entity obj2)) (RowKey (entity obj1)) then 1
    else if String.eqb (RowKey (entity obj1)) (RowKey (entity obj2)) then 0
    else -1
  else -1.

(** [Array.prototype.sort] with a comparison function is a stable sort: equal
    elements keep their order. *)
Fixpoint insertSorted {A} (cmp : A -> A -> Z) (x : A) (l : list A) : list A :=
  match l with
  | [] => [x]
  | y :: l' => if cmp x y <=? 0 then x :: l else y :: insertSorted cmp x l'
  end.

Fixpoint sortWith {A} (cmp : A -> A -> Z) (l : list A) : list A :=
  match l with
  | [] => []
  | x :: l' => insertSorted cmp x (sortWith cmp l')
  end.

(** What makes [generateQueryEntityWhereFunction] throw: an error of the
    rewriter, or the [SyntaxError] of the [Function] constructor. *)
Inductive CompileError : Type :=
  | RewriteError (e : QueryError)
  | SyntaxError.

Section Queries.

(** [QUERY_RESULT_MAX_NUM] of [utils/constants], which is not among the
    sources. *)
Variable QUERY_RESULT_MAX_NUM : nat.

(** [Buffer.from(input, "base64").toString("utf8")] and
    [Buffer.from(input, "utf8").toString("base64")]. *)
Variable base64Decode : string -> string.
Variable base64Encode : string -> string.

(** [new Function("item", body)] for an entity and for a table: the predicate
    the text compiles to, or [None] when the text is rejected. *)
Variable newEntityFunction : string -> option (Doc -> bool).
Variable newTableFunction : string -> option (Table -> bool).

Definition decodeContinuationHeader (input : option string) : option string :=
  base64Decode <$> input.

Definition encodeContinuationHeader (input : option string) : option string :=
  base64Encode <$> input.

Definition generateQueryEntityWhereFunction (query : option string)
    : result CompileError (Doc -> bool) :=
  match query with
  | None => Ok (fun _ => true)
  | Some q =>
      match transformEntityQuery q with
      | Throw e => Throw (RewriteError e)
      | Ok transformedQuery =>
          match newEntityFunction transformedQuery with
          | Some f => Ok f
          | None => Throw SyntaxError
          end
      end
  end.

Definition generateQueryTableWhereFunction (query : option string)
    : result CompileError (Table -> bool) :=
  match query with
  | None => Ok (fun _ => true)
  | Some q =>
      match transformTableQuery q with
      | Throw e => Throw (RewriteError e)
      | Ok transformedQuery =>
          match newTableFunction transformedQuery with
          | Some f => Ok f
          | None => Throw SyntaxError
          end
      end
  end.

(** [queryOptions.top || dflt]: an absent [top] and a [top] of zero both give
    the default. *)
Definition topOr (queryOptions : Models.QueryOptions) (dflt : nat) : nat :=
  match Models.top queryOptions with
  | Some (S n) => S n
  | _ => dflt
  end.

(** The chain [where(queryWhere).where(...).sort(...).limit(maxResults + 1)]. *)
Definition entityQueryChain (queryWhere : Doc -> bool)
    (decodedNextPartitionKey decodedNextRowKey : option string) (maxResults : nat)
    (c : Loki.Collection) : list Doc :=
  take (maxResults + 1)
    (sortWith compareKeys
       (List.filter
          (fun d => continuationFilter decodedNextPartitionKey decodedNextRowKey
                      (Some (PartitionKey (entity d))) (Some (RowKey (entity d))))
          (List.filter queryWhere (Loki.data c)))).

Definition queryTableEntities (account table : string)
    (queryOptions : Models.QueryOptions) (nextPartitionKey nextRowKey : option string)
    : Op (list Doc * option string * option string) :=
  coll ← getEntityCollection account table;
  match generateQueryEntityWhereFunction (Models.filter queryOptions) with
  | Throw _ => throw QueryConditionInvalid
  | Ok queryWhere =>
      let maxResults := topOr queryOptions QUERY_RESULT_MAX_NUM in
      let decodedNextPartitionKey := decodeContinuationHeader nextPartitionKey in
      let decodedNextRowKey := decodeContinuationHeader nextRowKey in
      let result :=
        entityQueryChain queryWhere decodedNextPartitionKey decodedNextRowKey
          maxResults coll in
      if (maxResults <? length result)%nat then
        match last result with
        | Some tail =>
            mret (removelast result,
                  encodeContinuationHeader (Some (PartitionKey (entity tail))),
                  encodeContinuationHeader (Some (RowKey (entity tail))))
        | None => mret (result, None, None)
        end
      else mret (result, None, None)
  end.

(** [nextTable] is used when it is truthy: present and not empty. *)
Definition tableFindFilter (account0 : string) (nextTable : option string)
    (t : Table) : bool :=
  String.eqb (account t) account0
  && match nextTable with
     | Some n => String.eqb n "" || String.leb n (table t)
     | None => true
     end.

(** The order of [simplesort("table")] on names that the library does not
    read as numbers: it compares two names that both read as numbers, such as
    [Infinity], by their values, which this comparison does not follow.
    Nothing below is stated of the order of the tables returned. *)
Definition compareTableNames (t1 t2 : Table) : Z :=
  if String.eqb (table t1) (table t2) then 0
  else if String.ltb (table t1) (table t2) then -1 else 1.

Definition queryTable (account0 : string) (queryOptions : Models.QueryOptions)
    (nextTable : option string) : Op (list Table * option string) :=
  st ← getStore;
  match generateQueryTableWhereFunction (Models.filter queryOptions) with
  | Throw _ => throw QueryConditionInvalid
  | Ok queryWhere =>
      let top := topOr queryOptions 1000 in
      let docList :=
        take (top + 1)
          (sortWith compareTableNames
             (List.filter queryWhere
                (List.filter (tableFindFilter account0 nextTable) (tables st)))) in
      if (top <? length docList)%nat then
        mret (removelast docList, table <$> last docList)
      else mret (docList, None)
  end.

End Queries.

(** ** The properties as the specification words them *)

(** Replacing the first [n] occurrences of a character. *)
Fixpoint replaceFirstN (n : nat) (c : ascii) (rep s : string) : string :=
  match n, s with
  | S k, String d s' =>
      if Ascii.eqb c d then rep +:+ replaceFirstN k c rep s'
      else String d (replaceFirstN n c rep s')
  | _, _ => s
  end.

(** "Replace the first two [:] with [%3A]". *)
Definition urlencodeColons (s : string) : string :=
  replaceFirstN 2 ":" "%3A" s.

(** The continuation filter in the words of the specification: "a record
    passes iff [PartitionKey > decodedNextPartitionKey], or
    [RowKey >= decodedNextRowKey] while [PartitionKey ==
    decodedNextPartitionKey] (or [PartitionKey] is undefined)", every record
    passing when neither key is set. *)
Definition specContinuationFilter (decodedNextPartitionKey decodedNextRowKey : option string)
    (dataPartitionKey dataRowKey : option string) : bool :=
  match decodedNextPartitionKey, decodedNextRowKey with
  | None, None => true
  | _, _ =>
      jsGt dataPartitionKey decodedNextPartitionKey
      || (jsGe dataRowKey decodedNextRowKey
          && (jsEq dataPartitionKey decodedNextPartitionKey
              || jsEq dataPartitionKey None))
  end.

(** An operation succeeds when it returns. *)
Definition succeeds {A} (r : Store * result StorageError A) : Prop :=
  exists a, r.2 = Ok a.

(** The store once update or merge has passed the statement that logs the
    pre-image [doc]. *)
Definition afterLogging (batchId : option string) (doc : Doc) (st : Store) : Store :=
  if notEmptyString batchId then pushRollback doc st else st.

(** ** Invariants of a collection *)

Definition keysOf (d : Doc) : string * string :=
  (PartitionKey (entity d), RowKey (entity d)).

(** The identifiers of the documents are distinct and the counter has passed
    all of them. *)
Definition uniqueIds (c : Loki.Collection) : Prop :=
  NoDup (loki <$> Loki.data c)
  /\ Forall (fun d => (loki d <= Loki.maxId c)%nat) (Loki.data c).

(** (I2): within a collection, [(PartitionKey, RowKey)] is unique. *)
Definition uniqueKeys (c : Loki.Collection) : Prop :=
  NoDup (keysOf <$> Loki.data c).

(** ** Statement of the merge and of the query order *)

(** The type tag the request carries for [key], if it is defined. *)
Definition tagOf (incoming : gmap string JSValue) (key : string) : option JSValue :=
  if isUndefined (getProperty incoming (key +:+ ODATA_TYPE)) then None
  else Some (getProperty incoming (key +:+ ODATA_TYPE)).

(** [merged] is [stored] overlaid with the keys of [visited] that are not type
    tags: each such key has its incoming value and the incoming tag (or none),
    and every other key is as in [stored]. *)
Definition overlays (stored incoming visited merged : gmap string JSValue) : Prop :=
  (forall k v, visited !! k = Some v -> endsWith ODATA_TYPE k = false ->
     merged !! k = Some v /\ merged !! (k +:+ ODATA_TYPE) = tagOf incoming k)
  /\ (forall q,
        (visited !! q = None \/ endsWith ODATA_TYPE q = true) ->
        (forall k, is_Some (visited !! k) -> endsWith ODATA_TYPE k = false ->
                   q <> k +:+ ODATA_TYPE) ->
        merged !! q = stored !! q).

(** [(PartitionKey, RowKey)] of [d1] comes before or equals that of [d2],
    partition key first. *)
Definition keysLe (d1 d2 : Doc) : Prop :=
  String.ltb (PartitionKey (entity d1)) (PartitionKey (entity d2)) = true
  \/ (PartitionKey (entity d1) = PartitionKey (entity d2)
      /\ String.leb (RowKey (entity d1)) (RowKey (entity d2)) = true).

(** ** Statement of the rewriter's behaviour *)

(** Every character of [s] satisfies [p]. *)
Fixpoint allChars (p : ascii -> bool) (s : string) : bool :=
  match s with
  | EmptyString => true
  | String c s' => p c && allChars p s'
  end.

(** The characters of an ISO 8601 date and time such as
    [2024-01-02T03:04:05.678Z]. *)
Definition isoDateTimeChar (c : ascii) : bool :=
  isDigit c
  || Ascii.eqb c "-" || Ascii.eqb c ":" || Ascii.eqb c "." || Ascii.eqb c "+"
  || Ascii.eqb c "T" || Ascii.eqb c "Z".

(** The token before position [i] is a comparison operator. *)
Definition followsComparison (tokens : list string) (i : nat) : bool :=
  match i with
  | O => false
  | S j => includes comparisonOperators (default "" (tokens !! j))
  end.

(** The rewriter appends [piece] for the token at position [i]. *)
Definition emits (systemProperties : gmap string string) (allowCustomProperties : bool)
    (tokens : list string) (i : nat) (piece : string) : Prop :=
  exists token,
    tokens !! i = Some token
    /\ transformToken systemProperties allowCustomProperties tokens (Z.of_nat i)
         (followsComparison tokens i) token = Ok piece.

(** The first way to fail: a property name that is not a system property, in
    a query that allows no custom properties. *)
Definition customPropertyRejected (systemProperties : gmap string string)
    (allowCustomProperties : bool) (token : string) : Prop :=
  isIdentifier token = true
  /\ systemProperties !! token = None
  /\ allowCustomProperties = false.

(** The long-integer test of the rewriter: the token holds exactly one match
    of [\b[0-9]*L\b]. *)
Definition takenForLongInt (token : string) : bool :=
  (length (matchAllLongInt false None 0 token) =? 1)%nat.

(** A binary literal as the rewriter recognises it: a token that is no
    property name, starts with [X] or [binary], and is not taken for a long
    integer. *)
Definition binaryLiteral (token : string) : Prop :=
  isIdentifier token = false
  /\ (startsWith "X" token = true \/ startsWith "binary" token = true)
  /\ takenForLongInt token = false.

(** The token at position [i] makes [transformQuery] throw. *)
Definition rejectedAt (systemProperties : gmap string string)
    (allowCustomProperties : bool) (tokens : list string) (i : nat) : Prop :=
  exists token,
    tokens !! i = Some token
    /\ (customPropertyRejected systemProperties allowCustomProperties token
        \/ (binaryLiteral token /\ followsComparison tokens i = true)).

(** The flag [previousIsOp] at position [j] of the tokens still to visit, when
    the loop holds [isOp]. *)
Definition flagBefore (isOp : bool) (rest : list string) (j : nat) : bool :=
  match j with
  | O => isOp
  | S k => includes comparisonOperators (default "" (rest !! k))
  end.

(** ** Statement of the tokenizer's behaviour *)

(** No token collected so far is empty. *)
Definition tokensNonEmpty (st : Scan) : Prop :=
  Forall (fun t => t <> "") (tokens st).

(** A character that neither ends a token nor opens a string. *)
Definition plainChar (c : ascii) : bool :=
  negb (Ascii.eqb c "'") && negb (Ascii.eqb c "(") && negb (Ascii.eqb c ")")
  && negb (isSpace c).

Definition notQuote (c : ascii) : bool := negb (Ascii.eqb c "'").

Definition notQuoteNorBacktick (c : ascii) : bool :=
  negb (Ascii.eqb c "'") && negb (Ascii.eqb c "`").

(** ** Sample data *)

(** A stand-in for [getTimestampString]. *)
Definition sampleClock (t : Z) : string :=
  if t =? 0 then "1970-01-01T00:00:00.0000000Z" else "2024-01-02T03:04:05.0000000Z".

Definition sampleTable : Table := {| account := "acct"; table := "t" |}.

Definition sampleEntity : Entity :=
  {| PartitionKey := "p";
     RowKey := "r1";
     properties := {[ "x" := VNumber 1; "x@odata.type" := VString "Edm.Int32" ]};
     lastModifiedTime := 0;
     eTag := "W/datetime'2024-01-01T00:00:00.000Z'" |}.

(** A second version of [sampleEntity], as a later request carries it. *)
Definition sampleChange (t : Z) : Entity :=
  {| PartitionKey := "p";
     RowKey := "r1";
     properties := {[ "x" := VString "one"; "y" := VBoolean true ]};
     lastModifiedTime := t;
     eTag := "W/datetime'2024-02-02T00:00:00.000Z'" |}.

Definition sampleInserted : Entity :=
  {| PartitionKey := "p";
     RowKey := "r2";
     properties := ∅;
     lastModifiedTime := 1;
     eTag := "W/datetime'2024-03-03T00:00:00.000Z'" |}.

(** The store after [createTable] and one [insertTableEntity] outside any
    batch. *)
Definition sampleStore (getTimestampString : Z -> string) : Store :=
  (insertTableEntity getTimestampString "t" "acct" sampleEntity None
     (createTable sampleTable emptyStore).1).1.

Definition sampleThird : Entity :=
  {| PartitionKey := "p";
     RowKey := "r3";
     properties := ∅;
     lastModifiedTime := 1;
     eTag := "W/datetime'2024-04-04T00:00:00.000Z'" |}.

(** [sampleStore] with two more entities, inserted out of key order. *)
Definition sampleStoreOfThree : Store :=
  (insertTableEntity sampleClock "t" "acct" sampleInserted None
     (insertTableEntity sampleClock "t" "acct" sampleThird None
        (sampleStore sampleClock)).1).1.

(** The document that [sampleStore] holds. *)
Definition sampleDoc : Doc :=
  {| loki := 1; entity := stampTimestamp sampleClock sampleEntity |}.

Definition sampleCollection : Loki.Collection :=
  {| Loki.data := [sampleDoc]; Loki.maxId := 1 |}.



Local Close Scope Z_scope.

(** ** Statement of the entity operations' effects *)

(** The entity a collection holds under a pair of keys, as a lookup by
    [findOne] sees it. *)
Definition entityAt (partitionKey rowKey : string) (c : Loki.Collection) : option Entity :=
  entity <$> Loki.findOne partitionKey rowKey c.

(** A collection as the store's own operations leave it: distinct
    identifiers, and (I2) distinct pairs of keys. *)
Definition wellFormed (c : Loki.Collection) : Prop :=
  uniqueIds c /\ uniqueKeys c.

(** ** Calls of the public write operations *)

(** A call of one of the four public operations that write entities, with its
    arguments after [context], [table] and [account]. *)
Inductive EntityCall : Type :=
  | CallInsert (e : Entity) (batchId : option string)
  | CallInsertOrUpdate (e : Entity) (ifMatch batchId : option string)
  | CallInsertOrMerge (e : Entity) (ifMatch batchId : option string)
  | CallDelete (partitionKey rowKey : option string) (etag batchId : string).

(** The keys a call is about; a delete without both keys is about none. *)
Definition callKeys (call : EntityCall) : option (string * string) :=
  match call with
  | CallInsert e _ | CallInsertOrUpdate e _ _ | CallInsertOrMerge e _ _ =>
      Some (PartitionKey e, RowKey e)
  | CallDelete (Some pk) (Some rk) _ _ => Some (pk, rk)
  | CallDelete _ _ _ _ => None
  end.

(** The call carries the batch identifier [b]. *)
Definition inBatch (b : string) (call : EntityCall) : Prop :=
  match call with
  | CallInsert _ batchId | CallInsertOrUpdate _ _ batchId
  | CallInsertOrMerge _ _ batchId => batchId = Some b
  | CallDelete _ _ _ batchId => batchId = b
  end.

(** With this call, update, merge and delete log the pre-image. *)
Definition logsPreImage (call : EntityCall) : bool :=
  match call with
  | CallInsert _ _ => false
  | CallInsertOrUpdate _ _ batchId | CallInsertOrMerge _ _ batchId =>
      notEmptyString batchId
  | CallDelete _ _ _ batchId => negb (String.eqb batchId "")
  end.

(** With this call, insert logs the inserted document. *)
Definition logsInserted (call : EntityCall) : bool :=
  match call with
  | CallInsert _ batchId | CallInsertOrUpdate _ _ batchId
  | CallInsertOrMerge _ _ batchId => notEmptyNorUndefined batchId
  | CallDelete _ _ _ _ => false
  end.

Section Calls.
Variable getTimestampString : Z -> string.

(** The store after the call, and whether the call returned. *)
Definition runCall (table0 account0 : string) (call : EntityCall)
    : Op (option Doc) :=
  match call with
  | CallInsert e batchId =>
      doc ← insertTableEntity getTimestampString table0 account0 e batchId;
      mret (Some doc)
  | CallInsertOrUpdate e ifMatch batchId =>
      doc ← insertOrUpdateTableEntity getTimestampString table0 account0 e
              ifMatch batchId;
      mret (Some doc)
  | CallInsertOrMerge e ifMatch batchId =>
      doc ← insertOrMergeTableEntity getTimestampString table0 account0 e
              ifMatch batchId;
      mret (Some doc)
  | CallDelete partitionKey rowKey etag batchId =>
      deleteTableEntity table0 account0 partitionKey rowKey etag batchId;;
      mret None
  end.

(** The calls of a batch, one after the other; a call that throws leaves the
    store as it is at that point, and the next call goes on from there. *)
Definition runCalls (table0 account0 : string) (calls : list EntityCall)
    (st : Store) : Store :=
  foldl (fun st call => (runCall table0 account0 call st).1) st calls.

End Calls.

(** The table is registered, and its entity collection exists and is well
    formed. *)
Definition tableReady (account0 table0 : string) (st : Store) : Prop :=
  hasTable account0 table0 st = true
  /\ exists c, collections st !! getTableCollectionName account0 table0 = Some c
               /\ wellFormed c.

(** What [queryTableEntitiesWithPartitionAndRowKey] answers. *)
Definition entityLookup (table0 account0 partitionKey rowKey : string) (st : Store)
    : result StorageError (option Doc) :=
  (queryTableEntitiesWithPartitionAndRowKey table0 account0 partitionKey rowKey st).2.

(** ** Statement of the rollback of a batch *)

(** The undo logs account for every difference between the collection [c0]
    at the start of a batch and the collection [c] now: the logged keys are
    distinct; under every other pair of keys [c] holds what [c0] holds; an
    entry of the rollback log is the document [c0] holds under its keys; an
    entry of the delete log is a document of [c], newer than all of [c0],
    under keys that were free in [c0].  The counter of identifiers has not
    gone back. *)
Definition undoLogsTrack (c0 c : Loki.Collection)
    (rollbackThese deleteThese : list Doc) : Prop :=
  wellFormed c0 /\ wellFormed c
  /\ (Loki.maxId c0 <= Loki.maxId c)%nat
  /\ NoDup (keysOf <$> (rollbackThese ++ deleteThese))
  /\ (forall pk rk, (pk, rk) ∉ keysOf <$> (rollbackThese ++ deleteThese) ->
        Loki.findOne pk rk c = Loki.findOne pk rk c0)
  /\ (forall p, p ∈ rollbackThese ->
        Loki.findOne (PartitionKey (entity p)) (RowKey (entity p)) c0 = Some p)
  /\ (forall d, d ∈ deleteThese ->
        Loki.findOne (PartitionKey (entity d)) (RowKey (entity d)) c0 = None
        /\ Loki.findOne (PartitionKey (entity d)) (RowKey (entity d)) c = Some d
        /\ (Loki.maxId c0 < loki d)%nat).

(** ** The table registry: [deleteTable] and [getTable] *)

(** The errors of [StorageErrorFactory] that [deleteTable] and [getTable]
    throw. *)
Inductive RegistryError : Type :=
  | ResourceNotFound
  | TableNotFound.

(** [{ account, table }] as a query on the registry. *)
Definition isTable (account0 table0 : string) (t : Table) : bool :=
  String.eqb (account t) account0 && String.eqb (table t) table0.

(** [coll.remove(doc)] for the document [findOne] returned: the first record
    of the registry with this account and table. *)
Fixpoint removeTable (account0 table0 : string) (l : list Table) : list Table :=
  match l with
  | [] => []
  | t :: l' =>
      if isTable account0 table0 t then l' else t :: removeTable account0 table0 l'
  end.

Definition deleteTable (table0 account0 : string) (st : Store)
    : Store * result RegistryError unit :=
  match List.find (isTable account0 table0) (tables st) with
  | Some _ =>
      ({| tables := removeTable account0 table0 (tables st);
          collections := delete (getTableCollectionName account0 table0) (collections st);
          transactionRollbackTheseEntities := transactionRollbackTheseEntities st;
          transactionDeleteTheseEntities := transactionDeleteTheseEntities st |},
       Ok tt)
  | None => (st, Throw ResourceNotFound)
  end.

Definition getTable (account0 table0 : string) (st : Store)
    : Store * result RegistryError Table :=
  match List.find (isTable account0 table0) (tables st) with
  | Some doc => (st, Ok doc)
  | None => (st, Throw TableNotFound)
  end.

(** No two records of the registry have the same account and table. *)
Definition registryUnique (st : Store) : Prop :=
  NoDup ((fun t => (account t, table t)) <$> tables st).

(** ** Statement of the paging of an entity query *)

(** The whole answer of an entity query: the documents the compiled filter
    accepts, in the order of the comparison function. *)
Definition fullAnswer (queryWhere : Doc -> bool) (c : Loki.Collection) : list Doc :=
  sortWith compareKeys (List.filter queryWhere (Loki.data c)).

(** The continuation headers made from the document [tail]. *)
Definition continuationOf (base64Encode : string -> string) (tail : option Doc)
    : option string * option string :=
  ((fun d => base64Encode (PartitionKey (entity d))) <$> tail,
   (fun d => base64Encode (RowKey (entity d))) <$> tail).

(** The documents a cursor on the keys of [d] lets through. *)
Definition fromCursor (d x : Doc) : bool :=
  String.ltb (PartitionKey (entity d)) (PartitionKey (entity x))
  || (String.leb (RowKey (entity d)) (RowKey (entity x))
      && String.eqb (PartitionKey (entity x)) (PartitionKey (entity d))).

(** ** Service properties *)

Section Services.

(** The types of [cors], of the two metrics and of [logging] in
    [Models.TableServiceProperties], which is not among the sources. *)
Variables Cors Metrics Logging : Type.

(** [ServicePropertiesModel]; a field that is [undefined] is [None]. *)
Record ServicePropertiesModel := {
  accountName : string;
  cors : option Cors;
  hourMetrics : option Metrics;
  logging : option Logging;
  minuteMetrics : option Metrics
}.

(** [coll.by("accountName", account)] on the documents of the services
    collection. *)
Definition byAccountName (account0 : string) (coll : list ServicePropertiesModel)
    : option ServicePropertiesModel :=
  List.find (fun d => String.eqb (accountName d) account0) coll.

(** [given === undefined ? stored : given]. *)
Definition orStored {A} (given stored : option A) : option A :=
  match given with
  | None => stored
  | Some _ => given
  end.

(** [coll.update(doc)] for the document [by] returned, after the assignments
    made it [doc']. *)
Fixpoint updateService (doc' : ServicePropertiesModel)
    (coll : list ServicePropertiesModel) : list ServicePropertiesModel :=
  match coll with
  | [] => []
  | d :: coll' =>
      if String.eqb (accountName d) (accountName doc') then doc' :: coll'
      else d :: updateService doc' coll'
  end.

(** [this.db.getCollection(this.SERVICES_COLLECTION)] is [null] until [init]
    has added the collection: [services] is this value. *)
Definition getServiceProperties (account0 : string)
    (services : option (list ServicePropertiesModel)) : option ServicePropertiesModel :=
  match services with
  | Some coll => byAccountName account0 coll
  | None => None
  end.

(** [setServiceProperties] returns the new documents of the collection and the
    document stored, or throws the [TypeError] of [coll.by] on [null], which
    is [None] here. *)
Definition setServiceProperties (serviceProperties : ServicePropertiesModel)
    (services : option (list ServicePropertiesModel))
    : option (list ServicePropertiesModel * ServicePropertiesModel) :=
  match services with
  | None => None
  | Some coll =>
      match byAccountName (accountName serviceProperties) coll with
      | Some doc =>
          let doc' :=
            {| accountName := accountName doc;
               cors := orStored (cors serviceProperties) (cors doc);
               hourMetrics := orStored (hourMetrics serviceProperties) (hourMetrics doc);
               logging := orStored (logging serviceProperties) (logging doc);
               minuteMetrics :=
                 orStored (minuteMetrics serviceProperties) (minuteMetrics doc) |} in
          Some (updateService doc' coll, doc')
      | None => Some (coll ++ [serviceProperties], serviceProperties)
      end
  end.

(** The unique index on [accountName]. *)
Definition accountsUnique (coll : list ServicePropertiesModel) : Prop :=
  NoDup (accountName <$> coll).

End Services.

Arguments accountName {Cors Metrics Logging} _.
Arguments cors {Cors Metrics Logging} _.
Arguments hourMetrics {Cors Metrics Logging} _.
Arguments logging {Cors Metrics Logging} _.
Arguments minuteMetrics {Cors Metrics Logging} _.
Arguments byAccountName {Cors Metrics Logging} _ _.
Arguments updateService {Cors Metrics Logging} _ _.
Arguments getServiceProperties {Cors Metrics Logging} _ _.
Arguments setServiceProperties {Cors Metrics Logging} _ _.
Arguments accountsUnique {Cors Metrics Logging} _.

Local Open Scope Z_scope.

(** ** Proof automation *)

(** Runs the monadic plumbing of an operation. *)
Ltac run_op :=
  unfold mbind, mret, Op_bind, Op_ret, getStore, modify, throw; cbn beta iota.

(** * Properties

    ** ETag encoding *)

Lemma substring_all (s : string) : String.substring 0 (String.length s) s = s.
Proof. induction s as [|c s IH]; simpl; [done | by rewrite IH]. Qed.

Lemma substring_tail (c : ascii) (s : string) :
  String.substring 1 (String.length s) (String c s) = s.
Proof. simpl. apply substring_all. Qed.

Lemma substringFrom_1 (c : ascii) (s : string) : substringFrom (String c s) 1 = s.
Proof.
  unfold substringFrom, substring, clamp, strlen. cbn [String.length].
  replace (Z.to_nat (Z.max 0 (Z.min 1 (Z.of_nat (S (String.length s)))))) with 1%nat by lia.
  replace (Z.to_nat (Z.max 0 (Z.min (Z.of_nat (S (String.length s)))
                                     (Z.of_nat (S (String.length s))))))
    with (S (String.length s)) by lia.
  replace (Nat.min 1 (S (String.length s))) with 1%nat by lia.
  replace (Nat.max 1 (S (String.length s)) - 1)%nat with (String.length s) by lia.
  apply substring_tail.
Qed.

Lemma replaceFirst_colon_cons (rep : string) (d : ascii) (s : string) :
  replaceFirst ":" rep (String d s) =
  if Ascii.eqb ":" d then rep +:+ s else String d (replaceFirst ":" rep s).
Proof.
  cbn [replaceFirst String.prefix].
  destruct (ascii_dec ":" d) as [<-|Hne].
  - simpl. replace (String.prefix "" s) with true by (by destruct s).
    change (strlen ":") with 1. by rewrite substringFrom_1.
  - rewrite (proj2 (Ascii.eqb_neq _ _) Hne). done.
Qed.

Lemma replaceFirst_colon_nil (rep : string) : replaceFirst ":" rep "" = "".
Proof. reflexivity. Qed.

Lemma replaceFirst_colon_spec (rep s : string) :
  replaceFirst ":" rep s = replaceFirstN 1 ":" rep s.
Proof.
  induction s as [|d s IH]; [done|].
  rewrite replaceFirst_colon_cons. cbn [replaceFirstN].
  destruct (Ascii.eqb ":" d); [by destruct s | by rewrite IH].
Qed.

Lemma encodeColons_spec (s : string) : encodeColons s = urlencodeColons s.
Proof.
  unfold encodeColons, urlencodeColons.
  rewrite !replaceFirst_colon_spec.
  induction s as [|d s IH]; [done|].
  cbn [replaceFirstN].
  destruct (Ascii.eqb ":" d) eqn:E.
  - change ("%3A" +:+ replaceFirstN 0 ":" "%3A" s)
      with (String "%" (String "3" (String "A" (replaceFirstN 0 ":" "%3A" s)))).
    cbn. by destruct s.
  - cbn [replaceFirstN]. rewrite E. by rewrite IH.
Qed.

(** ** The ETag check of update and merge *)

Lemma replaceFirstN_empty (n : nat) (c : ascii) (s : string) :
  replaceFirstN n c "%3A" s = "" -> s = "".
Proof.
  destruct n, s as [|d s]; cbn [replaceFirstN]; try done.
  destruct (Ascii.eqb c d); done.
Qed.

Lemma urlencodeColons_star (m : string) : urlencodeColons m = "*" -> m = "*".
Proof.
  unfold urlencodeColons. destruct m as [|d m]; [done|].
  cbn [replaceFirstN]. destruct (Ascii.eqb ":" d) eqn:E; [done|].
  intros H. injection H as -> H. by rewrite (replaceFirstN_empty _ _ _ H).
Qed.

Lemma eqb_string_true (a b : string) : String.eqb a b = true <-> a = b.
Proof. apply String.eqb_eq. Qed.

Lemma etagMatches_bypass (stored : string) (ifMatch : option string) :
  ifMatch = None \/ ifMatch = Some "*" -> etagMatches stored ifMatch = true.
Proof. intros [-> | ->]; reflexivity. Qed.

Lemma etagMatches_checked (stored m : string) :
  m <> "*" ->
  etagMatches stored (Some m) = true <-> urlencodeColons stored = urlencodeColons m.
Proof.
  intros Hm. unfold etagMatches. cbn [fmap option_fmap option_map].
  rewrite orb_true_iff, !String.eqb_eq, !encodeColons_spec.
  split; [|by right].
  intros [H|H]; [|done]. by apply urlencodeColons_star in H.
Qed.

Lemma getEntityCollection_found (acc tbl : string) (st : Store) (coll : Loki.Collection) :
  hasTable acc tbl st = true ->
  collections st !! getTableCollectionName acc tbl = Some coll ->
  getEntityCollection acc tbl st = (st, Ok coll).
Proof. intros Ht Hc. unfold getEntityCollection. run_op. by rewrite Ht, Hc. Qed.

Section EntityProofs.
Variable getTimestampString : Z -> string.

Lemma updateTableEntity_run (st : Store) (tbl acc : string) (e : Entity)
    (ifMatch batchId : option string) (coll : Loki.Collection) (doc : Doc) :
  hasTable acc tbl st = true ->
  collections st !! getTableCollectionName acc tbl = Some coll ->
  Loki.findOne (PartitionKey e) (RowKey e) coll = Some doc ->
  updateTableEntity getTimestampString tbl acc e ifMatch batchId st =
  if etagMatches (eTag (entity doc)) ifMatch then
    (setCollection (getTableCollectionName acc tbl)
       (Loki.insert (stampTimestamp getTimestampString e) (Loki.remove doc coll)).1
       (afterLogging batchId doc st),
     Ok (Loki.insert (stampTimestamp getTimestampString e) (Loki.remove doc coll)).2)
  else (afterLogging batchId doc st, Throw PreconditionFailed).
Proof.
  intros Ht Hc Hf. unfold updateTableEntity, afterLogging.
  unfold mbind at 1, Op_bind at 1. rewrite (getEntityCollection_found _ _ _ _ Ht Hc).
  cbn beta iota. rewrite Hf.
  destruct (notEmptyString batchId), (etagMatches (eTag (entity doc)) ifMatch); reflexivity.
Qed.

Lemma mergeTableEntity_run (st : Store) (tbl acc : string) (e : Entity)
    (ifMatch batchId : option string) (coll : Loki.Collection) (doc : Doc) :
  hasTable acc tbl st = true ->
  collections st !! getTableCollectionName acc tbl = Some coll ->
  Loki.findOne (PartitionKey e) (RowKey e) coll = Some doc ->
  mergeTableEntity tbl acc e ifMatch batchId st =
  if etagMatches (eTag (entity doc)) ifMatch then
    (setCollection (getTableCollectionName acc tbl) (Loki.update (mergedDEntity doc e) coll)
       (afterLogging batchId doc st),
     Ok (mergedDEntity doc e))
  else (afterLogging batchId doc st, Throw PreconditionFailed).
Proof.
  intros Ht Hc Hf. unfold mergeTableEntity, afterLogging.
  unfold mbind at 1, Op_bind at 1. rewrite (getEntityCollection_found _ _ _ _ Ht Hc).
  cbn beta iota. rewrite Hf.
  destruct (notEmptyString batchId), (etagMatches (eTag (entity doc)) ifMatch); reflexivity.
Qed.

(** C1.  Update and merge of an existing entity, with [ifMatch] given and not
    ["*"]: the operation succeeds exactly when the stored ETag and [ifMatch]
    are equal once the first two colons of each are replaced by [%3A], and it
    throws [PreconditionFailed] otherwise.  With [ifMatch] undefined or ["*"]
    the check is bypassed and the operation succeeds. *)
Theorem etag_check_update_merge (st : Store) (tbl acc : string) (e : Entity)
    (ifMatch batchId : option string) (coll : Loki.Collection) (doc : Doc) :
  hasTable acc tbl st = true ->
  collections st !! getTableCollectionName acc tbl = Some coll ->
  Loki.findOne (PartitionKey e) (RowKey e) coll = Some doc ->
  let upd := updateTableEntity getTimestampString tbl acc e ifMatch batchId st in
  let mrg := mergeTableEntity tbl acc e ifMatch batchId st in
  (forall m, ifMatch = Some m -> m <> "*" ->
     (succeeds upd <-> urlencodeColons (eTag (entity doc)) = urlencodeColons m)
     /\ (succeeds mrg <-> urlencodeColons (eTag (entity doc)) = urlencodeColons m)
     /\ (urlencodeColons (eTag (entity doc)) <> urlencodeColons m ->
         upd.2 = Throw PreconditionFailed /\ mrg.2 = Throw PreconditionFailed))
  /\ (ifMatch = None \/ ifMatch = Some "*" -> succeeds upd /\ succeeds mrg).
Proof.
  intros Ht Hc Hf upd mrg. subst upd mrg.
  rewrite (updateTableEntity_run _ _ _ _ _ _ _ _ Ht Hc Hf).
  rewrite (mergeTableEntity_run _ _ _ _ _ _ _ _ Ht Hc Hf).
  split.
  - intros m -> Hm.
    pose proof (etagMatches_checked (eTag (entity doc)) m Hm) as Hiff.
    destruct (etagMatches (eTag (entity doc)) (Some m)) eqn:E.
    + assert (Heq := proj1 Hiff eq_refl).
      repeat split; try done; try (intros _; eexists; reflexivity).
    + assert (Hne : urlencodeColons (eTag (entity doc)) <> urlencodeColons m).
      { intros Heq. apply Hiff in Heq. discriminate. }
      repeat split; try done; try (by intros [a Ha]).
  - intros Hby. rewrite (etagMatches_bypass _ _ Hby).
    split; eexists; reflexivity.
Qed.

End EntityProofs.

(** ** The undo logs and the ETag check *)

Lemma beginBatchTransaction_run (batchId : string) (st : Store) :
  beginBatchTransaction batchId st =
  match transactionRollbackTheseEntities st, transactionDeleteTheseEntities st with
  | [], [] => (st, Ok tt)
  | _, _ => (st, Throw TransactionOverlap)
  end.
Proof.
  unfold beginBatchTransaction. run_op.
  destruct (transactionRollbackTheseEntities st), (transactionDeleteTheseEntities st);
    reflexivity.
Qed.

Section UndoLogProofs.
Variable getTimestampString : Z -> string.

(** C10.  Update and merge of an existing entity append the stored pre-image
    to the rollback log whenever [batchId] is not the empty string, [undefined]
    included, and they do so before the ETag is tested: a call that then throws
    [PreconditionFailed] leaves the pre-image in the log and the rest of the
    store as it was. *)
Theorem preimage_logged_before_etag_check (st : Store) (tbl acc : string) (e : Entity)
    (ifMatch batchId : option string) (coll : Loki.Collection) (doc : Doc) :
  hasTable acc tbl st = true ->
  collections st !! getTableCollectionName acc tbl = Some coll ->
  Loki.findOne (PartitionKey e) (RowKey e) coll = Some doc ->
  batchId <> Some "" ->
  let upd := updateTableEntity getTimestampString tbl acc e ifMatch batchId st in
  let mrg := mergeTableEntity tbl acc e ifMatch batchId st in
  transactionRollbackTheseEntities upd.1 = transactionRollbackTheseEntities st ++ [doc]
  /\ transactionRollbackTheseEntities mrg.1 = transactionRollbackTheseEntities st ++ [doc]
  /\ (etagMatches (eTag (entity doc)) ifMatch = false ->
      upd = (pushRollback doc st, Throw PreconditionFailed)
      /\ mrg = (pushRollback doc st, Throw PreconditionFailed)).
Proof.
  intros Ht Hc Hf Hb upd mrg. subst upd mrg.
  rewrite (updateTableEntity_run _ _ _ _ _ _ _ _ _ Ht Hc Hf).
  rewrite (mergeTableEntity_run _ _ _ _ _ _ _ _ Ht Hc Hf).
  assert (Hlog : notEmptyString batchId = true).
  { destruct batchId as [b|]; [|done]. cbn. destruct (String.eqb_spec b ""); [by subst|done]. }
  unfold afterLogging. rewrite Hlog.
  destruct (etagMatches (eTag (entity doc)) ifMatch); cbn; repeat split; done.
Qed.

End UndoLogProofs.

Local Close Scope Z_scope.

(** ** Collections *)

(** Facts about the collection model *)

Lemma hasKeys_keysOf (pk rk : string) (d : Doc) :
  Loki.hasKeys pk rk d = true <-> keysOf d = (pk, rk).
Proof.
  unfold Loki.hasKeys, keysOf. rewrite andb_true_iff, !String.eqb_eq.
  split; [by intros [-> ->] | by intros [= -> ->]].
Qed.

Lemma findOne_Some (pk rk : string) (c : Loki.Collection) (d : Doc) :
  Loki.findOne pk rk c = Some d -> d ∈ Loki.data c /\ keysOf d = (pk, rk).
Proof.
  unfold Loki.findOne. intros H. apply find_some in H as [Hin Hk].
  split; [by apply list_elem_of_In | by apply hasKeys_keysOf].
Qed.

Lemma findOne_None (pk rk : string) (c : Loki.Collection) :
  Loki.findOne pk rk c = None <-> forall d, d ∈ Loki.data c -> keysOf d <> (pk, rk).
Proof.
  unfold Loki.findOne. split.
  - intros H d Hin Hk. apply list_elem_of_In in Hin.
    pose proof (find_none _ _ H d Hin) as Hn.
    apply hasKeys_keysOf in Hk. congruence.
  - intros H. destruct (find _ _) as [d|] eqn:E; [|done].
    apply find_some in E as [Hin Hk]. apply list_elem_of_In in Hin.
    apply hasKeys_keysOf in Hk. by destruct (H d Hin).
Qed.

(** With unique keys, a document of the collection is the one found under its
    keys. *)
Lemma findOne_unique (pk rk : string) (c : Loki.Collection) (d : Doc) :
  uniqueKeys c -> d ∈ Loki.data c -> keysOf d = (pk, rk) ->
  Loki.findOne pk rk c = Some d.
Proof.
  intros Hk Hd Hkeys.
  destruct (Loki.findOne pk rk c) as [d'|] eqn:E.
  - apply findOne_Some in E as [Hd' Hkeys']. f_equal.
    apply list_elem_of_lookup in Hd as [i Hi]. apply list_elem_of_lookup in Hd' as [j Hj].
    assert (i = j) as ->.
    { apply (NoDup_lookup (keysOf <$> Loki.data c) i j (pk, rk) Hk);
        rewrite list_lookup_fmap; [by rewrite Hi; cbn; rewrite Hkeys
                                  |by rewrite Hj; cbn; rewrite Hkeys']. }
    congruence.
  - exfalso. by apply (proj1 (findOne_None pk rk c) E d).
Qed.

Lemma elem_of_removeId (id : nat) (l : list Doc) (x : Doc) :
  x ∈ Loki.removeId id l -> x ∈ l.
Proof.
  induction l as [|d l IH]; cbn; [done|].
  destruct (Nat.eqb (loki d) id); rewrite ?elem_of_cons; intuition auto.
Qed.

Lemma removeId_other (id : nat) (l : list Doc) (x : Doc) :
  x ∈ l -> loki x <> id -> x ∈ Loki.removeId id l.
Proof.
  induction l as [|d l IH]; cbn; [done|].
  rewrite elem_of_cons. intros [->|Hin] Hne.
  - destruct (Nat.eqb_spec (loki d) id); [done | by left].
  - destruct (Nat.eqb (loki d) id); [done | right; auto].
Qed.

Lemma removeId_gone (id : nat) (l : list Doc) (x : Doc) :
  NoDup (loki <$> l) -> x ∈ Loki.removeId id l -> loki x <> id.
Proof.
  induction l as [|d l IH]; cbn; [by intros _ ?%elem_of_nil|].
  rewrite NoDup_cons. intros [Hd Hnd].
  destruct (Nat.eqb_spec (loki d) id) as [<-|Hne].
  - intros Hin Heq. apply Hd. rewrite <- Heq. by apply list_elem_of_fmap_2.
  - rewrite elem_of_cons. intros [->|Hin]; auto.
Qed.

Lemma removeId_sublist (id : nat) (l : list Doc) : Loki.removeId id l `sublist_of` l.
Proof.
  induction l as [|d l IH]; cbn; [done|].
  destruct (Nat.eqb (loki d) id); [by apply sublist_cons | by apply sublist_skip].
Qed.

Lemma removeId_absent (id : nat) (l : list Doc) :
  (forall x, x ∈ l -> loki x <> id) -> Loki.removeId id l = l.
Proof.
  induction l as [|d l IH]; cbn; [done|]. intros H.
  destruct (Nat.eqb_spec (loki d) id) as [Heq|Hne].
  - destruct (H d); [by left | done].
  - f_equal. apply IH. intros x Hx. apply H. by right.
Qed.

Lemma remove_uniqueIds (d : Doc) (c : Loki.Collection) :
  uniqueIds c -> uniqueIds (Loki.remove d c).
Proof.
  intros [Hnd Hmax]. split; cbn.
  - eapply sublist_NoDup; [done|]. apply fmap_sublist, removeId_sublist.
  - rewrite Forall_forall in Hmax |- *. intros x Hx. apply Hmax.
    by eapply elem_of_removeId.
Qed.

Lemma remove_uniqueKeys (d : Doc) (c : Loki.Collection) :
  uniqueKeys c -> uniqueKeys (Loki.remove d c).
Proof.
  unfold uniqueKeys. intros Hnd. cbn.
  eapply sublist_NoDup; [done|]. apply fmap_sublist, removeId_sublist.
Qed.

(** [remove] takes out the document with the identifier of its argument and
    nothing else. *)
Lemma remove_spec (d : Doc) (c : Loki.Collection) (x : Doc) :
  uniqueIds c ->
  x ∈ Loki.data (Loki.remove d c) <-> x ∈ Loki.data c /\ loki x <> loki d.
Proof.
  intros [Hnd _]. cbn. split.
  - intros H. split; [by eapply elem_of_removeId | by eapply removeId_gone].
  - intros [H1 H2]. by apply removeId_other.
Qed.

Lemma insert_uniqueIds (e : Entity) (c : Loki.Collection) :
  uniqueIds c -> uniqueIds (Loki.insert e c).1.
Proof.
  intros [Hnd Hmax]. split; cbn.
  - rewrite fmap_app. apply NoDup_app. split_and!; [done| |apply NoDup_singleton].
    intros i Hi. cbn. rewrite list_elem_of_singleton. intros ->.
    apply list_elem_of_fmap in Hi as (x & Hx & Hin).
    rewrite Forall_forall in Hmax. specialize (Hmax x Hin). lia.
  - apply Forall_app. split.
    + eapply Forall_impl; [done|]. cbn. lia.
    + apply Forall_singleton. cbn. lia.
Qed.

Lemma insert_uniqueKeys (e : Entity) (c : Loki.Collection) :
  uniqueKeys c ->
  (forall d, d ∈ Loki.data c -> keysOf d <> (PartitionKey e, RowKey e)) ->
  uniqueKeys (Loki.insert e c).1.
Proof.
  unfold uniqueKeys. intros Hnd Hfresh. cbn.
  rewrite fmap_app. apply NoDup_app. split_and!; [done| |apply NoDup_singleton].
  intros k Hk. cbn. rewrite list_elem_of_singleton. intros ->.
  apply list_elem_of_fmap in Hk as (x & Hx & Hin). by apply (Hfresh x).
Qed.

(** Under (I2), removing the document that [findOne] returns leaves no
    document with its keys. *)
Lemma remove_found_keys (pk rk : string) (c : Loki.Collection) (doc : Doc) :
  uniqueIds c -> uniqueKeys c ->
  Loki.findOne pk rk c = Some doc ->
  forall x, x ∈ Loki.data (Loki.remove doc c) -> keysOf x <> (pk, rk).
Proof.
  intros Hid Hk Hf x Hx Hkx.
  apply findOne_Some in Hf as [Hin Hkd].
  apply remove_spec in Hx as [Hxin Hne]; [|done].
  assert (x = doc); [|by subst].
  unfold uniqueKeys in Hk.
  apply list_elem_of_lookup in Hxin as [i Hi], Hin as [j Hj].
  assert (i = j); [|congruence].
  eapply (NoDup_lookup _ i j (keysOf x) Hk).
  - by rewrite list_lookup_fmap, Hi.
  - rewrite list_lookup_fmap, Hj. cbn. congruence.
Qed.

(** ** The two loops of the rollback *)

Lemma find_snoc_last {A} (f : A -> bool) (l : list A) (x : A) :
  (forall y, y ∈ l -> f y = false) -> f x = true -> List.find f (l ++ [x]) = Some x.
Proof.
  induction l as [|y l IH]; cbn; intros Hl Hx; [by rewrite Hx|].
  rewrite (Hl y) by (by left). apply IH; [|done]. intros z Hz. apply Hl. by right.
Qed.

Lemma find_snoc_other {A} (f : A -> bool) (l : list A) (x : A) :
  f x = false -> List.find f (l ++ [x]) = List.find f l.
Proof.
  induction l as [|y l IH]; cbn; intros Hx; [by rewrite Hx|].
  destruct (f y); [done | by apply IH].
Qed.

Lemma find_removeId_other (f : Doc -> bool) (id : nat) (l : list Doc) :
  (forall y, y ∈ l -> loki y = id -> f y = false) ->
  List.find f (Loki.removeId id l) = List.find f l.
Proof.
  induction l as [|y l IH]; cbn; intros H; [done|].
  destruct (Nat.eqb_spec (loki y) id) as [Heq|Hne].
  - by rewrite (H y) by (by left || done).
  - cbn. destruct (f y); [done|]. apply IH. intros z Hz. apply H. by right.
Qed.

Lemma copied_entity (e : Entity) :
  {| PartitionKey := PartitionKey e; RowKey := RowKey e; properties := properties e;
     lastModifiedTime := lastModifiedTime e; eTag := eTag e |} = e.
Proof. by destruct e. Qed.

Lemma same_id_same_doc (c : Loki.Collection) (x y : Doc) :
  uniqueIds c -> x ∈ Loki.data c -> y ∈ Loki.data c -> loki x = loki y -> x = y.
Proof.
  intros [Hnd _] Hx Hy Heq.
  apply list_elem_of_lookup in Hx as [i Hi], Hy as [j Hj].
  assert (i = j); [|congruence].
  eapply (NoDup_lookup _ i j (loki x) Hnd).
  - by rewrite list_lookup_fmap, Hi.
  - rewrite list_lookup_fmap, Hj. cbn. congruence.
Qed.

(** One step of the first rollback loop: the current document with the keys
    of the pre-image is gone, every other document stays, and a copy of the
    pre-image is the document found under its keys. *)
Lemma restorePreImage_spec (c : Loki.Collection) (p : Doc) :
  uniqueIds c -> uniqueKeys c ->
  Loki.findOne (PartitionKey (entity p)) (RowKey (entity p)) (restorePreImage c p)
    = Some {| loki := S (Loki.maxId c); entity := entity p |}
  /\ (forall x, x ∈ Loki.data (restorePreImage c p) <->
                (x ∈ Loki.data c /\ keysOf x <> keysOf p)
                \/ x = {| loki := S (Loki.maxId c); entity := entity p |})
  /\ uniqueIds (restorePreImage c p) /\ uniqueKeys (restorePreImage c p)
  /\ Loki.maxId (restorePreImage c p) = S (Loki.maxId c).
Proof.
  intros Hid Hk. unfold restorePreImage.
  rewrite copied_entity.
  set (c1 := match Loki.findOne _ _ c with Some doc => Loki.remove doc c | None => c end).
  assert (H1 : uniqueIds c1 /\ uniqueKeys c1 /\ Loki.maxId c1 = Loki.maxId c
               /\ forall x, x ∈ Loki.data c1 <-> x ∈ Loki.data c /\ keysOf x <> keysOf p).
  { subst c1. destruct (Loki.findOne _ _ c) as [doc|] eqn:Hf.
    - split_and!; [by apply remove_uniqueIds | by apply remove_uniqueKeys | done |].
      intros x. rewrite remove_spec by done.
      pose proof (findOne_Some _ _ _ _ Hf) as [Hdin Hdk].
      split; intros [Hx Hne]; (split; [done|]).
      + eapply remove_found_keys; [done..|]. by apply remove_spec.
      + intros Heq. apply Hne. rewrite (same_id_same_doc c x doc); done.
    - split_and!; [done..|]. intros x. split; [|by intros [? _]].
      intros Hx. split; [done|]. rewrite findOne_None in Hf. by apply Hf. }
  destruct H1 as (Hid1 & Hk1 & Hmax1 & Hmem1).
  assert (Hfresh : forall d, d ∈ Loki.data c1 ->
                     keysOf d <> (PartitionKey (entity p), RowKey (entity p))).
  { intros d Hd. by apply Hmem1. }
  split_and!.
  - unfold Loki.findOne. cbn. rewrite Hmax1. apply find_snoc_last.
    + intros y Hy. destruct (Loki.hasKeys _ _ y) eqn:E; [|done].
      apply hasKeys_keysOf in E. by destruct (Hfresh y).
    + by apply hasKeys_keysOf.
  - intros x. cbn. rewrite elem_of_app, list_elem_of_singleton, Hmem1, Hmax1. done.
  - by apply insert_uniqueIds.
  - by apply insert_uniqueKeys.
  - cbn. by rewrite Hmax1.
Qed.

(** A step of the first loop leaves the lookup of any other keys as it was. *)
Lemma findOne_restore_other (pk rk : string) (c : Loki.Collection) (p : Doc) :
  uniqueIds c -> keysOf p <> (pk, rk) ->
  Loki.findOne pk rk (restorePreImage c p) = Loki.findOne pk rk c.
Proof.
  intros Hid Hne. unfold restorePreImage. rewrite copied_entity.
  unfold Loki.findOne at 1. cbn [Loki.insert fst Loki.data].
  rewrite find_snoc_other.
  2:{ destruct (Loki.hasKeys pk rk _) eqn:E; [|done]. apply hasKeys_keysOf in E. done. }
  destruct (Loki.findOne (PartitionKey (entity p)) (RowKey (entity p)) c) as [doc|] eqn:Hf;
    [|done].
  cbn. apply find_removeId_other. intros y Hy Hyid.
  apply findOne_Some in Hf as [Hdin Hdk].
  rewrite (same_id_same_doc c y doc) by done.
  destruct (Loki.hasKeys pk rk doc) eqn:E; [|done].
  apply hasKeys_keysOf in E. unfold keysOf in *. congruence.
Qed.

(** The first rollback loop as a whole. *)
Lemma restore_loop_spec (rollbackThese : list Doc) (c : Loki.Collection) :
  uniqueIds c -> uniqueKeys c ->
  uniqueIds (foldl restorePreImage c rollbackThese)
  /\ uniqueKeys (foldl restorePreImage c rollbackThese)
  /\ (Loki.maxId c <= Loki.maxId (foldl restorePreImage c rollbackThese))%nat
  /\ (forall pk rk p,
        last (List.filter (Loki.hasKeys pk rk) rollbackThese) = Some p ->
        exists d, Loki.findOne pk rk (foldl restorePreImage c rollbackThese) = Some d
                  /\ entity d = entity p /\ (Loki.maxId c < loki d)%nat)
  /\ (forall x, x ∈ Loki.data (foldl restorePreImage c rollbackThese) <->
        (x ∈ Loki.data c /\ keysOf x ∉ keysOf <$> rollbackThese)
        \/ ((Loki.maxId c < loki x)%nat /\ keysOf x ∈ keysOf <$> rollbackThese
            /\ x ∈ Loki.data (foldl restorePreImage c rollbackThese))).
Proof.
  intros Hid Hk. induction rollbackThese as [|p rb IH] using rev_ind.
  - cbn. split_and!; [done..| |].
    + intros pk rk p ?; discriminate.
    + intros x. split; [intros Hx; left; split; [done|apply not_elem_of_nil] | ].
      intros [[? _]|(_ & _ & ?)]; done.
  - rewrite foldl_app. cbn [foldl]. destruct IH as (Hid' & Hk' & Hmax' & Hlast & Hmem).
    set (c' := foldl restorePreImage c rb) in *.
    destruct (restorePreImage_spec c' p Hid' Hk') as (Hf & Hm & Hid2 & Hk2 & Hmax2).
    split_and!; [done | done | lia | |].
    + intros pk rk q. rewrite List.filter_app, last_app. cbn [List.filter].
      destruct (Loki.hasKeys pk rk p) eqn:E; cbn [last].
      * intros [= <-]. apply hasKeys_keysOf in E. injection E as <- <-.
        eexists. split; [done|]. split; [done|]. cbn. lia.
      * intros Hq. destruct (Hlast pk rk q Hq) as (d & Hd & He & Hl).
        exists d. split; [|done].
        rewrite findOne_restore_other; [done..|].
        intros Heq. apply hasKeys_keysOf in Heq. congruence.
    + intros x. rewrite Hm, fmap_app, not_elem_of_app, elem_of_app. cbn [fmap list_fmap].
      rewrite !list_elem_of_singleton. split.
      * intros [[Hx Hne]| ->].
        -- apply Hmem in Hx as [[Hx Hnk]|(Hl & Hkin & Hx)].
           ++ left. split_and!; [done..|]. congruence.
           ++ right. split_and!; [done | by left | by left].
        -- right. split_and!; [cbn; lia | by right | by right].
      * intros [(Hx & Hnk & Hne)|(Hl & Hkin & [[Hx Hne]| ->])].
        -- left. split; [|congruence]. apply Hmem. by left.
        -- left. done.
        -- by right.
Qed.

(** The removals of the second rollback loop, all done: exactly the documents
    that carry the identifier of a logged entity are taken out. *)
Lemma delete_loop_spec (deleteThese : list Doc) (c : Loki.Collection) :
  uniqueIds c ->
  uniqueIds (foldl (fun c deleteRow => Loki.remove deleteRow c) c deleteThese)
  /\ Loki.maxId (foldl (fun c deleteRow => Loki.remove deleteRow c) c deleteThese)
     = Loki.maxId c
  /\ (uniqueKeys c ->
      uniqueKeys (foldl (fun c deleteRow => Loki.remove deleteRow c) c deleteThese))
  /\ (forall x,
        x ∈ Loki.data (foldl (fun c deleteRow => Loki.remove deleteRow c) c deleteThese)
        <-> x ∈ Loki.data c /\ loki x ∉ loki <$> deleteThese).
Proof.
  revert c. induction deleteThese as [|d del IH]; cbn; intros c Hid.
  - split_and!; [done..|]. intros x. split; [|by intros [? _]].
    intros Hx. split; [done | apply not_elem_of_nil].
  - destruct (IH (Loki.remove d c) (remove_uniqueIds d c Hid)) as (H1 & H2 & H3 & H4).
    split_and!; [done | done | |].
    + intros Hk. by apply H3, remove_uniqueKeys.
    + intros x. rewrite H4, remove_spec, not_elem_of_cons by done. tauto.
Qed.

(** ** End of a batch, and delete *)

Lemma holdsId_elem (id : nat) (c : Loki.Collection) :
  Loki.holdsId id c = true <-> id ∈ loki <$> Loki.data c.
Proof.
  unfold Loki.holdsId. rewrite existsb_exists, list_elem_of_fmap. split.
  - intros (d & Hd & Hid). apply Nat.eqb_eq in Hid. exists d.
    split; [done | by apply list_elem_of_In].
  - intros (d & -> & Hd). exists d. split; [by apply list_elem_of_In | apply Nat.eqb_refl].
Qed.

(** The identifiers a collection holds once [remove] has taken one out. *)
Lemma remove_ids (d : Doc) (c : Loki.Collection) (id : nat) :
  uniqueIds c ->
  id ∈ loki <$> Loki.data (Loki.remove d c)
  <-> id ∈ loki <$> Loki.data c /\ id <> loki d.
Proof.
  intros Hid. rewrite !list_elem_of_fmap. split.
  - intros (x & -> & Hx). apply remove_spec in Hx as [Hx Hne]; [|done].
    split; [by exists x | done].
  - intros [(x & -> & Hx) Hne]. exists x. split; [done|]. by apply remove_spec.
Qed.

(** The second loop, run to its end, is the fold of [remove]. *)
Lemma removeInserted_completed (deleteThese : list Doc) (c : Loki.Collection) :
  (removeInserted deleteThese c).2 = true ->
  (removeInserted deleteThese c).1
  = foldl (fun c deleteRow => Loki.remove deleteRow c) c deleteThese.
Proof.
  revert c. induction deleteThese as [|d del IH]; intros c; cbn; [done|].
  destruct (Loki.removeKept d c) as [c'|] eqn:E; [|done].
  unfold Loki.removeKept in E. destruct (Loki.holdsId (loki d) c); [|done].
  injection E as <-. apply IH.
Qed.


(** In a collection with unique identifiers the second loop reaches the end
    exactly when the entries of the log carry distinct identifiers that the
    collection holds. *)
Lemma removeInserted_completes (deleteThese : list Doc) (c : Loki.Collection) :
  uniqueIds c ->
  (removeInserted deleteThese c).2 = true
  <-> NoDup (loki <$> deleteThese)
      /\ forall d, d ∈ deleteThese -> loki d ∈ loki <$> Loki.data c.
Proof.
  revert c. induction deleteThese as [|d del IH]; intros c Hid; cbn.
  - split; [|done]. intros _. split; [apply NoDup_nil_2|].
    intros d Hd. by apply elem_of_nil in Hd.
  - unfold Loki.removeKept. destruct (Loki.holdsId (loki d) c) eqn:E.
    + apply holdsId_elem in E. rewrite (IH _ (remove_uniqueIds d c Hid)), NoDup_cons.
      split.
      * intros [Hnd Hall]. split_and!; [|done|].
        -- intros Hin. apply list_elem_of_fmap in Hin as (x & Hx & Hxin).
           apply Hall, remove_ids in Hxin as [_ Hne]; done.
        -- intros x [->|Hx]%elem_of_cons; [done|].
           by apply Hall, remove_ids in Hx as [? _].
      * intros [[Hd Hnd] Hall]. split; [done|]. intros x Hx.
        apply remove_ids; [done|]. split; [apply Hall; by right|].
        intros Heq. apply Hd. rewrite <- Heq. apply list_elem_of_fmap. by exists x.
    + split; [done|]. intros [_ Hall].
      assert (Hin : loki d ∈ loki <$> Loki.data c) by (apply Hall; by left).
      apply holdsId_elem in Hin. congruence.
Qed.

Lemma endBatchTransaction_run (acc tbl batchId : string) (succeeded : bool) (st : Store) :
  endBatchTransaction acc tbl batchId succeeded st =
  if succeeded then (resetTrackers st, Ok tt)
  else
    match collections st !! getTableCollectionName acc tbl with
    | Some c =>
        let loop :=
          removeInserted (transactionDeleteTheseEntities st)
            (foldl restorePreImage c (transactionRollbackTheseEntities st)) in
        if loop.2
        then (resetTrackers (setCollection (getTableCollectionName acc tbl) loop.1 st),
              Ok tt)
        else (setCollection (getTableCollectionName acc tbl) loop.1 st,
              Throw NotADocument)
    | None => (resetTrackers st, Ok tt)
    end.
Proof.
  unfold endBatchTransaction. run_op.
  destruct succeeded; cbn; [done|].
  destruct (collections st !! getTableCollectionName acc tbl) as [c|]; [|reflexivity].
  destruct (removeInserted _ _) as [final [|]]; reflexivity.
Qed.


Section DeleteProof.

Lemma deleteTableEntity_run (st : Store) (tbl acc : string) (pk rk : option string)
    (etag batchId : string) (coll : Loki.Collection) :
  hasTable acc tbl st = true ->
  collections st !! getTableCollectionName acc tbl = Some coll ->
  deleteTableEntity tbl acc pk rk etag batchId st =
  match pk, rk with
  | Some p, Some k =>
      match Loki.findOne p k coll with
      | None => (st, Throw EntityNotFound)
      | Some doc =>
          if negb (String.eqb etag "*") && negb (String.eqb (eTag (entity doc)) etag)
          then (st, Throw PreconditionFailed)
          else (setCollection (getTableCollectionName acc tbl) (Loki.remove doc coll)
                  (if negb (String.eqb batchId "") then pushRollback doc st else st),
                Ok tt)
      end
  | _, _ => (st, Throw PropertiesNeedValue)
  end.
Proof.
  intros Ht Hc. unfold deleteTableEntity.
  unfold mbind at 1, Op_bind at 1. rewrite (getEntityCollection_found _ _ _ _ Ht Hc).
  cbn beta iota. destruct pk as [p|], rk as [k|]; try reflexivity.
  destruct (Loki.findOne p k coll) as [doc|]; [|reflexivity].
  destruct (negb (String.eqb etag "*") && _); [reflexivity|].
  destruct (negb (String.eqb batchId "")); reflexivity.
Qed.

(** C6.  [deleteTableEntity] on an existing table throws
    [PropertiesNeedValue] when [partitionKey] or [rowKey] is undefined,
    [EntityNotFound] when no document has these keys, and [PreconditionFailed]
    when [etag] is not ["*"] and differs from the stored ETag, the two compared
    as they are, with no encoding of colons; none of the three changes the
    store.  Otherwise it returns, and the collection is the old one without
    the document found. *)
Theorem deleteTableEntity_outcomes (st : Store) (tbl acc : string)
    (partitionKey rowKey : option string) (etag batchId : string)
    (coll : Loki.Collection) :
  hasTable acc tbl st = true ->
  collections st !! getTableCollectionName acc tbl = Some coll ->
  let r := deleteTableEntity tbl acc partitionKey rowKey etag batchId st in
  (partitionKey = None \/ rowKey = None -> r = (st, Throw PropertiesNeedValue))
  /\ (forall pk rk, partitionKey = Some pk -> rowKey = Some rk ->
      ((forall d, d ∈ Loki.data coll -> keysOf d <> (pk, rk)) ->
       r = (st, Throw EntityNotFound))
      /\ (forall doc, Loki.findOne pk rk coll = Some doc ->
          (etag <> "*" -> eTag (entity doc) <> etag ->
           r = (st, Throw PreconditionFailed))
          /\ (etag = "*" \/ eTag (entity doc) = etag ->
              r.2 = Ok tt
              /\ collections r.1
                 = <[getTableCollectionName acc tbl := Loki.remove doc coll]> (collections st)
              /\ (uniqueIds coll ->
                  forall x, x ∈ Loki.data (Loki.remove doc coll) <->
                            x ∈ Loki.data coll /\ x <> doc)
              /\ (uniqueIds coll -> uniqueKeys coll ->
                  Loki.findOne pk rk (Loki.remove doc coll) = None)))).
Proof.
  intros Ht Hc r. subst r. rewrite (deleteTableEntity_run _ _ _ _ _ _ _ _ Ht Hc).
  split.
  - intros [-> | ->]; [done | by destruct partitionKey].
  - intros pk rk -> ->. split.
    + intros Hnone. apply findOne_None in Hnone. by rewrite Hnone.
    + intros doc Hf. rewrite Hf. split.
      * intros H1 H2.
        apply String.eqb_neq in H1, H2. by rewrite H1, H2.
      * intros Hok.
        assert (negb (String.eqb etag "*") && negb (String.eqb (eTag (entity doc)) etag)
                = false) as ->.
        { destruct Hok as [-> | <-]; [done|]. rewrite String.eqb_refl. apply andb_false_r. }
        cbn [fst snd]. split_and!; [done | by destruct (negb _) | |].
        -- intros Hid x. rewrite remove_spec by done.
           pose proof (findOne_Some _ _ _ _ Hf) as [Hdin _].
           split; intros [Hx Hne]; (split; [done|]).
           ++ by intros ->.
           ++ intros Heq. apply Hne. by apply (same_id_same_doc coll).
        -- intros Hid Hk. apply findOne_None. intros x Hx.
           by eapply remove_found_keys.
Qed.

End DeleteProof.

(** ** Merge *)

(** Strings: suffixes *)

Lemma string_app_cons (c : ascii) (s t : string) :
  String c s +:+ t = String c (s +:+ t).
Proof. reflexivity. Qed.

Lemma string_app_nil_l (t : string) : "" +:+ t = t.
Proof. reflexivity. Qed.

Lemma string_app_length (s t : string) :
  String.length (s +:+ t) = (String.length s + String.length t)%nat.
Proof.
  induction s as [|c s IH]; [done|].
  rewrite string_app_cons. cbn. by rewrite IH.
Qed.

Lemma substring_app_r (s t : string) :
  String.substring (String.length s) (String.length t) (s +:+ t) = t.
Proof.
  induction s as [|c s IH]; [apply substring_all|].
  rewrite string_app_cons. cbn. done.
Qed.

Lemma endsWith_app (p s : string) : endsWith p (s +:+ p) = true.
Proof.
  unfold endsWith, substringFrom, substring, clamp, strlen.
  rewrite string_app_length. apply andb_true_iff. split; [apply Z.leb_le; lia|].
  apply String.eqb_eq.
  replace (Z.to_nat (Z.max 0 (Z.min (Z.of_nat (String.length s + String.length p)
             - Z.of_nat (String.length p)) (Z.of_nat (String.length s + String.length p)))))
    with (String.length s) by lia.
  replace (Z.to_nat (Z.max 0 (Z.min (Z.of_nat (String.length s + String.length p))
             (Z.of_nat (String.length s + String.length p)))))
    with (String.length s + String.length p)%nat by lia.
  replace (Nat.min (String.length s) (String.length s + String.length p))
    with (String.length s) by lia.
  replace (Nat.max (String.length s) (String.length s + String.length p) - String.length s)%nat
    with (String.length p) by lia.
  apply substring_app_r.
Qed.

Lemma string_app_inv_r (s t p : string) : s +:+ p = t +:+ p -> s = t.
Proof.
  revert t. induction s as [|c s IH]; intros [|d t] H;
    rewrite ?string_app_cons, ?string_app_nil_l in H.
  - done.
  - apply (f_equal String.length) in H. cbn in H. rewrite string_app_length in H. lia.
  - apply (f_equal String.length) in H. cbn in H. rewrite string_app_length in H. lia.
  - injection H as -> H. f_equal. by apply IH.
Qed.

Lemma string_app_neq_self (s p : string) : p <> "" -> s <> s +:+ p.
Proof.
  intros Hp H. apply (f_equal String.length) in H. rewrite string_app_length in H.
  destruct p; [done|]. cbn in H. lia.
Qed.

Lemma tagged_ends (k : string) : endsWith ODATA_TYPE (k +:+ ODATA_TYPE) = true.
Proof. apply endsWith_app. Qed.

Lemma tagged_neq_plain (k q : string) :
  endsWith ODATA_TYPE q = false -> q <> k +:+ ODATA_TYPE.
Proof. intros H ->. by rewrite tagged_ends in H. Qed.

(** The loop of [mergeTableEntity], key by key. *)

Lemma mergeProperty_lookup (incoming merged : gmap string JSValue) (i : string)
    (x : JSValue) (q : string) :
  endsWith ODATA_TYPE i = false ->
  mergeProperty incoming i x merged !! q =
  if decide (q = i +:+ ODATA_TYPE) then tagOf incoming i
  else if decide (q = i) then Some x else merged !! q.
Proof.
  intros Hi. unfold mergeProperty, tagOf. rewrite Hi.
  assert (Hne : i <> i +:+ ODATA_TYPE) by (by apply string_app_neq_self).
  destruct (isUndefined (getProperty incoming (i +:+ ODATA_TYPE))).
  - rewrite lookup_delete. destruct (decide (i +:+ ODATA_TYPE = q)) as [<-|Hq].
    + by rewrite decide_True.
    + rewrite decide_False by done. rewrite lookup_insert.
      destruct (decide (i = q)) as [<-|]; [by rewrite decide_True|by rewrite decide_False].
  - rewrite lookup_insert. destruct (decide (i +:+ ODATA_TYPE = q)) as [<-|Hq].
    + by rewrite decide_True.
    + rewrite decide_False by done. rewrite lookup_insert.
      destruct (decide (i = q)) as [<-|]; [by rewrite decide_True|by rewrite decide_False].
Qed.

Lemma merge_loop_overlays (stored incoming : gmap string JSValue) :
  forall m : gmap string JSValue,
    overlays stored incoming m (map_fold (mergeProperty incoming) stored m).
Proof.
  apply (map_fold_weak_ind (fun r m => overlays stored incoming m r)).
  - split; [intros k v Hk; by rewrite lookup_empty in Hk | done].
  - intros i x m r Hi [H1 H2].
    destruct (endsWith ODATA_TYPE i) eqn:Ei.
    + unfold mergeProperty. rewrite Ei. split.
      * intros k v Hk Hek. apply H1; [|done].
        rewrite lookup_insert_ne in Hk; [done|]. intros ->. congruence.
      * intros q Hq Hk. apply H2.
        -- destruct Hq as [Hq|Hq]; [|by right].
           destruct (decide (i = q)) as [->|Hne]; [by right|].
           left. by rewrite lookup_insert_ne in Hq.
        -- intros k Hks. apply Hk. destruct (decide (i = k)) as [->|Hne].
           ++ rewrite lookup_insert_eq. by eexists.
           ++ by rewrite lookup_insert_ne.
    + split.
      * intros k v Hk Hek. rewrite !(mergeProperty_lookup _ _ _ _ _ Ei).
        destruct (decide (i = k)) as [->|Hne].
        -- rewrite lookup_insert_eq in Hk. injection Hk as ->.
           rewrite decide_False by (by apply string_app_neq_self).
           rewrite decide_True by done. rewrite decide_True by done. done.
        -- rewrite lookup_insert_ne in Hk by done.
           destruct (H1 k v Hk Hek) as [Ha Hb].
           rewrite (decide_False (P := k = i +:+ ODATA_TYPE)) by (by apply tagged_neq_plain).
           rewrite (decide_False (P := k = i)) by done.
           rewrite (decide_False (P := k +:+ ODATA_TYPE = i +:+ ODATA_TYPE)).
           2:{ intros Heq. apply string_app_inv_r in Heq. done. }
           rewrite (decide_False (P := k +:+ ODATA_TYPE = i)).
           2:{ intros Heq. symmetry in Heq. by apply tagged_neq_plain in Heq. }
           done.
      * intros q Hq Hk. rewrite (mergeProperty_lookup _ _ _ _ _ Ei).
        rewrite decide_False.
        2:{ apply Hk; [|done]. rewrite lookup_insert_eq. by eexists. }
        rewrite decide_False.
        2:{ intros ->. destruct Hq as [Hq|Hq]; [|congruence].
            by rewrite lookup_insert_eq in Hq. }
        apply H2.
        -- destruct Hq as [Hq|Hq]; [|by right].
           left. destruct (decide (i = q)) as [->|Hne].
           ++ by rewrite lookup_insert_eq in Hq.
           ++ by rewrite lookup_insert_ne in Hq.
        -- intros k Hks. apply Hk. destruct (decide (i = k)) as [->|Hne].
           ++ rewrite lookup_insert_eq. by eexists.
           ++ by rewrite lookup_insert_ne.
Qed.

(** The properties of the merged entity: every incoming key that is not a
    type tag is overlaid together with its tag, and every other stored
    property is retained. *)
Lemma mergedDEntity_properties (doc : Doc) (e : Entity) :
  (forall k v, properties e !! k = Some v -> endsWith ODATA_TYPE k = false ->
     properties (entity (mergedDEntity doc e)) !! k = Some v
     /\ properties (entity (mergedDEntity doc e)) !! (k +:+ ODATA_TYPE)
        = tagOf (properties e) k)
  /\ (forall q,
        (properties e !! q = None \/ endsWith ODATA_TYPE q = true) ->
        (forall k, is_Some (properties e !! k) -> endsWith ODATA_TYPE k = false ->
                   q <> k +:+ ODATA_TYPE) ->
        properties (entity (mergedDEntity doc e)) !! q
        = properties (entity doc) !! q).
Proof. apply merge_loop_overlays. Qed.

(** Merge never writes [Timestamp] unless the request carries one. *)
Lemma merge_keeps_timestamp (doc : Doc) (e : Entity) :
  properties e !! "Timestamp" = None ->
  properties (entity (mergedDEntity doc e)) !! "Timestamp"
  = properties (entity doc) !! "Timestamp".
Proof.
  intros H. apply mergedDEntity_properties; [by left|].
  intros k _ _. by apply tagged_neq_plain.
Qed.

(** ** Ordering of the query results *)

(** The order of strings *)

Lemma ascii_compare_refl (a : ascii) : Ascii.compare a a = Eq.
Proof. unfold Ascii.compare. apply N.compare_refl. Qed.

Lemma ascii_compare_lt_trans (a b c : ascii) :
  Ascii.compare a b = Lt -> Ascii.compare b c = Lt -> Ascii.compare a c = Lt.
Proof. unfold Ascii.compare. rewrite !N.compare_lt_iff. lia. Qed.

Lemma string_compare_refl (s : string) : String.compare s s = Eq.
Proof. induction s as [|c s IH]; cbn; [done|]. by rewrite ascii_compare_refl. Qed.

Lemma string_compare_lt_trans (a b c : string) :
  String.compare a b = Lt -> String.compare b c = Lt -> String.compare a c = Lt.
Proof.
  revert b c. induction a as [|x a IH]; intros [|y b] [|z c]; cbn; try done.
  destruct (Ascii.compare x y) eqn:Exy; try done;
  destruct (Ascii.compare y z) eqn:Eyz; try done.
  - apply Ascii.compare_eq_iff in Exy as ->. rewrite Eyz. apply IH.
  - apply Ascii.compare_eq_iff in Exy as ->. by rewrite Eyz.
  - apply Ascii.compare_eq_iff in Eyz as ->. by rewrite Exy.
  - by rewrite (ascii_compare_lt_trans _ _ _ Exy Eyz).
Qed.

Lemma ltb_lt (a b : string) : String.ltb a b = true <-> String.compare a b = Lt.
Proof. unfold String.ltb. by destruct (String.compare a b). Qed.

Lemma leb_le (a b : string) :
  String.leb a b = true <-> String.ltb a b = true \/ a = b.
Proof.
  unfold String.leb, String.ltb. destruct (String.compare a b) eqn:E.
  - apply String.compare_eq_iff in E. naive_solver.
  - naive_solver.
  - split; [done|]. intros [| ->]; [done|]. by rewrite string_compare_refl in E.
Qed.

Lemma ltb_false_leb (a b : string) : String.ltb b a = false <-> String.leb a b = true.
Proof.
  unfold String.leb, String.ltb. rewrite (String.compare_antisym a b).
  by destruct (String.compare b a).
Qed.

Lemma ltb_irrefl (a : string) : String.ltb a a = false.
Proof. unfold String.ltb. by rewrite string_compare_refl. Qed.

Lemma ltb_trans (a b c : string) :
  String.ltb a b = true -> String.ltb b c = true -> String.ltb a c = true.
Proof. rewrite !ltb_lt. apply string_compare_lt_trans. Qed.

Lemma leb_trans (a b c : string) :
  String.leb a b = true -> String.leb b c = true -> String.leb a c = true.
Proof.
  rewrite !leb_le. intros [H1| ->] [H2| ->]; eauto using ltb_trans.
Qed.

(** The comparison function orders by [keysLe]. *)

Lemma compareKeys_le (x y : Doc) : (compareKeys x y <= 0)%Z <-> keysLe x y.
Proof.
  unfold compareKeys, keysLe.
  destruct (String.ltb (PartitionKey (entity y)) (PartitionKey (entity x))) eqn:E1.
  - split; [lia|]. intros [H|[H _]].
    + pose proof (ltb_trans _ _ _ H E1) as Hc. by rewrite ltb_irrefl in Hc.
    + rewrite H, ltb_irrefl in E1. done.
  - destruct (String.eqb_spec (PartitionKey (entity x)) (PartitionKey (entity y))) as [Heq|Hne].
    + destruct (String.ltb (RowKey (entity y)) (RowKey (entity x))) eqn:E2.
      * split; [lia|]. intros [H|[_ H]].
        -- rewrite Heq, ltb_irrefl in H. done.
        -- apply ltb_false_leb in H. congruence.
      * apply ltb_false_leb in E2.
        split; [intros _; by right|]. intros _.
        destruct (String.eqb _ _); lia.
    + apply ltb_false_leb, leb_le in E1 as [H|H]; [|done].
      split; [by left | lia].
Qed.

Lemma keysLe_total (x y : Doc) : keysLe x y \/ keysLe y x.
Proof.
  unfold keysLe.
  destruct (String.leb_total (PartitionKey (entity x)) (PartitionKey (entity y))) as [H|H];
    apply leb_le in H as [H|H]; auto.
  - destruct (String.leb_total (RowKey (entity x)) (RowKey (entity y))); auto.
  - destruct (String.leb_total (RowKey (entity x)) (RowKey (entity y))); auto.
Qed.

Lemma keysLe_trans (x y z : Doc) : keysLe x y -> keysLe y z -> keysLe x z.
Proof.
  unfold keysLe. intros [H1|[H1 H1']] [H2|[H2 H2']].
  - left. eauto using ltb_trans.
  - left. by rewrite <- H2.
  - left. by rewrite H1.
  - right. split; [congruence | eauto using leb_trans].
Qed.

(** Sorting *)

Section Sorting.
Context {A : Type} (cmp : A -> A -> Z) (R : A -> A -> Prop).
Hypothesis cmp_R : forall x y, (cmp x y <= 0)%Z <-> R x y.
Hypothesis R_total : forall x y, R x y \/ R y x.

Lemma insertSorted_Permutation (x : A) (l : list A) : insertSorted cmp x l ≡ₚ x :: l.
Proof.
  induction l as [|y l IH]; cbn; [done|].
  destruct (cmp x y <=? 0)%Z; [done|]. rewrite IH. apply Permutation_swap.
Qed.

Lemma sortWith_Permutation (l : list A) : sortWith cmp l ≡ₚ l.
Proof.
  induction l as [|x l IH]; cbn; [done|].
  by rewrite insertSorted_Permutation, IH.
Qed.

Lemma insertSorted_HdRel (a x : A) (l : list A) :
  R a x -> HdRel R a l -> HdRel R a (insertSorted cmp x l).
Proof.
  intros Hax Hl. destruct l as [|y l]; cbn; [by constructor|].
  destruct (cmp x y <=? 0)%Z; constructor; [done|]. by inversion Hl.
Qed.

Lemma insertSorted_Sorted (x : A) (l : list A) :
  Sorted R l -> Sorted R (insertSorted cmp x l).
Proof.
  induction l as [|y l IH]; cbn; intros Hs; [by repeat constructor|].
  destruct (Z.leb_spec (cmp x y) 0) as [Hle|Hgt].
  - constructor; [done|]. constructor. by apply cmp_R.
  - inversion Hs as [|? ? Hs' Hhd]; subst. constructor; [by apply IH|].
    apply insertSorted_HdRel; [|done].
    destruct (R_total y x) as [|Hxy]; [done|]. apply cmp_R in Hxy. lia.
Qed.

Lemma sortWith_Sorted (l : list A) : Sorted R (sortWith cmp l).
Proof.
  induction l as [|x l IH]; cbn; [constructor | by apply insertSorted_Sorted].
Qed.

End Sorting.

Lemma sortWith_compareKeys_sorted (l : list Doc) :
  StronglySorted keysLe (sortWith compareKeys l).
Proof.
  apply Sorted_StronglySorted.
  - intros x y z. apply keysLe_trans.
  - apply (sortWith_Sorted compareKeys keysLe compareKeys_le keysLe_total).
Qed.

(** ** The entity query *)

Lemma jsGt_undefined (a : option string) : jsGt a None = false.
Proof. by destruct a. Qed.

(** The continuation filter, case by case on the row-key cursor. *)
Lemma continuationFilter_cases (dpk drk pk rk : option string) :
  continuationFilter dpk drk pk rk =
  match drk with
  | Some _ => jsGt pk dpk || (jsGe rk drk && (jsEq pk dpk || jsEq pk None))
  | None => true
  end.
Proof.
  unfold continuationFilter. destruct dpk as [p|].
  - destruct (jsGt pk (Some p)); [by destruct drk|].
    destruct drk; [|done]. cbn. by destruct (jsGe rk _ && _).
  - rewrite jsGt_undefined. destruct drk; [|done]. cbn. by destruct (jsGe rk _ && _).
Qed.

(** With a row-key cursor, or with no cursor at all, the filter is the one
    the specification words. *)
Lemma continuationFilter_spec (dpk drk pk rk : option string) :
  is_Some drk \/ dpk = None ->
  continuationFilter dpk drk pk rk = specContinuationFilter dpk drk pk rk.
Proof.
  rewrite continuationFilter_cases. unfold specContinuationFilter.
  intros [[r ->]| ->]; [by destruct dpk|]. by destruct drk.
Qed.

Lemma filter_filter {A} (f g : A -> bool) (l : list A) :
  List.filter g (List.filter f l) = List.filter (fun x => f x && g x) l.
Proof.
  induction l as [|x l IH]; cbn; [done|].
  destruct (f x); cbn; [|done]. destruct (g x); by rewrite IH.
Qed.

Lemma removelast_take {A} (m : nat) (l : list A) :
  (m < length l)%nat -> removelast (take (S m) l) = take m l.
Proof.
  intros H. rewrite removelast_firstn_len.
  change (@firstn A) with (@take A).
  rewrite length_take, take_take. f_equal. lia.
Qed.

Lemma last_take {A} (m : nat) (l : list A) :
  (m < length l)%nat -> last (take (S m) l) = l !! m.
Proof.
  intros H. rewrite last_lookup, length_take.
  replace (Nat.pred (S m `min` length l)) with m by lia.
  apply lookup_take_lt. lia.
Qed.

Section QueryProofs.
Variable QUERY_RESULT_MAX_NUM : nat.
Variables base64Decode base64Encode : string -> string.
Variable newEntityFunction : string -> option (Doc -> bool).

(** C5, amended.  [queryTableEntities] on an existing table with a filter
    that compiles.  A record passes the continuation filter iff no row-key
    cursor is set, or its [PartitionKey] is greater than the decoded
    partition-key cursor, or its [RowKey] is at least the decoded row-key
    cursor while its [PartitionKey] equals the decoded partition-key cursor; a
    partition-key cursor alone filters nothing.  The records that pass both
    filters are sorted ascending by [(PartitionKey, RowKey)].  At most
    [maxResults] of them are returned, [maxResults] being [top], or
    [QUERY_RESULT_MAX_NUM] when [top] is absent or 0.  When more than
    [maxResults] pass, the record at position [maxResults] of the sorted
    sequence is left out and its two keys, encoded, are the continuation;
    otherwise there is no continuation.  The store is unchanged. *)
Theorem queryTableEntities_page (st : Store) (acc tbl : string)
    (queryOptions : Models.QueryOptions) (nextPartitionKey nextRowKey : option string)
    (coll : Loki.Collection) (queryWhere : Doc -> bool) :
  hasTable acc tbl st = true ->
  collections st !! getTableCollectionName acc tbl = Some coll ->
  generateQueryEntityWhereFunction newEntityFunction (Models.filter queryOptions)
    = Ok queryWhere ->
  let maxResults :=
    match Models.top queryOptions with
    | Some (S n) => S n
    | _ => QUERY_RESULT_MAX_NUM
    end in
  let decodedNextPartitionKey := base64Decode <$> nextPartitionKey in
  let decodedNextRowKey := base64Decode <$> nextRowKey in
  let admitted (d : Doc) :=
    match decodedNextRowKey with
    | Some _ =>
        jsGt (Some (PartitionKey (entity d))) decodedNextPartitionKey
        || (jsGe (Some (RowKey (entity d))) decodedNextRowKey
            && jsEq (Some (PartitionKey (entity d))) decodedNextPartitionKey)
    | None => true
    end in
  let matching := List.filter (fun d => queryWhere d && admitted d) (Loki.data coll) in
  exists sorted : list Doc,
    sorted ≡ₚ matching
    /\ StronglySorted keysLe sorted
    /\ queryTableEntities QUERY_RESULT_MAX_NUM base64Decode base64Encode
         newEntityFunction acc tbl queryOptions nextPartitionKey nextRowKey st
       = (st, Ok (take maxResults sorted,
                  (fun tail => base64Encode (PartitionKey (entity tail)))
                    <$> sorted !! maxResults,
                  (fun tail => base64Encode (RowKey (entity tail)))
                    <$> sorted !! maxResults))
    /\ (length (take maxResults sorted) <= maxResults)%nat
    /\ (is_Some (sorted !! maxResults) <-> (maxResults < length matching)%nat)
    /\ (forall d,
          admitted d
          = continuationFilter decodedNextPartitionKey decodedNextRowKey
              (Some (PartitionKey (entity d))) (Some (RowKey (entity d))))
    /\ (forall dataPartitionKey dataRowKey,
          continuationFilter decodedNextPartitionKey decodedNextRowKey
            dataPartitionKey dataRowKey
          = match decodedNextRowKey with
            | Some _ =>
                jsGt dataPartitionKey decodedNextPartitionKey
                || (jsGe dataRowKey decodedNextRowKey
                    && (jsEq dataPartitionKey decodedNextPartitionKey
                        || jsEq dataPartitionKey None))
            | None => true
            end).
Proof.
  intros Ht Hc Hgen maxResults dpk drk admitted matching.
  exists (sortWith compareKeys matching).
  assert (Hperm : sortWith compareKeys matching ≡ₚ matching).
  { apply (sortWith_Permutation compareKeys). }
  split; [done|]. split; [apply sortWith_compareKeys_sorted|].
  assert (Hadm : forall d, admitted d
            = continuationFilter dpk drk (Some (PartitionKey (entity d)))
                (Some (RowKey (entity d)))).
  { intros d. rewrite continuationFilter_cases. subst admitted. cbn beta.
    destruct drk; [|done]. cbn [jsEq]. by rewrite orb_false_r. }
  split; [|split; [|split; [|split]]].
  - unfold queryTableEntities.
    unfold mbind at 1, Op_bind at 1. rewrite (getEntityCollection_found _ _ _ _ Ht Hc).
    cbn beta iota. rewrite Hgen.
    unfold entityQueryChain, decodeContinuationHeader, encodeContinuationHeader, topOr.
    fold maxResults. fold dpk. fold drk.
    rewrite filter_filter.
    assert (Hext : List.filter
              (fun x => queryWhere x &&
                 continuationFilter dpk drk (Some (PartitionKey (entity x)))
                   (Some (RowKey (entity x)))) (Loki.data coll) = matching).
    { subst matching. apply List.filter_ext. intros d. f_equal. by rewrite Hadm. }
    rewrite Hext. set (sorted := sortWith compareKeys matching).
    replace (maxResults + 1)%nat with (S maxResults) by lia.
    rewrite length_take.
    destruct (Nat.ltb_spec maxResults (S maxResults `min` length sorted)) as [Hlt|Hge].
    + assert (Hlen : (maxResults < length sorted)%nat) by lia.
      rewrite last_take, removelast_take by done.
      destruct (lookup_lt_is_Some_2 sorted maxResults Hlen) as [tail Htail].
      rewrite Htail. reflexivity.
    + assert (Hlen : (length sorted <= maxResults)%nat) by lia.
      rewrite (lookup_ge_None_2 sorted maxResults) by done.
      rewrite !take_ge by lia. reflexivity.
  - rewrite length_take. lia.
  - rewrite lookup_lt_is_Some. by rewrite Hperm.
  - done.
  - intros pk rk. apply continuationFilter_cases.
Qed.

End QueryProofs.

(** With a partition-key cursor and no row-key cursor the filter admits a
    record of an earlier partition, which the worded filter rejects: a query
    of the sample store with the cursor [q] returns its three records of
    partition [p]. *)
Lemma continuationFilter_partition_cursor_only :
  continuationFilter (Some "b") None (Some "a") (Some "x") = true
  /\ specContinuationFilter (Some "b") None (Some "a") (Some "x") = false
  /\ exists found,
       (queryTableEntities 1000 (fun s => s) (fun s => s)
          (fun _ => Some (fun _ => true)) "acct" "t"
          {| Models.filter := None; Models.top := None |} (Some "q") None
          sampleStoreOfThree).2 = Ok (found, None, None)
       /\ length found = 3%nat
       /\ Forall (fun d => PartitionKey (entity d) = "p"
                          /\ String.ltb (PartitionKey (entity d)) "q" = true) found.
Proof.
  split; [reflexivity|]. split; [reflexivity|].
  eexists. split; [vm_compute; reflexivity|].
  split; [reflexivity|]. repeat constructor.
Qed.

(** ** Failures of the rewriter *)

(** The rewriter, token by token *)

Lemma startsWith_datetime_not_binary (token : string) :
  startsWith "datetime" token = true ->
  startsWith "X" token = false /\ startsWith "binary" token = false.
Proof.
  unfold startsWith. destruct token as [|c token]; [done|]. cbn [String.prefix].
  destruct (ascii_dec "d" c) as [<-|Hne]; [|done].
  intros _. cbn. done.
Qed.

(** What makes [transformToken] throw. *)
Lemma transformToken_throws (sys : gmap string string) (allow : bool)
    (tokens : list string) (counter : Z) (previousIsOp : bool) (token : string) :
  (exists e, transformToken sys allow tokens counter previousIsOp token = Throw e)
  <-> customPropertyRejected sys allow token
      \/ (binaryLiteral token /\ previousIsOp = true).
Proof.
  unfold transformToken, customPropertyRejected, binaryLiteral, takenForLongInt.
  destruct (isIdentifier token) eqn:Eid.
  - destruct (sys !! token) as [field|] eqn:Es.
    + split; [by intros [e ?]|]. intros [(_ & ? & _)|[(? & _) _]]; done.
    + destruct allow.
      * split.
        -- intros [e H]. by destruct (_ && _) in H.
        -- intros [(_ & _ & ?)|[(? & _) _]]; done.
      * split; [intros _; by left | intros _; by eexists].
  - destruct previousIsOp; cbn [andb].
    + destruct (length (matchAllLongInt false None 0 token) =? 1)%nat eqn:El.
      * split; [by intros [e ?]|]. intros [(? & _)|[(_ & _ & ?) _]]; done.
      * destruct (startsWith "datetime" token) eqn:Ed.
        -- destruct (startsWith_datetime_not_binary _ Ed) as [Hx Hb].
           split; [by intros [e ?]|].
           intros [(? & _)|[(_ & [?|?] & _) _]]; congruence.
        -- destruct (startsWith "X" token || startsWith "binary" token) eqn:Ex.
           ++ split; [|intros _; by eexists]. intros _. right.
              apply orb_true_iff in Ex. done.
           ++ apply orb_false_iff in Ex as [Hx Hb].
              split; [by intros [e ?]|].
              intros [(? & _)|[(_ & [?|?] & _) _]]; congruence.
    + split; [by intros [e ?]|]. intros [(? & _)|[_ ?]]; done.
Qed.

Lemma transformLoop_throws (sys : gmap string string) (allow : bool)
    (tokens rest : list string) (counter : Z) (isOp : bool) (acc : string) :
  Forall (fun t => t <> "") rest ->
  (exists e, transformLoop sys allow tokens rest counter isOp acc = Throw e)
  <-> exists j token,
        rest !! j = Some token
        /\ (customPropertyRejected sys allow token
            \/ (binaryLiteral token /\ flagBefore isOp rest j = true)).
Proof.
  intros Hne. revert counter isOp acc.
  induction Hne as [|t rest Ht Hrest IH]; intros counter isOp acc.
  - cbn. split; [by intros [e ?] | by intros (j & token & ? & _)].
  - cbn [transformLoop]. apply String.eqb_neq in Ht. rewrite Ht.
    pose proof (transformToken_throws sys allow tokens (counter + 1) isOp t) as Htok.
    destruct (transformToken sys allow tokens (counter + 1) isOp t) as [piece|e] eqn:Et.
    + rewrite IH. split.
      * intros (j & token & Hj & Hrej). exists (S j), token. split; [done|].
        destruct j; exact Hrej.
      * intros (j & token & Hj & Hrej). destruct j as [|j].
        -- injection Hj as <-. cbn [flagBefore] in Hrej.
           apply Htok in Hrej as [e ?]. done.
        -- exists j, token. split; [done|]. destruct j; exact Hrej.
    + split; [|intros _; by eexists].
      intros _. exists 0%nat, t. split; [done|]. apply Htok. by eexists.
Qed.

Lemma transformTokens_throws (sys : gmap string string) (allow : bool)
    (tokens : list string) :
  Forall (fun t => t <> "") tokens ->
  (exists e, transformTokens sys allow tokens = Throw e)
  <-> exists i, rejectedAt sys allow tokens i.
Proof.
  intros Hne. unfold transformTokens. rewrite transformLoop_throws by done.
  unfold rejectedAt. split.
  - intros (j & token & Hj & Hrej). exists j, token. split; [done|]. by destruct j.
  - intros (j & token & Hj & Hrej). exists j, token. split; [done|]. by destruct j.
Qed.

(** ** Output of the rewriter *)

Lemma string_app_assoc (a b c : string) : (a +:+ b) +:+ c = a +:+ (b +:+ c).
Proof.
  induction a as [|x a IH]; [done|].
  rewrite !string_app_cons. by rewrite IH.
Qed.

Lemma string_app_nil_r (a : string) : a +:+ "" = a.
Proof. induction a as [|x a IH]; [done|]. rewrite string_app_cons. by rewrite IH. Qed.

(** The text [transformQuery] returns is made of the pieces of its tokens. *)
Lemma transformLoop_output (sys : gmap string string) (allow : bool)
    (tokens : list string) :
  forall (rest pre : list string) (counter : Z) (isOp : bool) (acc out : string),
    tokens = pre ++ rest ->
    counter = (Z.of_nat (length pre) - 1)%Z ->
    isOp = followsComparison tokens (length pre) ->
    Forall (fun t => t <> "") rest ->
    transformLoop sys allow tokens rest counter isOp acc = Ok out ->
    exists pieces,
      length pieces = length rest
      /\ (forall j piece, pieces !! j = Some piece ->
                          emits sys allow tokens (length pre + j) piece)
      /\ out = acc +:+ String.concat "" pieces +:+ ")".
Proof.
  induction rest as [|t rest IH]; intros pre counter isOp acc out Htok Hc Hop Hne Hrun.
  - cbn in Hrun. injection Hrun as <-. exists []. split; [done|]. split; [|done].
    intros j piece Hj. by rewrite lookup_nil in Hj.
  - apply Forall_cons in Hne as [Ht Hne]. cbn [transformLoop] in Hrun.
    apply String.eqb_neq in Ht. rewrite Ht in Hrun.
    destruct (transformToken sys allow tokens (counter + 1) isOp t) as [piece|e] eqn:Et;
      [|done].
    assert (Hlook : tokens !! length pre = Some t).
    { rewrite Htok. rewrite lookup_app_r by lia. by rewrite Nat.sub_diag. }
    destruct (IH (pre ++ [t]) (counter + 1)%Z (includes comparisonOperators t)
                 (acc +:+ piece) out) as (pieces & Hlen & Hem & Hout).
    + by rewrite <- app_assoc.
    + rewrite length_app. cbn. lia.
    + rewrite length_app. cbn [length]. rewrite Nat.add_1_r. cbn [followsComparison].
      by rewrite Hlook.
    + done.
    + done.
    + exists (piece :: pieces). split; [cbn; by rewrite Hlen|]. split.
      * intros [|j] p Hj.
        -- injection Hj as <-. exists t. rewrite Nat.add_0_r. split; [done|].
           rewrite <- Hop. replace (Z.of_nat (length pre)) with (counter + 1)%Z by lia.
           done.
        -- specialize (Hem j p Hj). rewrite length_app in Hem. cbn [length] in Hem.
           by replace (length pre + S j)%nat with (length pre + 1 + j)%nat by lia.
      * rewrite Hout. rewrite string_app_assoc. f_equal.
        destruct pieces as [|q pieces]; cbn [String.concat].
        -- by rewrite string_app_nil_l.
        -- rewrite string_app_nil_l. by rewrite string_app_assoc.
Qed.

Lemma transformTokens_output (sys : gmap string string) (allow : bool)
    (tokens : list string) (out : string) :
  Forall (fun t => t <> "") tokens ->
  transformTokens sys allow tokens = Ok out ->
  exists pieces,
    length pieces = length tokens
    /\ (forall i piece, pieces !! i = Some piece -> emits sys allow tokens i piece)
    /\ out = "return ( " +:+ String.concat "" pieces +:+ ")".
Proof.
  intros Hne Hrun.
  by apply (transformLoop_output sys allow tokens tokens [] (-1)%Z false "return ( " out).
Qed.

(** ** The regular expressions on well-formed literals *)

(** Characters that a string does not hold *)

Lemma includesChar_app (c : ascii) (s t : string) :
  includesChar c (s +:+ t) = includesChar c s || includesChar c t.
Proof.
  induction s as [|d s IH]; [done|].
  rewrite string_app_cons. cbn. rewrite IH. by rewrite orb_assoc.
Qed.

Lemma allChars_excludes (p : ascii -> bool) (c : ascii) (s : string) :
  p c = false -> allChars p s = true -> includesChar c s = false.
Proof.
  intros Hc. induction s as [|d s IH]; cbn; [done|].
  rewrite andb_true_iff. intros [Hd Hs]. rewrite (IH Hs), orb_false_r.
  destruct (Ascii.eqb_spec c d) as [->|]; [congruence | done].
Qed.

Lemma includesChar_dropChars (c : ascii) (n : nat) (s : string) :
  includesChar c s = false -> includesChar c (dropChars n s) = false.
Proof.
  revert s. induction n as [|n IH]; intros [|d s]; cbn; try done.
  rewrite orb_false_iff. intros [_ H]. by apply IH.
Qed.

(** A token without [L] holds no long integer. *)
Lemma longIntAt_no_L (a : bool) (prev : option ascii) (s : string) :
  includesChar "L" s = false -> longIntAt a prev s = None.
Proof.
  intros H. unfold longIntAt.
  destruct (wordBoundary prev (headChar s) && _); [|done].
  pose proof (includesChar_dropChars "L" (spanDigits s) s H) as Hd.
  destruct (dropChars (spanDigits s) s) as [|c rest]; [done|].
  cbn in Hd. apply orb_false_iff in Hd as [Hc _].
  destruct (Ascii.eqb_spec "L" c) as [<-|Hne]; [done|].
  destruct c as [[] [] [] [] [] [] [] []]; try done.
Qed.

Lemma matchAllLongInt_no_L (a : bool) (prev : option ascii) (skip : nat) (s : string) :
  includesChar "L" s = false -> matchAllLongInt a prev skip s = [].
Proof.
  revert prev skip. induction s as [|c s IH]; intros prev skip H; [done|].
  cbn [matchAllLongInt]. rewrite (longIntAt_no_L a prev _ H).
  cbn in H. apply orb_false_iff in H as [_ H].
  destruct skip; by apply IH.
Qed.

(** A text without [d] holds no [datetime]. *)
Lemma removeDatetime_no_d (prev : option ascii) (s : string) :
  includesChar "d" s = false -> removeDatetime prev 0 s = s.
Proof.
  revert prev. induction s as [|c s IH]; intros prev H; [done|].
  cbn [removeDatetime]. cbn in H. apply orb_false_iff in H as [Hc H].
  assert (startsWith "datetime" (String c s) = false) as ->.
  { unfold startsWith. cbn [String.prefix].
    destruct (ascii_dec "d" c) as [<-|]; [done|done]. }
  rewrite andb_false_r. cbn [andb]. by rewrite IH.
Qed.

Lemma removeDatetime_literal (body : string) :
  includesChar "d" body = false ->
  removeDatetime None 0 ("datetime`" +:+ body +:+ "`") = "`" +:+ body +:+ "`".
Proof.
  intros H.
  change ("datetime`" +:+ body +:+ "`")
    with (String "d" (String "a" (String "t" (String "e" (String "t" (String "i"
           (String "m" (String "e" ("`" +:+ body +:+ "`"))))))))).
  cbn [removeDatetime isWordOpt negb andb startsWith String.prefix dropChars headChar].
  change ("`" +:+ body +:+ "`") with (String "`" (body +:+ "`")).
  cbn. rewrite removeDatetime_no_d; [done|].
  rewrite includesChar_app, H. done.
Qed.

(** Long-integer tokens: digits followed by [L] *)

Lemma spanDigits_digits (d rest : string) :
  allChars isDigit d = true -> headChar rest = Some "L"%char ->
  spanDigits (d +:+ rest) = String.length d /\ dropChars (String.length d) (d +:+ rest) = rest.
Proof.
  intros Hd Hr. induction d as [|c d IH].
  - rewrite string_app_nil_l. destruct rest as [|x rest]; [done|].
    injection Hr as ->. done.
  - cbn in Hd. apply andb_true_iff in Hd as [Hc Hd].
    rewrite string_app_cons. cbn. rewrite Hc.
    destruct (IH Hd) as [-> ->]. done.
Qed.

Lemma matchAllLongInt_skip (a : bool) (prev : option ascii) (skip : nat) (s : string) :
  (String.length s <= skip)%nat -> matchAllLongInt a prev skip s = [].
Proof.
  revert prev skip. induction s as [|c s IH]; intros prev skip H; [done|].
  cbn in H. destruct skip as [|skip]; [lia|]. cbn. apply IH. lia.
Qed.

Lemma isDigit_wordChar (c : ascii) : isDigit c = true -> isWordChar c = true.
Proof. unfold isWordChar. by intros ->. Qed.

Lemma matchAllLongInt_longInt (a : bool) (digits : string) :
  digits <> "" -> allChars isDigit digits = true ->
  matchAllLongInt a None 0 (digits +:+ "L") = [digits +:+ "L"].
Proof.
  intros Hne Hd. destruct digits as [|c d]; [done|].
  pose proof (spanDigits_digits (String c d) "L" Hd eq_refl) as [Hspan Hdrop].
  rewrite string_app_cons in *. cbn [matchAllLongInt].
  unfold longIntAt. rewrite Hspan, Hdrop. cbn [String.length].
  cbn in Hd. apply andb_true_iff in Hd as [Hc Hd].
  unfold wordBoundary. cbn [headChar isWordOpt]. rewrite (isDigit_wordChar c Hc).
  cbn [xorb negb orb andb].
  replace (negb a || (0 <? S (String.length d))%nat) with true by (by destruct a).
  cbn [andb].
  replace (isWordChar "L") with true by (by vm_compute).
  cbn [xorb negb]. replace (S (S (String.length d)) - 1)%nat with (S (String.length d)) by lia.
  rewrite matchAllLongInt_skip.
  2:{ rewrite string_app_length. cbn. lia. }
  f_equal. cbn [String.substring]. f_equal.
  pose proof (substring_all (d +:+ "L")) as Hall.
  rewrite string_app_length in Hall. cbn in Hall.
  by rewrite Nat.add_1_r in Hall.
Qed.

Lemma removeLB_longInt (digits : string) :
  allChars isDigit digits = true -> removeLB (digits +:+ "L") = digits.
Proof.
  induction digits as [|c d IH]; [done|]. cbn [allChars].
  rewrite andb_true_iff. intros [Hc Hd]. rewrite string_app_cons. cbn [removeLB].
  assert (Ascii.eqb c "L" = false) as ->.
  { destruct (Ascii.eqb_spec c "L") as [->|]; done. }
  cbn [andb]. by rewrite IH.
Qed.

Lemma hasBoundaryDigits_digit (c : ascii) (s : string) :
  isDigit c = true -> hasBoundaryDigits None (String c s) = true.
Proof. intros H. cbn. by rewrite H. Qed.

Lemma isIdentifier_longInt (digits : string) :
  digits <> "" -> allChars isDigit digits = true -> isIdentifier (digits +:+ "L") = false.
Proof.
  intros Hne Hd. destruct digits as [|c d]; [done|].
  cbn in Hd. apply andb_true_iff in Hd as [Hc _].
  unfold isIdentifier. rewrite string_app_cons. by rewrite hasBoundaryDigits_digit.
Qed.

Lemma isIdentifier_backtick (token : string) :
  includesChar "`" token = true -> isIdentifier token = false.
Proof.
  intros H. unfold isIdentifier. rewrite H. cbn.
  by rewrite !andb_false_r.
Qed.

(** ** Rewriting of single tokens *)

Lemma tokenAt_lookup (tokens : list string) (n : nat) (t : string) :
  tokens !! n = Some t -> tokenAt tokens (Z.of_nat n) = t.
Proof.
  intros H. unfold tokenAt.
  destruct (Z.ltb_spec (Z.of_nat n) 0); [lia|]. by rewrite Nat2Z.id, H.
Qed.

(** A custom property whose second next token starts with [datetime]. *)
Lemma transformToken_datetime_property (tokens : list string) (i : nat)
    (previousIsOp : bool) (t next : string) :
  isIdentifier t = true ->
  entitySystemProperties !! t = None ->
  tokens !! (i + 2)%nat = Some next ->
  startsWith "datetime" next = true ->
  transformToken entitySystemProperties true tokens (Z.of_nat i) previousIsOp t
  = Ok ("new Date(item.properties." +:+ t +:+ ").getTime() ").
Proof.
  intros Hid Hsys Hnext Hdt. unfold transformToken. rewrite Hid, Hsys.
  replace (Z.of_nat i + 2)%Z with (Z.of_nat (i + 2)) by lia.
  rewrite (tokenAt_lookup _ _ _ Hnext), Hdt.
  apply lookup_lt_Some in Hnext.
  destruct (Z.leb_spec (Z.of_nat (i + 2)) (Z.of_nat (length tokens) - 1)); [done|lia].
Qed.

Lemma datetime_literal_facts (body : string) :
  isIdentifier ("datetime`" +:+ body +:+ "`") = false
  /\ startsWith "datetime" ("datetime`" +:+ body +:+ "`") = true.
Proof.
  split.
  - apply isIdentifier_backtick. rewrite includesChar_app. reflexivity.
  - reflexivity.
Qed.

Lemma iso_body_facts (body : string) :
  allChars isoDateTimeChar body = true ->
  includesChar "L" body = false /\ includesChar "d" body = false.
Proof.
  intros H. split; (apply (allChars_excludes isoDateTimeChar); [by vm_compute | done]).
Qed.

(** A [datetime] literal next to a comparison operator. *)
Lemma transformToken_datetime_literal (sys : gmap string string) (allow : bool)
    (tokens : list string) (counter : Z) (body : string) :
  allChars isoDateTimeChar body = true ->
  transformToken sys allow tokens counter true ("datetime`" +:+ body +:+ "`")
  = Ok ("new Date(`" +:+ body +:+ "`).getTime() ").
Proof.
  intros Hiso. destruct (iso_body_facts body Hiso) as [HL Hd].
  destruct (datetime_literal_facts body) as [Hid Hdt].
  unfold transformToken. rewrite Hid, Hdt.
  rewrite matchAllLongInt_no_L.
  2:{ rewrite !includesChar_app, HL. done. }
  cbn [length Nat.eqb andb]. rewrite removeDatetime_literal by done.
  f_equal. rewrite !string_app_assoc. reflexivity.
Qed.

(** A token that follows no comparison operator is copied, unless it names a
    property. *)
Lemma transformToken_verbatim (sys : gmap string string) (allow : bool)
    (tokens : list string) (counter : Z) (token : string) :
  isIdentifier token = false ->
  transformToken sys allow tokens counter false token = Ok (token +:+ " ").
Proof. intros H. unfold transformToken. by rewrite H. Qed.

(** A long integer next to a comparison operator. *)
Lemma transformToken_longInt (sys : gmap string string) (allow : bool)
    (tokens : list string) (counter : Z) (digits : string) :
  digits <> "" -> allChars isDigit digits = true ->
  transformToken sys allow tokens counter true (digits +:+ "L")
  = Ok ("'" +:+ digits +:+ "' ").
Proof.
  intros Hne Hd. unfold transformToken.
  rewrite isIdentifier_longInt, matchAllLongInt_longInt, removeLB_longInt by done.
  cbn [length Nat.eqb andb]. f_equal. rewrite !string_app_assoc. reflexivity.
Qed.

Local Open Scope Z_scope.

(** ** The tokenizer: termination and tokens *)

(** The tokenizer never emits an empty token *)

Lemma appendToken_nonEmpty (query : string) (st : Scan) :
  tokensNonEmpty st -> tokensNonEmpty (appendToken query st).
Proof.
  unfold tokensNonEmpty, appendToken. intros H.
  destruct (0 <? cur st - tokenStart st); [|done].
  destruct (String.eqb_spec
              (if inString st
               then stringToken (substring query (tokenStart st) (cur st))
               else convertToken (substring query (tokenStart st) (cur st))) "")
    as [Heq|Hne]; [done|].
  cbn. apply Forall_app. split; [done|]. by apply Forall_singleton.
Qed.

Lemma scanStep_nonEmpty (query : string) (st : Scan) :
  tokensNonEmpty st -> tokensNonEmpty (scanStep query st).
Proof.
  intros H. unfold scanStep.
  destruct (inString st).
  - destruct (_ && _ && _); [done|].
    destruct (isChar "'" _); [|done]. by apply appendToken_nonEmpty.
  - destruct (isChar "(" (charAt query (cur st)) || isChar ")" (charAt query (cur st))) eqn:Ep.
    + destruct (charAt query (cur st)) as [d|]; [|done].
      unfold tokensNonEmpty. cbn. apply Forall_app. split; [|by apply Forall_singleton].
      apply (appendToken_nonEmpty query
               (setCur (if breaksBeforeParen query st then appendToken query st else st)
                       (cur st - 1))).
      unfold tokensNonEmpty. cbn.
      destruct (breaksBeforeParen query st); [by apply appendToken_nonEmpty | done].
    + destruct (match charAt query (cur st) with Some d => isSpace d | None => false end);
        [by apply appendToken_nonEmpty|].
      by destruct (isChar "'" _).
Qed.

Lemma scanLoop_nonEmpty (fuel : nat) (query : string) (st : Scan) :
  tokensNonEmpty st -> tokensNonEmpty (scanLoop fuel query st).
Proof.
  revert st. induction fuel as [|fuel IH]; intros st H; cbn; [done|].
  destruct (cur st <? strlen query); [|done].
  apply IH. by apply scanStep_nonEmpty.
Qed.

Lemma tokenizeQuery_nonEmpty (query : string) :
  Forall (fun t => t <> "") (tokenizeQuery query).
Proof.
  unfold tokenizeQuery. apply appendToken_nonEmpty, scanLoop_nonEmpty.
  by constructor.
Qed.

(** The loop has fuel enough: it stops because the end of the query has been
    reached. *)

Lemma appendToken_cur (query : string) (st : Scan) : cur (appendToken query st) = cur st.
Proof.
  unfold appendToken. destruct (0 <? _); [|done]. by destruct (String.eqb _ _).
Qed.

Lemma scanStep_cur (query : string) (st : Scan) : cur st <= cur (scanStep query st).
Proof.
  unfold scanStep. destruct (inString st).
  - destruct (_ && _ && _); [cbn; lia|].
    destruct (isChar "'" _); [|lia]. cbn [cur setInString]. rewrite appendToken_cur. lia.
  - destruct (isChar "(" _ || isChar ")" _); [cbn; lia|].
    destruct (match charAt query (cur st) with Some d => isSpace d | None => false end).
    + rewrite appendToken_cur. lia.
    + destruct (isChar "'" _); cbn; lia.
Qed.

Lemma scanLoop_done (fuel : nat) (query : string) (st : Scan) :
  strlen query - cur st <= Z.of_nat fuel ->
  strlen query <= cur (scanLoop fuel query st).
Proof.
  revert st. induction fuel as [|fuel IH]; intros st H; cbn [scanLoop].
  - lia.
  - destruct (Z.ltb_spec (cur st) (strlen query)); [|lia].
    apply IH. cbn. pose proof (scanStep_cur query st). lia.
Qed.

Lemma tokenizeQuery_scans_all (originalQuery : string) :
  let query := replaceAllChar "`" "\`" originalQuery in
  strlen query
  <= cur (scanLoop (String.length query) query
            {| cur := 0; tokenStart := 0; inString := false; tokens := [] |}).
Proof. intros query. apply scanLoop_done. unfold strlen. cbn. lia. Qed.

(** ** String primitives on concatenations *)

(** Reading a concatenation *)

Lemma get_app_l (a b : string) (j : nat) :
  (j < String.length a)%nat -> String.get j (a +:+ b) = String.get j a.
Proof. intros H. symmetry. by apply append_correct1. Qed.

Lemma get_app_r (a b : string) (j : nat) :
  String.get (String.length a + j) (a +:+ b) = String.get j b.
Proof. rewrite Nat.add_comm. symmetry. apply append_correct2. Qed.

Lemma allChars_get (p : ascii -> bool) (s : string) (j : nat) :
  allChars p s = true -> (j < String.length s)%nat ->
  exists c, String.get j s = Some c /\ p c = true.
Proof.
  revert j. induction s as [|c s IH]; intros j H Hj; cbn in *; [lia|].
  apply andb_true_iff in H as [Hc Hs].
  destruct j as [|j]; [by exists c|]. apply IH; [done|lia].
Qed.

Lemma charAt_app_l (a b : string) (j : Z) :
  0 <= j < strlen a -> charAt (a +:+ b) j = charAt a j.
Proof.
  unfold charAt, strlen. intros H. destruct (Z.ltb_spec j 0); [lia|].
  apply get_app_l. lia.
Qed.

Lemma charAt_app_r (a b : string) (j : Z) :
  0 <= j -> charAt (a +:+ b) (strlen a + j) = charAt b j.
Proof.
  unfold charAt, strlen. intros H.
  destruct (Z.ltb_spec (Z.of_nat (String.length a) + j) 0); [lia|].
  destruct (Z.ltb_spec j 0); [lia|].
  replace (Z.to_nat (Z.of_nat (String.length a) + j))
    with (String.length a + Z.to_nat j)%nat by lia.
  apply get_app_r.
Qed.

Lemma charAt_allChars (p : ascii -> bool) (s : string) (j : Z) :
  allChars p s = true -> 0 <= j < strlen s ->
  exists c, charAt s j = Some c /\ p c = true.
Proof.
  unfold charAt, strlen. intros H Hj. destruct (Z.ltb_spec j 0); [lia|].
  apply allChars_get; [done|lia].
Qed.

Lemma strlen_app (a b : string) : strlen (a +:+ b) = strlen a + strlen b.
Proof. unfold strlen. rewrite string_app_length. lia. Qed.

Lemma strlen_nonneg (a : string) : 0 <= strlen a.
Proof. unfold strlen. lia. Qed.

Lemma substring_prefix (a b : string) :
  String.substring 0 (String.length a) (a +:+ b) = a.
Proof.
  induction a as [|c a IH]; [by destruct b|].
  rewrite string_app_cons. cbn. by rewrite IH.
Qed.

Lemma js_substring_prefix (a b : string) : substring (a +:+ b) 0 (strlen a) = a.
Proof.
  unfold substring, clamp. rewrite strlen_app.
  pose proof (strlen_nonneg a). pose proof (strlen_nonneg b).
  replace (Z.to_nat (Z.max 0 (Z.min 0 (strlen a + strlen b)))) with 0%nat by lia.
  replace (Z.to_nat (Z.max 0 (Z.min (strlen a) (strlen a + strlen b))))
    with (String.length a) by (unfold strlen in *; lia).
  rewrite Nat.min_0_l, Nat.max_0_l, Nat.sub_0_r. apply substring_prefix.
Qed.

Lemma js_substringFrom_suffix (a b : string) : substringFrom (a +:+ b) (strlen a) = b.
Proof.
  unfold substringFrom, substring, clamp. rewrite strlen_app.
  pose proof (strlen_nonneg a). pose proof (strlen_nonneg b).
  replace (Z.to_nat (Z.max 0 (Z.min (strlen a) (strlen a + strlen b))))
    with (String.length a) by (unfold strlen in *; lia).
  replace (Z.to_nat (Z.max 0 (Z.min (strlen a + strlen b) (strlen a + strlen b))))
    with (String.length a + String.length b)%nat by (unfold strlen in *; lia).
  replace (Nat.min (String.length a) (String.length a + String.length b))
    with (String.length a) by lia.
  replace (Nat.max (String.length a) (String.length a + String.length b) - String.length a)%nat
    with (String.length b) by lia.
  apply substring_app_r.
Qed.

Lemma substring_middle (a x b : string) :
  String.substring (String.length a) (String.length x) (a +:+ x +:+ b) = x.
Proof.
  induction a as [|c a IH].
  - rewrite string_app_nil_l. apply substring_prefix.
  - rewrite string_app_cons. cbn. apply IH.
Qed.

Lemma js_substring_middle (a x b : string) :
  substring (a +:+ x +:+ b) (strlen a) (strlen a + strlen x) = x.
Proof.
  unfold substring, clamp. rewrite !strlen_app.
  pose proof (strlen_nonneg a). pose proof (strlen_nonneg x). pose proof (strlen_nonneg b).
  replace (Z.to_nat (Z.max 0 (Z.min (strlen a) (strlen a + (strlen x + strlen b)))))
    with (String.length a) by (unfold strlen in *; lia).
  replace (Z.to_nat (Z.max 0 (Z.min (strlen a + strlen x) (strlen a + (strlen x + strlen b)))))
    with (String.length a + String.length x)%nat by (unfold strlen in *; lia).
  replace (Nat.min (String.length a) (String.length a + String.length x))
    with (String.length a) by lia.
  replace (Nat.max (String.length a) (String.length a + String.length x) - String.length a)%nat
    with (String.length x) by lia.
  apply substring_middle.
Qed.

Lemma charAt_head (s : string) : charAt s 0 = headChar s.
Proof. by destruct s. Qed.

(** Escaping and unescaping leave a text without backticks and without
    doubled quotes as it is. *)

Lemma replaceAllChar_absent (c : ascii) (rep s : string) :
  includesChar c s = false -> replaceAllChar c rep s = s.
Proof.
  induction s as [|d s IH]; cbn; [done|].
  rewrite orb_false_iff. intros [-> H]. by rewrite IH.
Qed.

Lemma replaceAllPair_absent (c : ascii) (rep s : string) :
  includesChar c s = false -> replaceAllPair c rep s = s.
Proof.
  induction s as [|d s IH]; [done|]. cbn [includesChar].
  rewrite orb_false_iff. intros [Hd H]. cbn [replaceAllPair].
  destruct s as [|e s']; [done|]. rewrite Hd. cbn [andb]. by rewrite IH.
Qed.

Lemma replaceAllPair_literal (p body : string) :
  includesChar "'" p = false -> includesChar "'" body = false ->
  replaceAllPair "'" "'" (p +:+ "'" +:+ body) = p +:+ "'" +:+ body.
Proof.
  intros Hp Hb. induction p as [|d p IH].
  - rewrite string_app_nil_l. change ("'" +:+ body) with (String "'" body).
    cbn [replaceAllPair]. destruct body as [|e body]; [done|].
    cbn [includesChar] in Hb. apply orb_false_iff in Hb as [He Hb'].
    rewrite He. rewrite andb_false_r.
    rewrite replaceAllPair_absent; [done|]. cbn [includesChar]. by rewrite He, Hb'.
  - cbn [includesChar] in Hp. apply orb_false_iff in Hp as [Hd Hp].
    rewrite string_app_cons. cbn [replaceAllPair].
    destruct (p +:+ "'" +:+ body) as [|e rest] eqn:E.
    + by destruct p.
    + rewrite Hd. cbn [andb]. by rewrite IH.
Qed.

Lemma indexOfChar_literal (p rest : string) :
  includesChar "'" p = false ->
  indexOfChar "'" (p +:+ String "'" rest) = strlen p.
Proof.
  intros Hp. induction p as [|d p IH]; [done|].
  cbn [includesChar] in Hp. apply orb_false_iff in Hp as [Hd Hp].
  rewrite string_app_cons. cbn [indexOfChar]. rewrite Hd, (IH Hp).
  pose proof (strlen_nonneg p).
  destruct (Z.ltb_spec (strlen p) 0); [lia|]. unfold strlen. cbn. lia.
Qed.

(** [stringToken] on a quoted literal with a type prefix. *)
Lemma stringToken_literal (p body : string) :
  includesChar "'" p = false -> includesChar "'" body = false ->
  stringToken (p +:+ "'" +:+ body) =
  if String.eqb p "guid" then "`" +:+ body +:+ "`"
  else p +:+ "`" +:+ body +:+ "`".
Proof.
  intros Hp Hb. unfold stringToken.
  rewrite replaceAllPair_literal by done.
  change ("'" +:+ body) with (String "'" body).
  rewrite indexOfChar_literal by done.
  rewrite js_substring_prefix.
  replace (p +:+ String "'" body) with ((p +:+ "'") +:+ body)
    by (by rewrite string_app_assoc).
  replace (strlen p + 1) with (strlen (p +:+ "'")) by (rewrite strlen_app; done).
  rewrite js_substringFrom_suffix. done.
Qed.

(** ** The tokenizer on a prefixed literal *)

(** Running the scanning loop over characters that change nothing *)

Lemma setCur_same (st : Scan) : setCur st (cur st) = st.
Proof. by destruct st. Qed.

Lemma setCur_setCur (st : Scan) (a b : Z) : setCur (setCur st a) b = setCur st b.
Proof. done. Qed.

Lemma scanLoop_skip (query : string) (n : nat) :
  forall (fuel : nat) (st : Scan),
    (forall j : Z, 0 <= j < Z.of_nat n ->
       scanStep query (setCur st (cur st + j)) = setCur st (cur st + j)) ->
    cur st + Z.of_nat n <= strlen query ->
    (n <= fuel)%nat ->
    scanLoop fuel query st
    = scanLoop (fuel - n) query (setCur st (cur st + Z.of_nat n)).
Proof.
  induction n as [|n IH]; intros fuel st Hstep Hlen Hfuel.
  - rewrite Nat.sub_0_r. cbn [Z.of_nat]. by rewrite Z.add_0_r, setCur_same.
  - destruct fuel as [|fuel]; [lia|]. cbn [scanLoop].
    destruct (Z.ltb_spec (cur st) (strlen query)); [|lia].
    pose proof (Hstep 0 ltac:(lia)) as H0. rewrite Z.add_0_r, setCur_same in H0.
    rewrite H0. rewrite (IH fuel (setCur st (cur st + 1))).
    + cbn [cur setCur]. rewrite setCur_setCur. cbn [Nat.sub]. f_equal. f_equal. lia.
    + intros j Hj. cbn [cur setCur]. rewrite !setCur_setCur.
      replace (cur st + 1 + j) with (cur st + (1 + j)) by lia. apply Hstep. lia.
    + cbn [cur setCur]. lia.
    + lia.
Qed.

Lemma scanStep_plain (query : string) (st : Scan) (c : ascii) :
  inString st = false -> charAt query (cur st) = Some c -> plainChar c = true ->
  scanStep query st = st.
Proof.
  intros Hin Hc Hp. unfold scanStep. rewrite Hin, Hc. unfold plainChar in Hp.
  apply andb_true_iff in Hp as [Hp Hs]. apply andb_true_iff in Hp as [Hp Hr].
  apply andb_true_iff in Hp as [Hq Hl].
  apply negb_true_iff in Hq, Hl, Hr, Hs. unfold isChar.
  rewrite (Ascii.eqb_sym "(" c), (Ascii.eqb_sym ")" c), (Ascii.eqb_sym "'" c).
  by rewrite Hl, Hr, Hs, Hq.
Qed.

Lemma scanStep_inside (query : string) (st : Scan) (c : ascii) :
  inString st = true -> charAt query (cur st) = Some c -> notQuote c = true ->
  scanStep query st = st.
Proof.
  intros Hin Hc Hp. unfold scanStep. rewrite Hin, Hc.
  apply negb_true_iff in Hp. unfold isChar. rewrite (Ascii.eqb_sym "'" c), Hp.
  by rewrite andb_false_r.
Qed.

Lemma wordChar_plain (c : ascii) : isWordChar c = true -> plainChar c = true.
Proof.
  destruct c as [[] [] [] [] [] [] [] []]; vm_compute; congruence.
Qed.

Lemma wordChars_no (c : ascii) (s : string) :
  isWordChar c = false -> allChars isWordChar s = true -> includesChar c s = false.
Proof. apply allChars_excludes. Qed.

Lemma notQuoteNorBacktick_facts (s : string) :
  allChars notQuoteNorBacktick s = true ->
  includesChar "'" s = false /\ includesChar "`" s = false /\ allChars notQuote s = true.
Proof.
  intros H. split_and!.
  - by apply (allChars_excludes notQuoteNorBacktick).
  - by apply (allChars_excludes notQuoteNorBacktick).
  - induction s as [|c s IH]; [done|]. cbn in *.
    apply andb_true_iff in H as [Hc Hs]. rewrite (IH Hs), andb_true_r.
    unfold notQuoteNorBacktick in Hc. unfold notQuote.
    by apply andb_true_iff in Hc as [-> _].
Qed.

Lemma scanLoop_step (fuel : nat) (query : string) (st : Scan) :
  cur st < strlen query ->
  scanLoop (S fuel) query st
  = scanLoop fuel query (setCur (scanStep query st) (cur (scanStep query st) + 1)).
Proof. intros H. cbn [scanLoop]. by destruct (Z.ltb_spec (cur st) (strlen query)); [|lia]. Qed.

Lemma scanStep_open (query : string) (st : Scan) :
  inString st = false -> charAt query (cur st) = Some "'"%char ->
  scanStep query st = setInString st true.
Proof. intros Hin Hc. unfold scanStep. by rewrite Hin, Hc. Qed.

Lemma scanStep_close_before (query : string) (st : Scan) :
  inString st = true -> charAt query (cur st) = Some "'"%char ->
  isChar "'" (charAt query (cur st + 1)) = false ->
  scanStep query st = setInString (appendToken query st) false.
Proof.
  intros Hin Hc Hnext. unfold scanStep. rewrite Hin, Hc, Hnext.
  by rewrite andb_false_r.
Qed.

Lemma stringToken_nonEmpty (p body : string) :
  includesChar "'" p = false -> includesChar "'" body = false ->
  stringToken (p +:+ "'" +:+ body) <> "".
Proof.
  intros Hp Hb. rewrite stringToken_literal by done.
  destruct (String.eqb p "guid"); intros H; apply (f_equal String.length) in H;
    rewrite !string_app_length in H; cbn in H; lia.
Qed.

(** The scanning loop at the start of a quoted literal with a type prefix,
    with no text pending: it appends the token of the literal and stands
    behind the closing quote, whatever comes before and after the literal
    (a quote apart, which would double the closing one). *)
Lemma scanLoop_literal (pre post p body : string) (st : Scan) (fuel : nat) :
  allChars isWordChar p = true ->
  allChars notQuote body = true ->
  isChar "'" (headChar post) = false ->
  cur st = strlen pre -> tokenStart st = strlen pre -> inString st = false ->
  (String.length (p +:+ "'" +:+ body +:+ "'") <= fuel)%nat ->
  scanLoop fuel (pre +:+ (p +:+ "'" +:+ body +:+ "'") +:+ post) st
  = scanLoop (fuel - String.length (p +:+ "'" +:+ body +:+ "'"))
      (pre +:+ (p +:+ "'" +:+ body +:+ "'") +:+ post)
      {| cur := strlen pre + strlen (p +:+ "'" +:+ body +:+ "'");
         tokenStart := strlen pre + strlen (p +:+ "'" +:+ body +:+ "'");
         inString := false;
         tokens := tokens st ++ [stringToken (p +:+ "'" +:+ body)] |}.
Proof.
  intros Hp Hbn Hpost Hcur Hts Hin Hfuel.
  assert (Hbq : includesChar "'" body = false)
    by (by apply (allChars_excludes notQuote)).
  assert (Hpq : includesChar "'" p = false) by (by apply wordChars_no).
  set (lit := p +:+ "'" +:+ body +:+ "'") in *.
  set (query := pre +:+ lit +:+ post).
  pose proof (strlen_nonneg pre) as Hk0.
  remember (strlen pre) as k eqn:Ek in *.
  pose proof (strlen_nonneg p) as Hp0. pose proof (strlen_nonneg body) as Hb0.
  pose proof (strlen_nonneg post) as Hpost0.
  assert (Hlit : strlen lit = strlen p + strlen body + 2).
  { subst lit. rewrite !strlen_app. change (strlen "'") with 1. lia. }
  assert (HlitN : String.length lit = (String.length p + S (S (String.length body)))%nat).
  { unfold strlen in Hlit. lia. }
  assert (Hlen : strlen query = k + strlen lit + strlen post).
  { subst query k. rewrite !strlen_app. lia. }
  assert (Hq : forall j, 0 <= j -> charAt query (k + j) = charAt (lit +:+ post) j).
  { intros j Hj. subst query k. by rewrite charAt_app_r. }
  assert (Hl : forall j, 0 <= j < strlen lit -> charAt query (k + j) = charAt lit j).
  { intros j Hj. rewrite Hq by lia. by rewrite charAt_app_l. }
  assert (Hbody : forall j, 0 <= j <= strlen body ->
            charAt query (k + (strlen p + 1 + j)) = charAt (body +:+ "'") j).
  { intros j Hj. rewrite Hl by lia. subst lit.
    replace (strlen p + 1 + j) with (strlen p + (strlen "'" + j))
      by (change (strlen "'") with 1; lia).
    rewrite charAt_app_r by (change (strlen "'") with 1; lia).
    change ("'" +:+ body +:+ "'") with ("'" +:+ (body +:+ "'")).
    rewrite charAt_app_r by lia. done. }
  destruct st as [c0 t0 i0 toks]. cbn [cur tokenStart inString tokens] in *. subst c0 t0 i0.
  set (st0 := {| cur := k; tokenStart := k; inString := false; tokens := toks |}).
  set (st1 := {| cur := k + strlen p; tokenStart := k; inString := false; tokens := toks |}).
  set (st2 := {| cur := k + strlen p + 1; tokenStart := k; inString := true; tokens := toks |}).
  set (st3 := {| cur := k + strlen p + 1 + strlen body; tokenStart := k; inString := true;
                 tokens := toks |}).
  (* the type prefix *)
  rewrite (scanLoop_skip query (String.length p)).
  2:{ intros j Hj.
      destruct (charAt_allChars isWordChar p j Hp) as (c & Hc & Hw);
        [unfold strlen; lia|].
      eapply scanStep_plain; [done| |by apply wordChar_plain].
      cbn [cur setCur st0]. rewrite Hl by (unfold strlen in *; lia).
      subst lit. rewrite charAt_app_l; [done|unfold strlen; lia]. }
  2:{ cbn [cur st0]. unfold strlen in *. lia. }
  2:{ lia. }
  replace (setCur st0 (cur st0 + Z.of_nat (String.length p))) with st1
    by (subst st0 st1; unfold setCur, strlen; cbn; f_equal).
  rewrite HlitN.
  replace (fuel - String.length p)%nat
    with (S (String.length body + (S (fuel - (String.length p + S (S (String.length body)))))))
    by lia.
  (* the opening quote *)
  assert (Hopen : charAt query (cur st1) = Some "'"%char).
  { subst st1. cbn [cur]. rewrite Hl by lia. subst lit.
    rewrite <- (Z.add_0_r (strlen p)). rewrite charAt_app_r by lia. done. }
  rewrite scanLoop_step by (subst st1; cbn [cur]; lia).
  rewrite (scanStep_open query st1 eq_refl Hopen).
  replace (setCur (setInString st1 true) (cur (setInString st1 true) + 1)) with st2
    by (subst st1 st2; reflexivity).
  (* the body *)
  rewrite (scanLoop_skip query (String.length body)).
  2:{ intros j Hj.
      destruct (charAt_allChars notQuote body j Hbn) as (c & Hc & Hw);
        [unfold strlen; lia|].
      eapply scanStep_inside; [done| |done].
      cbn [cur setCur st2].
      replace (k + strlen p + 1 + j) with (k + (strlen p + 1 + j)) by lia.
      rewrite Hbody by (unfold strlen in *; lia).
      rewrite charAt_app_l; [done|unfold strlen; lia]. }
  2:{ cbn [cur st2]. unfold strlen in *. lia. }
  2:{ lia. }
  replace (setCur st2 (cur st2 + Z.of_nat (String.length body))) with st3
    by (subst st2 st3; unfold setCur, strlen; cbn; f_equal).
  replace (String.length body + S (fuel - (String.length p + S (S (String.length body))))
           - String.length body)%nat
    with (S (fuel - (String.length p + S (S (String.length body))))) by lia.
  (* the closing quote *)
  assert (Hclose : charAt query (cur st3) = Some "'"%char).
  { subst st3. cbn [cur].
    replace (k + strlen p + 1 + strlen body) with (k + (strlen p + 1 + strlen body)) by lia.
    rewrite Hbody by lia.
    rewrite <- (Z.add_0_r (strlen body)). rewrite charAt_app_r by lia. done. }
  assert (Hafter : isChar "'" (charAt query (cur st3 + 1)) = false).
  { subst st3. cbn [cur].
    replace (k + strlen p + 1 + strlen body + 1) with (k + (strlen lit + 0)) by lia.
    rewrite Hq by lia. rewrite charAt_app_r by lia. by rewrite charAt_head. }
  rewrite scanLoop_step by (subst st3; cbn [cur]; lia).
  rewrite (scanStep_close_before query st3 eq_refl Hclose Hafter).
  assert (Hraw : substring query k (k + strlen p + 1 + strlen body) = p +:+ "'" +:+ body).
  { subst query lit k.
    replace (pre +:+ (p +:+ "'" +:+ body +:+ "'") +:+ post)
      with (pre +:+ (p +:+ "'" +:+ body) +:+ ("'" +:+ post))
      by (by rewrite !string_app_assoc).
    replace (strlen pre + strlen p + 1 + strlen body)
      with (strlen pre + strlen (p +:+ "'" +:+ body))
      by (rewrite !strlen_app; change (strlen "'") with 1; lia).
    apply js_substring_middle. }
  assert (Htok : String.eqb (stringToken (p +:+ "'" +:+ body)) "" = false).
  { apply String.eqb_neq. by apply stringToken_nonEmpty. }
  f_equal. unfold appendToken. subst st3.
  cbn [cur tokenStart inString tokens].
  destruct (Z.ltb_spec 0 (k + strlen p + 1 + strlen body - k)); [|lia].
  rewrite Hraw, Htok.
  unfold setCur, setInString, setTokenStart, pushToken.
  cbn [cur tokenStart inString tokens]. rewrite Hlit. f_equal; lia.
Qed.

(** A query that is one quoted literal with a type prefix. *)
Lemma tokenizeQuery_literal (p body : string) :
  allChars isWordChar p = true ->
  allChars notQuoteNorBacktick body = true ->
  tokenizeQuery (p +:+ "'" +:+ body +:+ "'")
  = [if String.eqb p "guid" then "`" +:+ body +:+ "`" else p +:+ "`" +:+ body +:+ "`"].
Proof.
  intros Hp Hbody.
  destruct (notQuoteNorBacktick_facts body Hbody) as (Hbq & Hbb & Hbn).
  assert (Hpq : includesChar "'" p = false) by (by apply wordChars_no).
  assert (Hpb : includesChar "`" p = false) by (by apply wordChars_no).
  unfold tokenizeQuery.
  rewrite replaceAllChar_absent.
  2:{ rewrite !includesChar_app, Hpb, Hbb. done. }
  set (lit := p +:+ "'" +:+ body +:+ "'").
  pose proof (scanLoop_literal "" "" p body
                {| cur := 0; tokenStart := 0; inString := false; tokens := [] |}
                (String.length lit) Hp Hbn eq_refl eq_refl eq_refl eq_refl (Nat.le_refl _))
    as Hrun.
  rewrite string_app_nil_l, string_app_nil_r in Hrun. fold lit in Hrun.
  rewrite Hrun, Nat.sub_diag. cbn [scanLoop].
  rewrite stringToken_literal by done.
  unfold appendToken. cbn [cur tokenStart inString tokens setTokenStart app].
  destruct (Z.ltb_spec 0 (strlen "" + strlen lit - (strlen "" + strlen lit))); [lia|].
  done.
Qed.

(** ** Merge beside update, and the undo logs outside a batch *)

Lemma beginBatchTransaction_throws (batchId : string) (st : Store) :
  (beginBatchTransaction batchId st).1 = st
  /\ ((beginBatchTransaction batchId st).2 = Throw TransactionOverlap
      <-> transactionRollbackTheseEntities st <> []
          \/ transactionDeleteTheseEntities st <> [])
  /\ ((beginBatchTransaction batchId st).2 = Ok tt
      <-> transactionRollbackTheseEntities st = []
          /\ transactionDeleteTheseEntities st = []).
Proof.
  rewrite beginBatchTransaction_run.
  destruct (transactionRollbackTheseEntities st), (transactionDeleteTheseEntities st);
    cbn; split_and!; try done; split; try done; intuition congruence.
Qed.

Section UndoLogs.
Variable getTimestampString : Z -> string.

Lemma insertTableEntity_no_batch (st : Store) (tbl acc : string) (e : Entity) :
  transactionDeleteTheseEntities
    (insertTableEntity getTimestampString tbl acc e None st).1
  = transactionDeleteTheseEntities st.
Proof.
  unfold insertTableEntity, getEntityCollection. run_op.
  destruct (hasTable acc tbl st); [|done].
  destruct (collections st !! getTableCollectionName acc tbl) as [c|]; [|done].
  by destruct (Loki.findOne (PartitionKey e) (RowKey e) c).
Qed.

Lemma afterLogging_undefined (doc : Doc) (st : Store) :
  transactionRollbackTheseEntities (afterLogging None doc st)
  = transactionRollbackTheseEntities st ++ [doc].
Proof. reflexivity. Qed.

(** C3.  With both undo logs empty, an update or a merge of an existing entity
    with [batchId] undefined, which no batch has begun, leaves the pre-image in
    the rollback log, and [beginBatchTransaction], which returned before,
    throws [TransactionOverlap] after it; an insert with [batchId] undefined
    logs nothing.  [beginBatchTransaction] itself changes nothing and throws
    [TransactionOverlap] exactly when one of the logs is non-empty. *)
Theorem rollback_log_fills_outside_batch (st : Store) (tbl acc : string) (e : Entity)
    (ifMatch : option string) (coll : Loki.Collection) (doc : Doc) :
  hasTable acc tbl st = true ->
  collections st !! getTableCollectionName acc tbl = Some coll ->
  Loki.findOne (PartitionKey e) (RowKey e) coll = Some doc ->
  transactionRollbackTheseEntities st = [] ->
  transactionDeleteTheseEntities st = [] ->
  let upd := updateTableEntity getTimestampString tbl acc e ifMatch None st in
  let mrg := mergeTableEntity tbl acc e ifMatch None st in
  transactionRollbackTheseEntities upd.1 = [doc]
  /\ transactionRollbackTheseEntities mrg.1 = [doc]
  /\ (forall batchId,
        beginBatchTransaction batchId st = (st, Ok tt)
        /\ (beginBatchTransaction batchId upd.1).2 = Throw TransactionOverlap
        /\ (beginBatchTransaction batchId mrg.1).2 = Throw TransactionOverlap)
  /\ (forall inserted,
        transactionDeleteTheseEntities
          (insertTableEntity getTimestampString tbl acc inserted None st).1 = [])
  /\ (forall batchId s,
        (beginBatchTransaction batchId s).1 = s
        /\ ((beginBatchTransaction batchId s).2 = Throw TransactionOverlap
            <-> transactionRollbackTheseEntities s <> []
                \/ transactionDeleteTheseEntities s <> [])
        /\ ((beginBatchTransaction batchId s).2 = Ok tt
            <-> transactionRollbackTheseEntities s = []
                /\ transactionDeleteTheseEntities s = [])).
Proof.
  intros Ht Hc Hf Hr Hd upd mrg.
  assert (Hu : transactionRollbackTheseEntities upd.1 = [doc]).
  { subst upd. rewrite (updateTableEntity_run _ _ _ _ _ _ _ _ _ Ht Hc Hf).
    destruct (etagMatches _ _); cbn; by rewrite Hr. }
  assert (Hm : transactionRollbackTheseEntities mrg.1 = [doc]).
  { subst mrg. rewrite (mergeTableEntity_run _ _ _ _ _ _ _ _ Ht Hc Hf).
    destruct (etagMatches _ _); cbn; by rewrite Hr. }
  split_and!; [done | done | | |].
  - intros batchId. rewrite !beginBatchTransaction_run, Hu, Hm, Hr, Hd. done.
  - intros inserted. by rewrite insertTableEntity_no_batch.
  - intros batchId s. apply beginBatchTransaction_throws.
Qed.

(** C2.  A successful merge into an existing entity returns and stores the
    merged record: every incoming key that is not a type tag has its incoming
    value, and its type tag is the incoming tag when that is defined and is
    absent otherwise; every other stored property is retained.  [Timestamp] is
    not recomputed: the merged record takes [lastModifiedTime] from the
    request, but its [Timestamp] is the one the request carries, if any, and
    the stored one otherwise, whereas the same request as an update stores
    [getTimestampString] of its [lastModifiedTime], tagged [Edm.DateTime]. *)
Theorem merge_keeps_stored_timestamp (st : Store) (tbl acc : string) (e : Entity)
    (ifMatch batchId : option string) (coll : Loki.Collection) (doc : Doc) :
  hasTable acc tbl st = true ->
  collections st !! getTableCollectionName acc tbl = Some coll ->
  Loki.findOne (PartitionKey e) (RowKey e) coll = Some doc ->
  etagMatches (eTag (entity doc)) ifMatch = true ->
  let mrg := mergeTableEntity tbl acc e ifMatch batchId st in
  let upd := updateTableEntity getTimestampString tbl acc e ifMatch batchId st in
  exists merged updated,
    mrg.2 = Ok merged
    /\ upd.2 = Ok updated
    /\ collections mrg.1 !! getTableCollectionName acc tbl
       = Some (Loki.update merged coll)
    /\ (forall k v, properties e !! k = Some v -> endsWith ODATA_TYPE k = false ->
          properties (entity merged) !! k = Some v
          /\ properties (entity merged) !! (k +:+ ODATA_TYPE) = tagOf (properties e) k)
    /\ (forall q,
          (properties e !! q = None \/ endsWith ODATA_TYPE q = true) ->
          (forall k, is_Some (properties e !! k) -> endsWith ODATA_TYPE k = false ->
                     q <> k +:+ ODATA_TYPE) ->
          properties (entity merged) !! q = properties (entity doc) !! q)
    /\ lastModifiedTime (entity merged) = lastModifiedTime e
    /\ properties (entity merged) !! "Timestamp"
       = match properties e !! "Timestamp" with
         | Some v => Some v
         | None => properties (entity doc) !! "Timestamp"
         end
    /\ properties (entity updated) !! "Timestamp"
       = Some (VString (getTimestampString (lastModifiedTime e)))
    /\ properties (entity updated) !! "Timestamp@odata.type"
       = Some (VString "Edm.DateTime").
Proof.
  intros Ht Hc Hf He mrg upd. subst mrg upd.
  rewrite (updateTableEntity_run _ _ _ _ _ _ _ _ _ Ht Hc Hf).
  rewrite (mergeTableEntity_run _ _ _ _ _ _ _ _ Ht Hc Hf).
  rewrite He. cbn [fst snd].
  destruct (mergedDEntity_properties doc e) as [Hover Hkeep].
  eexists _, _. split_and!; try reflexivity.
  - cbn [collections setCollection]. by rewrite lookup_insert_eq.
  - exact Hover.
  - exact Hkeep.
  - destruct (properties e !! "Timestamp") as [v|] eqn:Ets.
    + by apply (Hover "Timestamp" v).
    + by apply merge_keeps_timestamp.
  - cbn. rewrite lookup_insert_ne by done. by rewrite lookup_insert_eq.
  - cbn. by rewrite lookup_insert_eq.
Qed.

End UndoLogs.

Local Close Scope Z_scope.

(** ** Date, guid and long literals; compilation failures *)

Lemma emits_intro (sys : gmap string string) (allow : bool) (tokens : list string)
    (i : nat) (token piece : string) :
  tokens !! i = Some token ->
  transformToken sys allow tokens (Z.of_nat i) (followsComparison tokens i) token = Ok piece ->
  emits sys allow tokens i piece.
Proof. intros H1 H2. by exists token. Qed.

Lemma emits_functional (sys : gmap string string) (allow : bool) (tokens : list string)
    (i : nat) (piece piece' : string) :
  emits sys allow tokens i piece -> emits sys allow tokens i piece' -> piece = piece'.
Proof. intros (t & Ht & H) (t' & Ht' & H'). congruence. Qed.

(** C7, amended.  In an entity query, a property name that is not a system
    property and whose token two places on starts with [datetime] is emitted
    as the millisecond value of the record's entry in [properties] parsed as a
    date; a system property ([PartitionKey], [RowKey]) is emitted as the
    record's own field, whatever follows it.  A [datetime] literal with an
    ISO 8601 body directly after a comparison operator is emitted as the
    millisecond value parsed from its quoted body, and a [datetime] literal
    anywhere else is emitted as it is.  What is emitted for the tokens, in
    order, between [return (] and [)], is the text the rewriter returns. *)
Theorem datetime_rewriting (tokens : list string) (i : nat) :
  (forall t next,
     tokens !! i = Some t ->
     isIdentifier t = true ->
     entitySystemProperties !! t = None ->
     tokens !! (i + 2)%nat = Some next ->
     startsWith "datetime" next = true ->
     emits entitySystemProperties true tokens i
       ("new Date(item.properties." +:+ t +:+ ").getTime() "))
  /\ (forall t field,
     tokens !! i = Some t ->
     isIdentifier t = true ->
     entitySystemProperties !! t = Some field ->
     emits entitySystemProperties true tokens i ("item." +:+ field +:+ " "))
  /\ (forall body,
     tokens !! i = Some ("datetime`" +:+ body +:+ "`") ->
     allChars isoDateTimeChar body = true ->
     followsComparison tokens i = true ->
     emits entitySystemProperties true tokens i
       ("new Date(`" +:+ body +:+ "`).getTime() "))
  /\ (forall body,
     tokens !! i = Some ("datetime`" +:+ body +:+ "`") ->
     followsComparison tokens i = false ->
     emits entitySystemProperties true tokens i (("datetime`" +:+ body +:+ "`") +:+ " "))
  /\ (forall query out,
     transformEntityQuery query = Ok out ->
     exists pieces,
       length pieces = length (tokenizeQuery query)
       /\ (forall j piece, pieces !! j = Some piece ->
             emits entitySystemProperties true (tokenizeQuery query) j piece)
       /\ out = "return ( " +:+ String.concat "" pieces +:+ ")").
Proof.
  split_and!; [| | | |intros query out; apply transformTokens_output,
                       tokenizeQuery_nonEmpty].
  - intros t next Ht Hid Hsys Hnext Hdt. eapply emits_intro; [done|].
    by eapply transformToken_datetime_property.
  - intros t field Ht Hid Hsys. eapply emits_intro; [done|].
    unfold transformToken. by rewrite Hid, Hsys.
  - intros body Ht Hiso Hop. eapply emits_intro; [done|]. rewrite Hop.
    by apply transformToken_datetime_literal.
  - intros body Ht Hop. eapply emits_intro; [done|]. rewrite Hop.
    apply transformToken_verbatim. apply datetime_literal_facts.
Qed.

Lemma datetime_rewriting_witness :
  let tokens := tokenizeQuery "When gt datetime'2024-01-01T00:00:00Z'" in
  emits entitySystemProperties true tokens 0 "new Date(item.properties.When).getTime() "
  /\ emits entitySystemProperties true tokens 2
       "new Date(`2024-01-01T00:00:00Z`).getTime() "
  /\ transformEntityQuery "When gt datetime'2024-01-01T00:00:00Z'"
     = Ok "return ( new Date(item.properties.When).getTime() > new Date(`2024-01-01T00:00:00Z`).getTime() )".
Proof.
  cbv zeta.
  pose proof (datetime_rewriting
                (tokenizeQuery "When gt datetime'2024-01-01T00:00:00Z'") 0) as (H0 & _).
  pose proof (datetime_rewriting
                (tokenizeQuery "When gt datetime'2024-01-01T00:00:00Z'") 2)
    as (_ & _ & H2 & _).
  split; [|split].
  - apply (H0 "When" "datetime`2024-01-01T00:00:00Z`"); reflexivity.
  - apply (H2 "2024-01-01T00:00:00Z"); reflexivity.
  - vm_compute. reflexivity.
Defined.

Lemma system_property_before_datetime :
  let tokens := tokenizeQuery "PartitionKey gt datetime'2024-01-01T00:00:00Z'" in
  tokens = ["PartitionKey"; ">"; "datetime`2024-01-01T00:00:00Z`"]
  /\ isIdentifier "PartitionKey" = true
  /\ emits entitySystemProperties true tokens 0 "item.PartitionKey "
  /\ ~ emits entitySystemProperties true tokens 0
         "new Date(item.properties.PartitionKey).getTime() ".
Proof.
  cbv zeta.
  assert (He : emits entitySystemProperties true
                 (tokenizeQuery "PartitionKey gt datetime'2024-01-01T00:00:00Z'") 0
                 "item.PartitionKey ").
  { exists "PartitionKey". split; vm_compute; reflexivity. }
  split_and!; [vm_compute; reflexivity | vm_compute; reflexivity | done |].
  intros H. pose proof (emits_functional _ _ _ _ _ _ He H). discriminate.
Qed.

(** C8.  The tokenizer turns [guid'V'] into the backtick string of [V] without
    the prefix, and keeps any other type prefix in front of the backtick
    string ([V] holding no quote): the scanning loop, standing at the start of
    such a literal with no text pending, appends this one token and stands
    behind the closing quote, whatever comes before the literal and whatever,
    a quote apart, comes after it; so a query that is the literal alone gives
    the token alone.  The rewriter emits a token of digits followed by [L]
    without the [L] and between single quotes when it directly follows a
    comparison operator, and as it is otherwise. *)
Theorem guid_and_long_literals :
  (forall pre post typePrefix body st fuel,
     allChars isWordChar typePrefix = true ->
     allChars notQuote body = true ->
     isChar "'" (headChar post) = false ->
     cur st = strlen pre -> tokenStart st = strlen pre -> inString st = false ->
     let literal := typePrefix +:+ "'" +:+ body +:+ "'" in
     (String.length literal <= fuel)%nat ->
     scanLoop fuel (pre +:+ literal +:+ post) st
     = scanLoop (fuel - String.length literal) (pre +:+ literal +:+ post)
         {| cur := strlen pre + strlen literal;
            tokenStart := strlen pre + strlen literal;
            inString := false;
            tokens := tokens st ++
              [if String.eqb typePrefix "guid" then "`" +:+ body +:+ "`"
               else typePrefix +:+ "`" +:+ body +:+ "`"] |})
  /\ (forall body,
     allChars notQuoteNorBacktick body = true ->
     tokenizeQuery ("guid'" +:+ body +:+ "'") = ["`" +:+ body +:+ "`"])
  /\ (forall typePrefix body,
     allChars isWordChar typePrefix = true ->
     typePrefix <> "guid" ->
     allChars notQuoteNorBacktick body = true ->
     tokenizeQuery (typePrefix +:+ "'" +:+ body +:+ "'")
     = [typePrefix +:+ "`" +:+ body +:+ "`"])
  /\ (forall systemProperties allowCustomProperties tokens i digits,
     digits <> "" ->
     allChars isDigit digits = true ->
     tokens !! i = Some (digits +:+ "L") ->
     (followsComparison tokens i = true ->
      emits systemProperties allowCustomProperties tokens i ("'" +:+ digits +:+ "' "))
     /\ (followsComparison tokens i = false ->
         emits systemProperties allowCustomProperties tokens i ((digits +:+ "L") +:+ " "))).
Proof.
  split_and!.
  - intros pre post p body st fuel Hp Hb Hpost Hcur Hts Hin literal Hfuel.
    subst literal. rewrite (scanLoop_literal pre post p body st fuel) by done.
    rewrite stringToken_literal; [done | by apply wordChars_no |].
    by apply (allChars_excludes notQuote).
  - intros body Hb. exact (tokenizeQuery_literal "guid" body eq_refl Hb).
  - intros p body Hp Hne Hb. rewrite (tokenizeQuery_literal p body Hp Hb).
    apply String.eqb_neq in Hne. by rewrite Hne.
  - intros sys allow tokens i digits Hne Hd Ht. split; intros Hop.
    + eapply emits_intro; [done|]. rewrite Hop. by apply transformToken_longInt.
    + eapply emits_intro; [done|]. rewrite Hop. apply transformToken_verbatim.
      by apply isIdentifier_longInt.
Qed.

Lemma guid_and_long_literals_witness :
  tokenizeQuery "guid'a1b2c3d4-0000-4000-8000-00000000abcd'"
  = ["`a1b2c3d4-0000-4000-8000-00000000abcd`"]
  /\ tokenizeQuery "datetime'2024-01-01T00:00:00Z'" = ["datetime`2024-01-01T00:00:00Z`"]
  /\ scanLoop 6 "Id eq guid'ab' and" {| cur := 0; tokenStart := 0; inString := false;
                                        tokens := [] |}
     = {| cur := 6; tokenStart := 6; inString := false; tokens := ["Id"; "==="] |}
  /\ scanLoop 8 "Id eq guid'ab' and" {| cur := 6; tokenStart := 6; inString := false;
                                        tokens := ["Id"; "==="] |}
     = {| cur := 14; tokenStart := 14; inString := false;
          tokens := ["Id"; "==="; "`ab`"] |}
  /\ tokenizeQuery "Id eq guid'ab' and Count eq 42L"
     = ["Id"; "==="; "`ab`"; "&&"; "Count"; "==="; "42L"]
  /\ emits entitySystemProperties true (tokenizeQuery "Count eq 42L") 2 "'42' "
  /\ emits entitySystemProperties true (tokenizeQuery "Count 42L") 1 "42L "
  /\ transformEntityQuery "Count eq 42L" = Ok "return ( item.properties.Count === '42' )".
Proof.
  destruct guid_and_long_literals as (Hloop & Hguid & Hother & Hlong).
  split_and!.
  - apply (Hguid "a1b2c3d4-0000-4000-8000-00000000abcd"). reflexivity.
  - apply (Hother "datetime" "2024-01-01T00:00:00Z"); [reflexivity|discriminate|reflexivity].
  - vm_compute. reflexivity.
  - pose proof (Hloop "Id eq " " and" "guid" "ab"
                  {| cur := 6; tokenStart := 6; inString := false;
                     tokens := ["Id"; "==="] |}
                  8%nat eq_refl eq_refl eq_refl eq_refl eq_refl eq_refl) as H.
    cbv zeta in H. exact (H (le_n 8)).
  - vm_compute. reflexivity.
  - apply (Hlong entitySystemProperties true (tokenizeQuery "Count eq 42L") 2%nat "42");
      [discriminate|reflexivity|reflexivity|reflexivity].
  - apply (Hlong entitySystemProperties true (tokenizeQuery "Count 42L") 1%nat "42");
      [discriminate|reflexivity|reflexivity|reflexivity].
  - vm_compute. reflexivity.
Defined.

(** Well-formed binary literals: a quoted body without [L] behind [X] or
    [binary]. *)
Lemma binaryLiteral_quoted (token : string) :
  startsWith "X" token = true \/ startsWith "binary" token = true ->
  includesChar "`" token = true ->
  includesChar "L" token = false ->
  binaryLiteral token.
Proof.
  intros Hx Hb HL. split_and!; [by apply isIdentifier_backtick | done |].
  unfold takenForLongInt. by rewrite matchAllLongInt_no_L.
Qed.

Section CompilationProofs.
Variable QUERY_RESULT_MAX_NUM : nat.
Variables base64Decode base64Encode : string -> string.
Variable newEntityFunction : string -> option (Doc -> bool).
Variable newTableFunction : string -> option (Table -> bool).

(** C9.  [transformQuery] throws exactly when some token is a property name
    outside the system properties in a query that allows no custom
    properties, or is a binary literal directly after a comparison operator
    that the long-integer test has not taken first.  Every failure to compile
    a filter, the rewriter's or the [Function] constructor's, reaches the
    caller of [queryTableEntities] and of [queryTable] as
    [QueryConditionInvalid], with the store unchanged.  The long-integer test
    comes before the test for binary literals: [X'00ff'] after [eq] is
    rejected, while [binary'L+AB'] after [eq] is taken for a long integer and
    rewritten to ['binary`+AB`']. *)
Theorem query_compilation_failures :
  (forall query systemProperties allowCustomProperties,
     (exists e, transformQuery query systemProperties allowCustomProperties = Throw e)
     <-> exists i, rejectedAt systemProperties allowCustomProperties
                     (tokenizeQuery query) i)
  /\ (forall query e,
        transformEntityQuery query = Throw e ->
        generateQueryEntityWhereFunction newEntityFunction (Some query)
        = Throw (RewriteError e))
  /\ (forall query e,
        transformTableQuery query = Throw e ->
        generateQueryTableWhereFunction newTableFunction (Some query)
        = Throw (RewriteError e))
  /\ (forall st acc tbl coll queryOptions nextPartitionKey nextRowKey e,
        hasTable acc tbl st = true ->
        collections st !! getTableCollectionName acc tbl = Some coll ->
        generateQueryEntityWhereFunction newEntityFunction (Models.filter queryOptions)
        = Throw e ->
        queryTableEntities QUERY_RESULT_MAX_NUM base64Decode base64Encode
          newEntityFunction acc tbl queryOptions nextPartitionKey nextRowKey st
        = (st, Throw QueryConditionInvalid))
  /\ (forall st acc queryOptions nextTable e,
        generateQueryTableWhereFunction newTableFunction (Models.filter queryOptions)
        = Throw e ->
        queryTable newTableFunction acc queryOptions nextTable st
        = (st, Throw QueryConditionInvalid))
  /\ transformEntityQuery "Data eq X'00ff'" = Throw BinaryFilterNotSupported
  /\ tokenizeQuery "Data eq binary'L+AB'" = ["Data"; "==="; "binary`L+AB`"]
  /\ takenForLongInt "binary`L+AB`" = true
  /\ transformEntityQuery "Data eq binary'L+AB'"
     = Ok "return ( item.properties.Data === 'binary`+AB`' )".
Proof.
  split_and!.
  - intros query sys allow. unfold transformQuery.
    apply transformTokens_throws, tokenizeQuery_nonEmpty.
  - intros query e H. unfold generateQueryEntityWhereFunction. by rewrite H.
  - intros query e H. unfold generateQueryTableWhereFunction. by rewrite H.
  - intros st acc tbl coll opts npk nrk e Ht Hc Hgen. unfold queryTableEntities.
    unfold mbind at 1, Op_bind at 1. rewrite (getEntityCollection_found _ _ _ _ Ht Hc).
    cbn beta iota. by rewrite Hgen.
  - intros st acc opts next e Hgen. unfold queryTable. run_op. by rewrite Hgen.
  - vm_compute. reflexivity.
  - vm_compute. reflexivity.
  - vm_compute. reflexivity.
  - vm_compute. reflexivity.
Qed.

End CompilationProofs.

Lemma query_compilation_failures_witness :
  (exists e, transformTableQuery "Owner eq 'x'" = Throw e)
  /\ (exists e, transformEntityQuery "Data eq X'00ff'" = Throw e)
  /\ (queryTable (fun _ => Some (fun _ => true)) "acct"
        {| Models.filter := Some "Owner eq 'x'"; Models.top := None |} None
        (sampleStore sampleClock)).2 = Throw QueryConditionInvalid
  /\ (queryTableEntities 1000 (fun s => s) (fun s => s) (fun _ => Some (fun _ => true))
        "acct" "t" {| Models.filter := Some "Data eq X'00ff'"; Models.top := None |}
        None None (sampleStore sampleClock)).2 = Throw QueryConditionInvalid.
Proof.
  destruct (query_compilation_failures 1000 (fun s => s) (fun s => s)
              (fun _ => Some (fun _ => true)) (fun _ => Some (fun _ => true)))
    as (Hiff & _ & _ & Hent & Htab & _).
  split_and!.
  - apply Hiff. exists 0%nat, "Owner". split; [reflexivity|]. left.
    split_and!; reflexivity.
  - apply Hiff. exists 2%nat, "X`00ff`". split; [reflexivity|]. right.
    split; [|reflexivity]. apply binaryLiteral_quoted; [by left|reflexivity|reflexivity].
  - rewrite (Htab (sampleStore sampleClock) "acct"
               {| Models.filter := Some "Owner eq 'x'"; Models.top := None |} None
               (RewriteError CustomPropertiesNotSupported)); reflexivity.
  - rewrite (Hent (sampleStore sampleClock) "acct" "t"
               {| Loki.data := [{| loki := 1; entity := stampTimestamp sampleClock sampleEntity |}];
                  Loki.maxId := 1 |}
               {| Models.filter := Some "Data eq X'00ff'"; Models.top := None |} None None
               (RewriteError BinaryFilterNotSupported)); reflexivity.
Defined.

Local Open Scope Z_scope.

(** ** Worked examples *)

Lemma sampleStore_hasTable : hasTable "acct" "t" (sampleStore sampleClock) = true.
Proof. vm_compute. reflexivity. Qed.

Lemma sampleStore_collection :
  collections (sampleStore sampleClock) !! getTableCollectionName "acct" "t"
  = Some sampleCollection.
Proof. vm_compute. reflexivity. Qed.

Lemma sampleCollection_findOne :
  Loki.findOne "p" "r1" sampleCollection = Some sampleDoc.
Proof. vm_compute. reflexivity. Qed.

Lemma etag_check_update_merge_witness :
  succeeds (updateTableEntity sampleClock "t" "acct" (sampleChange 5)
              (Some "W/datetime'2024-01-01T00%3A00%3A00.000Z'") None
              (sampleStore sampleClock))
  /\ (mergeTableEntity "t" "acct" (sampleChange 5)
        (Some "W/datetime'2024-02-02T00:00:00.000Z'") None
        (sampleStore sampleClock)).2 = Throw PreconditionFailed
  /\ succeeds (mergeTableEntity "t" "acct" (sampleChange 5) (Some "*") None
                 (sampleStore sampleClock)).
Proof.
  split_and!.
  - destruct (etag_check_update_merge sampleClock (sampleStore sampleClock) "t" "acct"
             (sampleChange 5) (Some "W/datetime'2024-01-01T00%3A00%3A00.000Z'") None
             sampleCollection sampleDoc sampleStore_hasTable sampleStore_collection
             sampleCollection_findOne) as [Hchk _].
    destruct (Hchk _ eq_refl ltac:(discriminate)) as (Hupd & _ & _).
    apply Hupd. vm_compute. reflexivity.
  - destruct (etag_check_update_merge sampleClock (sampleStore sampleClock) "t" "acct"
             (sampleChange 5) (Some "W/datetime'2024-02-02T00:00:00.000Z'") None
             sampleCollection sampleDoc sampleStore_hasTable sampleStore_collection
             sampleCollection_findOne) as [Hchk _].
    destruct (Hchk _ eq_refl ltac:(discriminate)) as (_ & _ & Hfail).
    apply Hfail. discriminate.
  - destruct (etag_check_update_merge sampleClock (sampleStore sampleClock) "t" "acct"
             (sampleChange 5) (Some "*") None
             sampleCollection sampleDoc sampleStore_hasTable sampleStore_collection
             sampleCollection_findOne) as [_ Hby].
    apply Hby. by right.
Defined.

Lemma preimage_logged_before_etag_check_witness :
  let upd := updateTableEntity sampleClock "t" "acct" (sampleChange 5)
               (Some "W/datetime'2024-02-02T00:00:00.000Z'") None
               (sampleStore sampleClock) in
  transactionRollbackTheseEntities (sampleStore sampleClock) = []
  /\ transactionRollbackTheseEntities upd.1 = [sampleDoc]
  /\ upd.2 = Throw PreconditionFailed.
Proof.
  cbv zeta.
  destruct (preimage_logged_before_etag_check sampleClock (sampleStore sampleClock)
              "t" "acct" (sampleChange 5)
              (Some "W/datetime'2024-02-02T00:00:00.000Z'") None
              sampleCollection sampleDoc sampleStore_hasTable sampleStore_collection
              sampleCollection_findOne ltac:(discriminate))
    as (Hupd & _ & Hfail).
  split_and!; [vm_compute; reflexivity | exact Hupd |].
  destruct (Hfail ltac:(vm_compute; reflexivity)) as [-> _]. reflexivity.
Defined.

Lemma deleteTableEntity_outcomes_witness :
  let st := sampleStore sampleClock in
  deleteTableEntity "t" "acct" None (Some "r1") "*" "" st = (st, Throw PropertiesNeedValue)
  /\ deleteTableEntity "t" "acct" (Some "p") (Some "r9") "*" "" st
     = (st, Throw EntityNotFound)
  /\ deleteTableEntity "t" "acct" (Some "p") (Some "r1")
       "W/datetime'2024-01-01T00%3A00%3A00.000Z'" "" st = (st, Throw PreconditionFailed)
  /\ (deleteTableEntity "t" "acct" (Some "p") (Some "r1")
        "W/datetime'2024-01-01T00:00:00.000Z'" "" st).2 = Ok tt.
Proof.
  cbv zeta.
  pose proof (deleteTableEntity_outcomes (sampleStore sampleClock) "t" "acct")
    as Hdel.
  split_and!.
  - destruct (Hdel None (Some "r1") "*" "" sampleCollection sampleStore_hasTable
                sampleStore_collection) as [H _].
    apply H. by left.
  - destruct (Hdel (Some "p") (Some "r9") "*" "" sampleCollection sampleStore_hasTable
                sampleStore_collection) as [_ H].
    destruct (H "p" "r9" eq_refl eq_refl) as [Hnone _]. apply Hnone.
    intros d Hd. apply list_elem_of_singleton in Hd as ->. vm_compute. discriminate.
  - destruct (Hdel (Some "p") (Some "r1") "W/datetime'2024-01-01T00%3A00%3A00.000Z'" ""
                sampleCollection sampleStore_hasTable sampleStore_collection) as [_ H].
    destruct (H "p" "r1" eq_refl eq_refl) as [_ Hsome].
    destruct (Hsome sampleDoc sampleCollection_findOne) as [Hfail _].
    apply Hfail; discriminate.
  - destruct (Hdel (Some "p") (Some "r1") "W/datetime'2024-01-01T00:00:00.000Z'" ""
                sampleCollection sampleStore_hasTable sampleStore_collection) as [_ H].
    destruct (H "p" "r1" eq_refl eq_refl) as [_ Hsome].
    destruct (Hsome sampleDoc sampleCollection_findOne) as [_ Hok]. apply Hok. by right.
Defined.






Lemma sampleStore_logs :
  transactionRollbackTheseEntities (sampleStore sampleClock) = []
  /\ transactionDeleteTheseEntities (sampleStore sampleClock) = [].
Proof. split; vm_compute; reflexivity. Qed.

Lemma merge_keeps_stored_timestamp_witness :
  exists merged updated,
    (mergeTableEntity "t" "acct" (sampleChange 5) None (Some "")
       (sampleStore sampleClock)).2 = Ok merged
    /\ (updateTableEntity sampleClock "t" "acct" (sampleChange 5) None (Some "")
         (sampleStore sampleClock)).2 = Ok updated
    /\ lastModifiedTime (entity merged) = 5
    /\ properties (entity merged) !! "Timestamp" = Some (VString (sampleClock 0))
    /\ properties (entity updated) !! "Timestamp" = Some (VString (sampleClock 5))
    /\ sampleClock 0 <> sampleClock 5.
Proof.
  destruct (merge_keeps_stored_timestamp sampleClock (sampleStore sampleClock)
              "t" "acct" (sampleChange 5) None (Some "") sampleCollection sampleDoc
              sampleStore_hasTable sampleStore_collection sampleCollection_findOne
              eq_refl)
    as (merged & updated & Hm & Hu & _ & _ & _ & Ht & Hts & Huts & _).
  exists merged, updated.
  split_and!; [exact Hm | exact Hu | exact Ht | | exact Huts | discriminate].
  rewrite Hts. vm_compute. reflexivity.
Defined.

Lemma rollback_log_fills_outside_batch_witness :
  let st := sampleStore sampleClock in
  let upd := updateTableEntity sampleClock "t" "acct" (sampleChange 5) None None st in
  transactionRollbackTheseEntities st = []
  /\ transactionDeleteTheseEntities st = []
  /\ transactionRollbackTheseEntities upd.1 = [sampleDoc]
  /\ (beginBatchTransaction "b1" upd.1).2 = Throw TransactionOverlap.
Proof.
  cbv zeta. destruct sampleStore_logs as [Hr Hd].
  destruct (rollback_log_fills_outside_batch sampleClock (sampleStore sampleClock)
              "t" "acct" (sampleChange 5) None sampleCollection sampleDoc
              sampleStore_hasTable sampleStore_collection sampleCollection_findOne
              Hr Hd)
    as (Hu & _ & Hb & _ & _).
  split_and!; [exact Hr | exact Hd | exact Hu |].
  by destruct (Hb "b1") as (_ & H & _).
Defined.

Lemma sampleStoreOfThree_hasTable : hasTable "acct" "t" sampleStoreOfThree = true.
Proof. vm_compute. reflexivity. Qed.

Lemma sampleStoreOfThree_collection :
  collections sampleStoreOfThree !! getTableCollectionName "acct" "t"
  = Some {| Loki.data :=
              [sampleDoc;
               {| loki := 2; entity := stampTimestamp sampleClock sampleThird |};
               {| loki := 3; entity := stampTimestamp sampleClock sampleInserted |}];
            Loki.maxId := 3 |}.
Proof. vm_compute. reflexivity. Qed.

Lemma queryTableEntities_page_witness :
  let r := queryTableEntities 1000 (fun s => s) (fun s => s)
             (fun _ => Some (fun _ => true)) "acct" "t"
             {| Models.filter := None; Models.top := Some 2%nat |} None None
             sampleStoreOfThree in
  exists sorted first second,
    StronglySorted keysLe sorted
    /\ r.2 = Ok (take 2 sorted,
                 (fun tail => PartitionKey (entity tail)) <$> sorted !! 2%nat,
                 (fun tail => RowKey (entity tail)) <$> sorted !! 2%nat)
    /\ r.2 = Ok ([first; second], Some "p", Some "r3")
    /\ RowKey (entity first) = "r1" /\ RowKey (entity second) = "r2".
Proof.
  cbv zeta.
  destruct (queryTableEntities_page 1000 (fun s => s) (fun s => s)
              (fun _ => Some (fun _ => true)) sampleStoreOfThree "acct" "t"
              {| Models.filter := None; Models.top := Some 2%nat |} None None
              {| Loki.data :=
                   [sampleDoc;
                    {| loki := 2; entity := stampTimestamp sampleClock sampleThird |};
                    {| loki := 3; entity := stampTimestamp sampleClock sampleInserted |}];
                 Loki.maxId := 3 |}
              (fun _ => true) sampleStoreOfThree_hasTable sampleStoreOfThree_collection
              eq_refl)
    as (sorted & _ & Hsorted & Hrun & _).
  exists sorted, sampleDoc,
    {| loki := 3; entity := stampTimestamp sampleClock sampleInserted |}.
  split; [exact Hsorted|]. split; [by rewrite Hrun|].
  split; [|split; vm_compute; reflexivity].
  clear Hrun Hsorted. vm_compute. reflexivity.
Defined.

Local Close Scope Z_scope.

(** ** Lookups in a collection *)


(** Two well-keyed collections with the same documents answer every lookup
    alike. *)
Lemma findOne_ext (pk rk : string) (c c' : Loki.Collection) :
  uniqueKeys c -> uniqueKeys c' ->
  (forall x, keysOf x = (pk, rk) -> x ∈ Loki.data c' <-> x ∈ Loki.data c) ->
  Loki.findOne pk rk c' = Loki.findOne pk rk c.
Proof.
  intros Hk Hk' Hmem.
  destruct (Loki.findOne pk rk c) as [d|] eqn:E.
  - apply findOne_Some in E as [Hd Hkeys]. apply findOne_unique; [done| |done].
    by apply Hmem.
  - apply findOne_None. intros x Hx Hkeys.
    apply (proj1 (findOne_None pk rk c) E x); [|done]. by apply Hmem.
Qed.

(** *** [update]: the document that carries an identifier is replaced *)

Lemma replaceId_fmap {B} (f : Doc -> B) (m : Doc) (l : list Doc) :
  (forall x, x ∈ l -> loki x = loki m -> f x = f m) ->
  f <$> Loki.replaceId m l = f <$> l.
Proof.
  induction l as [|x l IH]; intros H; [done|]. cbn [Loki.replaceId].
  destruct (Nat.eqb_spec (loki x) (loki m)) as [Heq|Hne].
  - cbn. f_equal. symmetry. apply H; [by left|done].
  - cbn. f_equal. apply IH. intros y Hy. apply H. by right.
Qed.

Lemma replaceId_spec (m : Doc) (l : list Doc) (x : Doc) :
  NoDup (loki <$> l) -> (exists d, d ∈ l /\ loki d = loki m) ->
  x ∈ Loki.replaceId m l <-> (x ∈ l /\ loki x <> loki m) \/ x = m.
Proof.
  induction l as [|y l IH]; intros Hnd [d [Hd Hid]].
  - by apply elem_of_nil in Hd.
  - cbn [Loki.replaceId]. cbn in Hnd. apply NoDup_cons in Hnd as [Hy Hnd].
    destruct (Nat.eqb_spec (loki y) (loki m)) as [Heq|Hne].
    + rewrite !elem_of_cons. split.
      * intros [->|Hx]; [by right|]. left. split; [by right|].
        intros Hxm. apply Hy. rewrite Heq, <- Hxm. by apply list_elem_of_fmap_2.
      * intros [[[->|Hx] Hne]| ->]; [done|by right|by left].
    + apply elem_of_cons in Hd as [->|Hd]; [done|].
      rewrite !elem_of_cons, IH by eauto. split.
      * intros [->|[[Hx Hxm]| ->]]; [left; split; [by left|done] | left; split; [by right|done]
                                    | by right].
      * intros [[[->|Hx] Hxm]| ->]; [by left | right; by left | right; by right].
Qed.

Lemma update_wellFormed (m doc : Doc) (c : Loki.Collection) :
  wellFormed c -> doc ∈ Loki.data c -> loki m = loki doc -> keysOf m = keysOf doc ->
  wellFormed (Loki.update m c).
Proof.
  intros [[Hnd Hmax] Hk] Hd Hid Hkeys.
  assert (Hsame : forall x, x ∈ Loki.data c -> loki x = loki m -> x = doc).
  { intros x Hx Hxm. apply (same_id_same_doc c); [done..|congruence]. }
  split; [split|]; unfold uniqueKeys, uniqueIds; cbn [Loki.update Loki.data Loki.maxId].
  - rewrite (replaceId_fmap loki); [done|]. intros x Hx Hxm. done.
  - apply Forall_forall. intros x Hx.
    apply replaceId_spec in Hx; [|done|by exists doc].
    rewrite Forall_forall in Hmax. destruct Hx as [[Hx _]| ->]; [by apply Hmax|].
    rewrite Hid. by apply Hmax.
  - rewrite (replaceId_fmap keysOf); [done|]. intros x Hx Hxm.
    rewrite (Hsame x Hx Hxm). done.
Qed.

Lemma update_spec (m doc : Doc) (c : Loki.Collection) (x : Doc) :
  uniqueIds c -> doc ∈ Loki.data c -> loki m = loki doc ->
  x ∈ Loki.data (Loki.update m c) <-> (x ∈ Loki.data c /\ x <> doc) \/ x = m.
Proof.
  intros Hid Hd Hm. cbn [Loki.update Loki.data].
  rewrite replaceId_spec; [|by destruct Hid|by exists doc]. split.
  - intros [[Hx Hne]| ->]; [left|by right]. split; [done|]. intros ->. congruence.
  - intros [[Hx Hne]| ->]; [left|by right]. split; [done|]. intros Heq. apply Hne.
    apply (same_id_same_doc c); [done..|congruence].
Qed.

(** ** What the four changes of a collection do to lookups *)

Lemma keysOf_hasKeys_false (pk rk : string) (d : Doc) :
  keysOf d <> (pk, rk) -> Loki.hasKeys pk rk d = false.
Proof.
  intros H. destruct (Loki.hasKeys pk rk d) eqn:E; [|done].
  by apply hasKeys_keysOf in E.
Qed.

Lemma insert_effect (e : Entity) (c : Loki.Collection) :
  wellFormed c ->
  Loki.findOne (PartitionKey e) (RowKey e) c = None ->
  wellFormed (Loki.insert e c).1
  /\ forall pk rk,
       Loki.findOne pk rk (Loki.insert e c).1
       = if decide ((pk, rk) = (PartitionKey e, RowKey e))
         then Some {| loki := S (Loki.maxId c); entity := e |}
         else Loki.findOne pk rk c.
Proof.
  intros [Hid Hk] Hnone. pose proof (proj1 (findOne_None _ _ _) Hnone) as Hfree.
  split; [split; [by apply insert_uniqueIds | by apply insert_uniqueKeys]|].
  intros pk rk. unfold Loki.findOne. cbn [Loki.insert fst Loki.data].
  destruct (decide ((pk, rk) = (PartitionKey e, RowKey e))) as [Heq|Hne].
  - injection Heq as -> ->. apply find_snoc_last.
    + intros y Hy. apply keysOf_hasKeys_false. by apply Hfree.
    + by apply hasKeys_keysOf.
  - apply find_snoc_other. apply keysOf_hasKeys_false. intros H. apply Hne. by rewrite <- H.
Qed.

Lemma remove_effect (pk0 rk0 : string) (doc : Doc) (c : Loki.Collection) :
  wellFormed c ->
  Loki.findOne pk0 rk0 c = Some doc ->
  wellFormed (Loki.remove doc c)
  /\ Loki.maxId (Loki.remove doc c) = Loki.maxId c
  /\ forall pk rk,
       Loki.findOne pk rk (Loki.remove doc c)
       = if decide ((pk, rk) = (pk0, rk0)) then None else Loki.findOne pk rk c.
Proof.
  intros [Hid Hk] Hf. pose proof (findOne_Some _ _ _ _ Hf) as [Hd Hkeys].
  split; [split; [by apply remove_uniqueIds | by apply remove_uniqueKeys]|].
  split; [done|]. intros pk rk.
  destruct (decide ((pk, rk) = (pk0, rk0))) as [Heq|Hne].
  - injection Heq as -> ->. apply findOne_None. by apply remove_found_keys.
  - unfold Loki.findOne. cbn [Loki.remove Loki.data]. apply find_removeId_other.
    intros y Hy Hyid. apply keysOf_hasKeys_false.
    rewrite (same_id_same_doc c y doc Hid Hy Hd Hyid). congruence.
Qed.

Lemma replace_effect (doc : Doc) (e : Entity) (c : Loki.Collection) :
  wellFormed c ->
  Loki.findOne (PartitionKey e) (RowKey e) c = Some doc ->
  wellFormed (Loki.insert e (Loki.remove doc c)).1
  /\ forall pk rk,
       Loki.findOne pk rk (Loki.insert e (Loki.remove doc c)).1
       = if decide ((pk, rk) = (PartitionKey e, RowKey e))
         then Some {| loki := S (Loki.maxId c); entity := e |}
         else Loki.findOne pk rk c.
Proof.
  intros Hwf Hf.
  destruct (remove_effect _ _ _ _ Hwf Hf) as (Hwf' & Hmax & Hfind).
  destruct (insert_effect e (Loki.remove doc c) Hwf') as [Hwf'' Hfind'].
  { rewrite Hfind. by rewrite decide_True. }
  split; [done|]. intros pk rk. rewrite Hfind', Hmax, Hfind.
  by destruct (decide ((pk, rk) = (PartitionKey e, RowKey e))).
Qed.

Lemma update_effect (pk0 rk0 : string) (m doc : Doc) (c : Loki.Collection) :
  wellFormed c ->
  Loki.findOne pk0 rk0 c = Some doc ->
  loki m = loki doc -> keysOf m = (pk0, rk0) ->
  wellFormed (Loki.update m c)
  /\ Loki.maxId (Loki.update m c) = Loki.maxId c
  /\ forall pk rk,
       Loki.findOne pk rk (Loki.update m c)
       = if decide ((pk, rk) = (pk0, rk0)) then Some m else Loki.findOne pk rk c.
Proof.
  intros Hwf Hf Hid Hkeys. pose proof (findOne_Some _ _ _ _ Hf) as [Hd Hdk].
  assert (Hwf' : wellFormed (Loki.update m c)).
  { apply (update_wellFormed m doc); [done..|congruence]. }
  split; [done|]. split; [done|]. intros pk rk.
  destruct Hwf as [Hids Hk]. destruct Hwf' as [_ Hk'].
  destruct (decide ((pk, rk) = (pk0, rk0))) as [Heq|Hne].
  - injection Heq as -> ->. apply findOne_unique; [done| |done].
    apply (update_spec m doc); [done..|]. by right.
  - apply findOne_ext; [done..|]. intros x Hx.
    rewrite (update_spec m doc) by done. split.
    + intros [[? _]| ->]; [done|]. congruence.
    + intros Hin. left. split; [done|]. intros ->. congruence.
Qed.

(** ** The entity operations, run *)

Lemma getEntityCollection_missing (acc tbl : string) (st : Store) :
  hasTable acc tbl st = false \/ collections st !! getTableCollectionName acc tbl = None ->
  getEntityCollection acc tbl st = (st, Throw TableNotExist).
Proof.
  intros H. unfold getEntityCollection. run_op.
  destruct (hasTable acc tbl st); [|done].
  destruct H as [?| ->]; done.
Qed.

Section OperationRuns.
Variable getTimestampString : Z -> string.

Lemma insertTableEntity_run (st : Store) (tbl acc : string) (e : Entity)
    (batchId : option string) (coll : Loki.Collection) :
  hasTable acc tbl st = true ->
  collections st !! getTableCollectionName acc tbl = Some coll ->
  insertTableEntity getTimestampString tbl acc e batchId st =
  match Loki.findOne (PartitionKey e) (RowKey e) coll with
  | Some _ => (st, Throw EntityAlreadyExist)
  | None =>
      (setCollection (getTableCollectionName acc tbl)
         (Loki.insert (stampTimestamp getTimestampString e) coll).1
         (if notEmptyNorUndefined batchId
          then pushDelete (Loki.insert (stampTimestamp getTimestampString e) coll).2 st
          else st),
       Ok (Loki.insert (stampTimestamp getTimestampString e) coll).2)
  end.
Proof.
  intros Ht Hc. unfold insertTableEntity.
  unfold mbind at 1, Op_bind at 1. rewrite (getEntityCollection_found _ _ _ _ Ht Hc).
  cbn beta iota. destruct (Loki.findOne _ _ coll); [done|].
  cbn [Loki.insert]. by destruct (notEmptyNorUndefined batchId).
Qed.

Lemma updateTableEntity_missing (st : Store) (tbl acc : string) (e : Entity)
    (ifMatch batchId : option string) (coll : Loki.Collection) :
  hasTable acc tbl st = true ->
  collections st !! getTableCollectionName acc tbl = Some coll ->
  Loki.findOne (PartitionKey e) (RowKey e) coll = None ->
  updateTableEntity getTimestampString tbl acc e ifMatch batchId st
  = (st, Throw EntityNotFound).
Proof.
  intros Ht Hc Hf. unfold updateTableEntity.
  unfold mbind at 1, Op_bind at 1. rewrite (getEntityCollection_found _ _ _ _ Ht Hc).
  cbn beta iota. by rewrite Hf.
Qed.

Lemma mergeTableEntity_missing (st : Store) (tbl acc : string) (e : Entity)
    (ifMatch batchId : option string) (coll : Loki.Collection) :
  hasTable acc tbl st = true ->
  collections st !! getTableCollectionName acc tbl = Some coll ->
  Loki.findOne (PartitionKey e) (RowKey e) coll = None ->
  mergeTableEntity tbl acc e ifMatch batchId st = (st, Throw EntityNotFound).
Proof.
  intros Ht Hc Hf. unfold mergeTableEntity.
  unfold mbind at 1, Op_bind at 1. rewrite (getEntityCollection_found _ _ _ _ Ht Hc).
  cbn beta iota. by rewrite Hf.
Qed.

Lemma queryWithKeys_run (st : Store) (tbl acc pk rk : string) :
  queryTableEntitiesWithPartitionAndRowKey tbl acc pk rk st =
  match collections st !! getTableCollectionName acc tbl with
  | None => (st, Throw TableNotExist)
  | Some c => (st, Ok (Loki.findOne pk rk c))
  end.
Proof.
  unfold queryTableEntitiesWithPartitionAndRowKey. run_op.
  by destruct (collections st !! getTableCollectionName acc tbl).
Qed.

End OperationRuns.

(** ** One call of a write operation *)

Lemma setCollection_same (name : string) (c : Loki.Collection) (st : Store) :
  collections st !! name = Some c -> setCollection name c st = st.
Proof.
  intros H. destruct st as [t cs r d]. unfold setCollection. cbn in *.
  f_equal. by apply insert_id.
Qed.

Section CallProofs.
Variable getTimestampString : Z -> string.

Lemma insertOrUpdateTableEntity_run (st : Store) (tbl acc : string) (e : Entity)
    (ifMatch batchId : option string) (coll : Loki.Collection) :
  collections st !! getTableCollectionName acc tbl = Some coll ->
  insertOrUpdateTableEntity getTimestampString tbl acc e ifMatch batchId st =
  if isUpsert ifMatch then
    match Loki.findOne (PartitionKey e) (RowKey e) coll with
    | Some _ => updateTableEntity getTimestampString tbl acc e ifMatch batchId st
    | None => insertTableEntity getTimestampString tbl acc e batchId st
    end
  else updateTableEntity getTimestampString tbl acc e ifMatch batchId st.
Proof.
  intros Hc. unfold insertOrUpdateTableEntity. destruct (isUpsert ifMatch); [|done].
  unfold mbind at 1, Op_bind at 1. rewrite queryWithKeys_run, Hc.
  by destruct (Loki.findOne _ _ coll).
Qed.

Lemma insertOrMergeTableEntity_run (st : Store) (tbl acc : string) (e : Entity)
    (ifMatch batchId : option string) (coll : Loki.Collection) :
  collections st !! getTableCollectionName acc tbl = Some coll ->
  insertOrMergeTableEntity getTimestampString tbl acc e ifMatch batchId st =
  if isUpsert ifMatch then
    match Loki.findOne (PartitionKey e) (RowKey e) coll with
    | Some _ => mergeTableEntity tbl acc e ifMatch batchId st
    | None => insertTableEntity getTimestampString tbl acc e batchId st
    end
  else mergeTableEntity tbl acc e ifMatch batchId st.
Proof.
  intros Hc. unfold insertOrMergeTableEntity. destruct (isUpsert ifMatch); [|done].
  unfold mbind at 1, Op_bind at 1. rewrite queryWithKeys_run, Hc.
  by destruct (Loki.findOne _ _ coll).
Qed.

(** What a call does to the store of a registered table with a well-formed
    collection: it throws and changes nothing; or it logs the document found
    under its keys, if its batch identifier says so, and then either throws
    [PreconditionFailed] or changes the collection under these keys only and
    returns what is under them now; or it adds a document under keys that
    were free, logs it if its batch identifier says so, and returns it. *)
Lemma runCall_effect (tbl acc : string) (call : EntityCall) (st : Store)
    (c : Loki.Collection) :
  hasTable acc tbl st = true ->
  collections st !! getTableCollectionName acc tbl = Some c ->
  wellFormed c ->
  (exists err, runCall getTimestampString tbl acc call st = (st, Throw err))
  \/ (exists pk0 rk0 doc c' res,
        (forall e b, call <> CallInsert e b)
        /\ callKeys call = Some (pk0, rk0)
        /\ Loki.findOne pk0 rk0 c = Some doc
        /\ wellFormed c'
        /\ (Loki.maxId c <= Loki.maxId c')%nat
        /\ (forall pk rk, (pk, rk) <> (pk0, rk0) ->
              Loki.findOne pk rk c' = Loki.findOne pk rk c)
        /\ runCall getTimestampString tbl acc call st
           = (setCollection (getTableCollectionName acc tbl) c'
                (if logsPreImage call then pushRollback doc st else st), res)
        /\ ((res = Throw PreconditionFailed /\ c' = c)
            \/ res = Ok (Loki.findOne pk0 rk0 c')))
  \/ (exists e',
        (forall pk rk etag b, call <> CallDelete pk rk etag b)
        /\ callKeys call = Some (PartitionKey e', RowKey e')
        /\ Loki.findOne (PartitionKey e') (RowKey e') c = None
        /\ runCall getTimestampString tbl acc call st
           = (setCollection (getTableCollectionName acc tbl) (Loki.insert e' c).1
                (if logsInserted call then pushDelete (Loki.insert e' c).2 st else st),
              Ok (Some (Loki.insert e' c).2))).
Proof.
  intros Ht Hc Hwf.
  assert (Hret : forall (m : Op Doc) s res,
            m st = (s, res) ->
            (doc ← m; mret (Some doc)) st
            = (s, match res with Ok a => Ok (Some a) | Throw e => Throw e end)).
  { intros m s res H. run_op. rewrite H. by destruct res. }
  assert (Hins : forall e batchId,
    insertTableEntity getTimestampString tbl acc e batchId st
    = (st, Throw EntityAlreadyExist)
    \/ (Loki.findOne (PartitionKey e) (RowKey e) c = None
        /\ insertTableEntity getTimestampString tbl acc e batchId st
           = (setCollection (getTableCollectionName acc tbl)
                (Loki.insert (stampTimestamp getTimestampString e) c).1
                (if notEmptyNorUndefined batchId
                 then pushDelete (Loki.insert (stampTimestamp getTimestampString e) c).2 st
                 else st),
              Ok (Loki.insert (stampTimestamp getTimestampString e) c).2))).
  { intros e batchId. rewrite (insertTableEntity_run _ _ _ _ _ _ _ Ht Hc).
    destruct (Loki.findOne _ _ c); [by left|by right]. }
  assert (Hupd : forall e ifMatch batchId doc,
    Loki.findOne (PartitionKey e) (RowKey e) c = Some doc ->
    exists c' res, wellFormed c' /\ (Loki.maxId c <= Loki.maxId c')%nat
      /\ (forall pk rk, (pk, rk) <> (PartitionKey e, RowKey e) ->
            Loki.findOne pk rk c' = Loki.findOne pk rk c)
      /\ updateTableEntity getTimestampString tbl acc e ifMatch batchId st
         = (setCollection (getTableCollectionName acc tbl) c'
              (if notEmptyString batchId then pushRollback doc st else st), res)
      /\ ((res = Throw PreconditionFailed /\ c' = c)
          \/ exists d, res = Ok d
                       /\ Loki.findOne (PartitionKey e) (RowKey e) c' = Some d)).
  { intros e ifMatch batchId doc Hf.
    rewrite (updateTableEntity_run _ _ _ _ _ _ _ _ _ Ht Hc Hf). unfold afterLogging.
    destruct (etagMatches _ _).
    - destruct (replace_effect doc (stampTimestamp getTimestampString e) c Hwf Hf)
        as [Hwf' Hfind].
      eexists _, _. split; [exact Hwf'|]. split; [cbn; lia|]. split; [|split; [done|]].
      + intros pk rk Hne. rewrite Hfind. by rewrite decide_False.
      + right. eexists. split; [done|]. specialize (Hfind (PartitionKey e) (RowKey e)).
        cbn [stampTimestamp PartitionKey RowKey] in Hfind.
        rewrite decide_True in Hfind by done. exact Hfind.
    - exists c. eexists. split; [done|]. split; [done|]. split; [done|].
      split; [|by left]. f_equal.
      symmetry. apply setCollection_same. by destruct (notEmptyString batchId). }
  assert (Hmrg : forall e ifMatch batchId doc,
    Loki.findOne (PartitionKey e) (RowKey e) c = Some doc ->
    exists c' res, wellFormed c' /\ (Loki.maxId c <= Loki.maxId c')%nat
      /\ (forall pk rk, (pk, rk) <> (PartitionKey e, RowKey e) ->
            Loki.findOne pk rk c' = Loki.findOne pk rk c)
      /\ mergeTableEntity tbl acc e ifMatch batchId st
         = (setCollection (getTableCollectionName acc tbl) c'
              (if notEmptyString batchId then pushRollback doc st else st), res)
      /\ ((res = Throw PreconditionFailed /\ c' = c)
          \/ exists d, res = Ok d
                       /\ Loki.findOne (PartitionKey e) (RowKey e) c' = Some d)).
  { intros e ifMatch batchId doc Hf.
    rewrite (mergeTableEntity_run _ _ _ _ _ _ _ _ Ht Hc Hf). unfold afterLogging.
    destruct (etagMatches _ _).
    - destruct (update_effect _ _ (mergedDEntity doc e) doc c Hwf Hf eq_refl eq_refl)
        as (Hwf' & Hmax & Hfind).
      eexists _, _. split; [exact Hwf'|]. split; [by rewrite Hmax|].
      split; [|split; [done|]].
      + intros pk rk Hne. rewrite Hfind. by rewrite decide_False.
      + right. eexists. split; [done|]. rewrite Hfind. by rewrite decide_True.
    - exists c. eexists. split; [done|]. split; [done|]. split; [done|].
      split; [|by left]. f_equal.
      symmetry. apply setCollection_same. by destruct (notEmptyString batchId). }
  assert (Hfound : forall (m : Op Doc) e doc c' res,
    Loki.findOne (PartitionKey e) (RowKey e) c = Some doc ->
    wellFormed c' -> (Loki.maxId c <= Loki.maxId c')%nat ->
    (forall pk rk, (pk, rk) <> (PartitionKey e, RowKey e) ->
       Loki.findOne pk rk c' = Loki.findOne pk rk c) ->
    forall (logs : bool),
    m st = (setCollection (getTableCollectionName acc tbl) c'
              (if logs then pushRollback doc st else st), res) ->
    ((res = Throw PreconditionFailed /\ c' = c)
     \/ exists d, res = Ok d /\ Loki.findOne (PartitionKey e) (RowKey e) c' = Some d) ->
    exists pk0 rk0 doc c' res,
      True
      /\ Some (PartitionKey e, RowKey e) = Some (pk0, rk0)
      /\ Loki.findOne pk0 rk0 c = Some doc
      /\ wellFormed c'
      /\ (Loki.maxId c <= Loki.maxId c')%nat
      /\ (forall pk rk, (pk, rk) <> (pk0, rk0) ->
            Loki.findOne pk rk c' = Loki.findOne pk rk c)
      /\ (doc ← m; mret (Some doc)) st
         = (setCollection (getTableCollectionName acc tbl) c'
              (if logs then pushRollback doc st else st), res)
      /\ ((res = Throw PreconditionFailed /\ c' = c)
          \/ res = Ok (Loki.findOne pk0 rk0 c'))).
  { intros m e doc c' res Hf Hwf' Hmax Hframe logs Hrun Hres.
    exists (PartitionKey e), (RowKey e), doc, c'.
    eexists. split; [done|]. split; [done|]. split; [done|]. split; [done|].
    split; [done|]. split; [done|]. rewrite (Hret m _ _ Hrun). split; [done|].
    destruct Hres as [[-> ->]|(d & -> & Hd)]; [by left|right]. by rewrite Hd. }
  destruct call as [e b|e ifMatch b|e ifMatch b|pk rk etag b]; cbn [runCall].
  - destruct (Hins e b) as [H|[Hnone H]].
    + left. eexists. by rewrite (Hret _ _ _ H).
    + right. right. exists (stampTimestamp getTimestampString e).
      split; [done|]. split; [done|]. split; [done|]. by rewrite (Hret _ _ _ H).
  - destruct (Loki.findOne (PartitionKey e) (RowKey e) c) as [doc|] eqn:Hf.
    + right. left. destruct (Hupd e ifMatch b doc Hf) as (c' & res & H1 & H2 & H3 & H4 & H5).
      destruct (Hfound (insertOrUpdateTableEntity getTimestampString tbl acc e ifMatch b)
                  e doc c' res Hf H1 H2 H3 (notEmptyString b))
        as (pk0 & rk0 & doc' & c'' & res' & _ & Hrest); [|done|].
      { rewrite (insertOrUpdateTableEntity_run _ _ _ _ _ _ _ Hc), Hf.
        by destruct (isUpsert ifMatch). }
      exists pk0, rk0, doc', c'', res'. split; [done|exact Hrest].
    + destruct (isUpsert ifMatch) eqn:Hup.
      * destruct (Hins e b) as [H|[Hnone H]].
        -- left. eexists. erewrite (Hret _ st (Throw EntityAlreadyExist)); [done|].
           by rewrite (insertOrUpdateTableEntity_run _ _ _ _ _ _ _ Hc), Hup, Hf.
        -- right. right. exists (stampTimestamp getTimestampString e).
           split; [done|]. split; [done|]. split; [done|].
           erewrite (Hret _ _ (Ok _)); [done|].
           by rewrite (insertOrUpdateTableEntity_run _ _ _ _ _ _ _ Hc), Hup, Hf.
      * left. eexists. erewrite (Hret _ st (Throw EntityNotFound)); [done|].
        rewrite (insertOrUpdateTableEntity_run _ _ _ _ _ _ _ Hc), Hup.
        exact (updateTableEntity_missing getTimestampString st tbl acc e ifMatch b c Ht Hc Hf).
  - destruct (Loki.findOne (PartitionKey e) (RowKey e) c) as [doc|] eqn:Hf.
    + right. left. destruct (Hmrg e ifMatch b doc Hf) as (c' & res & H1 & H2 & H3 & H4 & H5).
      destruct (Hfound (insertOrMergeTableEntity getTimestampString tbl acc e ifMatch b)
                  e doc c' res Hf H1 H2 H3 (notEmptyString b))
        as (pk0 & rk0 & doc' & c'' & res' & _ & Hrest); [|done|].
      { rewrite (insertOrMergeTableEntity_run _ _ _ _ _ _ _ Hc), Hf.
        by destruct (isUpsert ifMatch). }
      exists pk0, rk0, doc', c'', res'. split; [done|exact Hrest].
    + destruct (isUpsert ifMatch) eqn:Hup.
      * destruct (Hins e b) as [H|[Hnone H]].
        -- left. eexists. erewrite (Hret _ st (Throw EntityAlreadyExist)); [done|].
           by rewrite (insertOrMergeTableEntity_run _ _ _ _ _ _ _ Hc), Hup, Hf.
        -- right. right. exists (stampTimestamp getTimestampString e).
           split; [done|]. split; [done|]. split; [done|].
           erewrite (Hret _ _ (Ok _)); [done|].
           by rewrite (insertOrMergeTableEntity_run _ _ _ _ _ _ _ Hc), Hup, Hf.
      * left. eexists. erewrite (Hret _ st (Throw EntityNotFound)); [done|].
        rewrite (insertOrMergeTableEntity_run _ _ _ _ _ _ _ Hc), Hup.
        exact (mergeTableEntity_missing st tbl acc e ifMatch b c Ht Hc Hf).
  - assert (Hseq : forall (m : Op unit) s res,
              m st = (s, res) ->
              (m;; mret (@None Doc)) st
              = (s, match res with Ok _ => Ok None | Throw e => Throw e end)).
    { intros m s res H. run_op. rewrite H. by destruct res. }
    pose proof (deleteTableEntity_run st tbl acc pk rk etag b c Ht Hc) as Hrun.
    destruct pk as [pk|]; [|left; eexists; by rewrite (Hseq _ _ _ Hrun)].
    destruct rk as [rk|]; [|left; eexists; by rewrite (Hseq _ _ _ Hrun)].
    destruct (Loki.findOne pk rk c) as [doc|] eqn:Hf;
      [|left; eexists; by rewrite (Hseq _ _ _ Hrun)].
    destruct (negb (String.eqb etag "*") && _);
      [left; eexists; by rewrite (Hseq _ _ _ Hrun)|].
    right. left.
    destruct (remove_effect _ _ _ _ Hwf Hf) as (Hwf' & Hmax & Hfind).
    exists pk, rk, doc, (Loki.remove doc c). eexists.
    split; [done|]. split; [done|]. split; [done|]. split; [done|].
    split; [by rewrite Hmax|].
    split; [|split; [by rewrite (Hseq _ _ _ Hrun)|]].
    + intros pk' rk' Hne. rewrite Hfind. by rewrite decide_False.
    + right. rewrite Hfind. by rewrite decide_True.
Qed.

End CallProofs.

(** ** Sequences of calls *)

Lemma entityLookup_run (tbl acc pk rk : string) (st : Store) :
  entityLookup tbl acc pk rk st =
  match collections st !! getTableCollectionName acc tbl with
  | None => Throw TableNotExist
  | Some c => Ok (Loki.findOne pk rk c)
  end.
Proof.
  unfold entityLookup. rewrite queryWithKeys_run.
  by destruct (collections st !! getTableCollectionName acc tbl).
Qed.

Section CallTheorems.
Variable getTimestampString : Z -> string.

(** A call on a ready table: the registry and the other collections stay,
    the table's own collection is replaced by a well-formed one. *)
Lemma runCall_ready (tbl acc : string) (call : EntityCall) (st : Store) :
  tableReady acc tbl st ->
  tableReady acc tbl (runCall getTimestampString tbl acc call st).1
  /\ tables (runCall getTimestampString tbl acc call st).1 = tables st
  /\ (forall name, name <> getTableCollectionName acc tbl ->
        collections (runCall getTimestampString tbl acc call st).1 !! name
        = collections st !! name).
Proof.
  intros [Ht (c & Hc & Hwf)].
  destruct (runCall_effect getTimestampString tbl acc call st c Ht Hc Hwf)
    as [[err ->]|[(pk0 & rk0 & doc & c' & res & _ & _ & _ & Hwf' & _ & _ & -> & _)
                 |(e' & _ & _ & Hnone & ->)]].
  - split; [|done]. split; [done|]. by exists c.
  - cbn [fst]. split; [split|split].
    + unfold hasTable in *. by destruct (logsPreImage call).
    + exists c'. split; [|done]. cbn. by rewrite lookup_insert_eq.
    + by destruct (logsPreImage call).
    + intros name Hname. cbn. rewrite lookup_insert_ne by done.
      by destruct (logsPreImage call).
  - cbn [fst]. split; [split|split].
    + unfold hasTable in *. by destruct (logsInserted call).
    + eexists. split; [cbn; by rewrite lookup_insert_eq|].
      by apply insert_effect.
    + by destruct (logsInserted call).
    + intros name Hname. cbn [collections setCollection].
      rewrite lookup_insert_ne by done. by destruct (logsInserted call).
Qed.

Lemma runCalls_cons (tbl acc : string) (call : EntityCall) (calls : list EntityCall)
    (st : Store) :
  runCalls getTimestampString tbl acc (call :: calls) st
  = runCalls getTimestampString tbl acc calls
      (runCall getTimestampString tbl acc call st).1.
Proof. done. Qed.

Lemma runCalls_ready (tbl acc : string) (calls : list EntityCall) (st : Store) :
  tableReady acc tbl st ->
  tableReady acc tbl (runCalls getTimestampString tbl acc calls st)
  /\ tables (runCalls getTimestampString tbl acc calls st) = tables st
  /\ (forall name, name <> getTableCollectionName acc tbl ->
        collections (runCalls getTimestampString tbl acc calls st) !! name
        = collections st !! name).
Proof.
  revert st. induction calls as [|call calls IH]; intros st Hready; [done|].
  rewrite runCalls_cons.
  destruct (runCall_ready tbl acc call st Hready) as (Hr & Ht & Hc).
  destruct (IH _ Hr) as (Hr' & Ht' & Hc').
  split; [done|]. split; [by rewrite Ht'|]. intros name Hname.
  rewrite Hc' by done. by apply Hc.
Qed.

End CallTheorems.

Section WriteTheorems.
Variable getTimestampString : Z -> string.

(** X1.  Whatever write calls are made on a registered table whose collection
    has distinct identifiers and distinct pairs of keys, and whether they
    return or throw, the collection still has both afterwards, the table
    registry is as it was, and so is every other collection. *)
Theorem write_calls_keep_table_ready (tbl acc : string) (calls : list EntityCall)
    (st : Store) (c : Loki.Collection) :
  hasTable acc tbl st = true ->
  collections st !! getTableCollectionName acc tbl = Some c ->
  uniqueIds c -> uniqueKeys c ->
  let st' := runCalls getTimestampString tbl acc calls st in
  hasTable acc tbl st' = true
  /\ (exists c', collections st' !! getTableCollectionName acc tbl = Some c'
                 /\ uniqueIds c' /\ uniqueKeys c')
  /\ tables st' = tables st
  /\ (forall name, name <> getTableCollectionName acc tbl ->
        collections st' !! name = collections st !! name).
Proof.
  intros Ht Hc Hid Hk st'. subst st'.
  destruct (runCalls_ready getTimestampString tbl acc calls st)
    as ([Ht' (c' & Hc' & Hid' & Hk')] & Htab & Hother).
  { split; [done|]. by exists c. }
  split; [done|]. split; [by exists c'|]. by split.
Qed.

(** X2.  A write call on such a table changes nothing under keys other than
    its own.  When it returns, a lookup under its keys gives what it
    returned: the stored document after an insert, an update or a merge,
    nothing after a delete.  When it throws, every lookup answers as
    before. *)
Theorem write_call_read_back (tbl acc : string) (call : EntityCall) (st : Store) :
  tableReady acc tbl st ->
  let r := runCall getTimestampString tbl acc call st in
  (forall pk rk, callKeys call <> Some (pk, rk) ->
     entityLookup tbl acc pk rk r.1 = entityLookup tbl acc pk rk st)
  /\ (forall v, r.2 = Ok v ->
        exists pk rk, callKeys call = Some (pk, rk) /\ entityLookup tbl acc pk rk r.1 = Ok v)
  /\ (forall err, r.2 = Throw err ->
        forall pk rk, entityLookup tbl acc pk rk r.1 = entityLookup tbl acc pk rk st).
Proof.
  intros [Ht (c & Hc & Hwf)] r. subst r.
  destruct (runCall_effect getTimestampString tbl acc call st c Ht Hc Hwf)
    as [[err ->]|[(pk0 & rk0 & doc & c' & res & _ & Hkeys & Hf & Hwf' & _ & Hframe & -> & Hres)
                 |(e' & _ & Hkeys & Hnone & ->)]]; cbn [fst snd].
  - split; [done|]. split; [done|]. done.
  - assert (Hcoll : forall pk rk,
              entityLookup tbl acc pk rk
                (setCollection (getTableCollectionName acc tbl) c'
                   (if logsPreImage call then pushRollback doc st else st))
              = Ok (Loki.findOne pk rk c')).
    { intros pk rk. rewrite entityLookup_run. cbn. by rewrite lookup_insert_eq. }
    split; [|split].
    + intros pk rk Hne. rewrite Hcoll, entityLookup_run, Hc. f_equal. apply Hframe.
      intros Heq. apply Hne. by rewrite Hkeys, Heq.
    + intros v Hv. exists pk0, rk0. split; [done|]. rewrite Hcoll.
      destruct Hres as [[-> _]| ->]; [done|]. congruence.
    + intros err Herr pk rk. rewrite Hcoll, entityLookup_run, Hc.
      destruct Hres as [[_ ->]| ->]; [done|done].
  - destruct (insert_effect e' c Hwf Hnone) as [_ Hfind].
    assert (Hcoll : forall pk rk,
              entityLookup tbl acc pk rk
                (setCollection (getTableCollectionName acc tbl) (Loki.insert e' c).1
                   (if logsInserted call then pushDelete (Loki.insert e' c).2 st else st))
              = Ok (Loki.findOne pk rk (Loki.insert e' c).1)).
    { intros pk rk. rewrite entityLookup_run. cbn [collections setCollection].
      by rewrite lookup_insert_eq. }
    split; [|split].
    + intros pk rk Hne. rewrite Hcoll, entityLookup_run, Hc, Hfind.
      rewrite decide_False; [done|]. intros Heq. apply Hne. by rewrite Hkeys, Heq.
    + intros v [= <-]. exists (PartitionKey e'), (RowKey e'). split; [done|].
      rewrite Hcoll, Hfind. by rewrite decide_True.
    + done.
Qed.

(** X3.  A write call never takes an entry out of an undo log and adds at
    most one entry: the document it found under its keys, to the rollback
    log, or the document it inserted and returns, to the delete log, under
    keys that were free.  A call that returns has logged the document found
    exactly when [logsPreImage] holds of it, and the document inserted
    exactly when [logsInserted] does.  With the empty string as batch
    identifier it adds none; so calls made with it leave
    [beginBatchTransaction] as able to return as it was. *)
Theorem write_calls_and_undo_logs (tbl acc : string) (st : Store) :
  tableReady acc tbl st ->
  (forall call,
     let r := runCall getTimestampString tbl acc call st in
     exists newRollback newDelete,
       transactionRollbackTheseEntities r.1
       = transactionRollbackTheseEntities st ++ newRollback
       /\ transactionDeleteTheseEntities r.1
          = transactionDeleteTheseEntities st ++ newDelete
       /\ (length newRollback + length newDelete <= 1)%nat
       /\ (logsPreImage call = false -> newRollback = [])
       /\ (logsInserted call = false -> newDelete = [])
       /\ (forall doc, doc ∈ newRollback ->
             exists pk rk,
               callKeys call = Some (pk, rk)
               /\ entityLookup tbl acc pk rk st = Ok (Some doc))
       /\ (forall doc, doc ∈ newDelete ->
             r.2 = Ok (Some doc)
             /\ exists pk rk,
                  callKeys call = Some (pk, rk)
                  /\ entityLookup tbl acc pk rk st = Ok None
                  /\ entityLookup tbl acc pk rk r.1 = Ok (Some doc))
       /\ (forall v pk rk,
             r.2 = Ok v -> callKeys call = Some (pk, rk) ->
             match entityLookup tbl acc pk rk st with
             | Ok (Some doc) =>
                 newRollback = (if logsPreImage call then [doc] else [])
                 /\ newDelete = []
             | _ =>
                 newRollback = []
                 /\ newDelete = (if logsInserted call then option_list v else [])
             end))
  /\ (forall calls batchId,
        Forall (inBatch "") calls ->
        beginBatchTransaction batchId st = (st, Ok tt) ->
        (beginBatchTransaction batchId (runCalls getTimestampString tbl acc calls st)).2
        = Ok tt).
Proof.
  intros Hready.
  assert (Hone : forall s call, tableReady acc tbl s ->
     exists newRollback newDelete,
       transactionRollbackTheseEntities (runCall getTimestampString tbl acc call s).1
       = transactionRollbackTheseEntities s ++ newRollback
       /\ transactionDeleteTheseEntities (runCall getTimestampString tbl acc call s).1
          = transactionDeleteTheseEntities s ++ newDelete
       /\ (length newRollback + length newDelete <= 1)%nat
       /\ (logsPreImage call = false -> newRollback = [])
       /\ (logsInserted call = false -> newDelete = [])
       /\ (forall doc, doc ∈ newRollback ->
             exists pk rk,
               callKeys call = Some (pk, rk)
               /\ entityLookup tbl acc pk rk s = Ok (Some doc))
       /\ (forall doc, doc ∈ newDelete ->
             (runCall getTimestampString tbl acc call s).2 = Ok (Some doc)
             /\ exists pk rk,
                  callKeys call = Some (pk, rk)
                  /\ entityLookup tbl acc pk rk s = Ok None
                  /\ entityLookup tbl acc pk rk
                       (runCall getTimestampString tbl acc call s).1 = Ok (Some doc))
       /\ (forall v pk rk,
             (runCall getTimestampString tbl acc call s).2 = Ok v ->
             callKeys call = Some (pk, rk) ->
             match entityLookup tbl acc pk rk s with
             | Ok (Some doc) =>
                 newRollback = (if logsPreImage call then [doc] else [])
                 /\ newDelete = []
             | _ =>
                 newRollback = []
                 /\ newDelete = (if logsInserted call then option_list v else [])
             end)).
  { intros s call [Ht (c & Hc & Hwf)].
    assert (Hlook : forall pk rk, entityLookup tbl acc pk rk s = Ok (Loki.findOne pk rk c)).
    { intros pk rk. by rewrite entityLookup_run, Hc. }
    assert (Hnil : forall doc : Doc, doc ∈ @nil Doc -> False).
    { intros doc Hd. by apply elem_of_nil in Hd. }
    destruct (runCall_effect getTimestampString tbl acc call s c Ht Hc Hwf)
      as [[err ->]|[(pk0 & rk0 & doc & c' & res & _ & Hkeys & Hfind & _ & _ & _ & -> & _)
                   |(e' & _ & Hkeys & Hfree & ->)]]; cbn [fst snd].
    - exists [], []. rewrite !app_nil_r.
      split_and!; [done|done|cbn; lia|done|done| | |done];
        intros d Hd; by destruct (Hnil d Hd).
    - assert (Hfound : forall v pk rk,
                res = Ok v -> callKeys call = Some (pk, rk) ->
                entityLookup tbl acc pk rk s = Ok (Some doc)).
      { intros v pk rk _ Hk. rewrite Hkeys in Hk. injection Hk as <- <-.
        by rewrite Hlook, Hfind. }
      destruct (logsPreImage call).
      + exists [doc], []. cbn. rewrite app_nil_r.
        split_and!; [done|done|lia|done|done| | |].
        * intros d ->%list_elem_of_singleton. exists pk0, rk0.
          split; [done|]. by rewrite Hlook, Hfind.
        * intros d Hd. by destruct (Hnil d Hd).
        * intros v pk rk Hv Hk. by rewrite (Hfound v pk rk Hv Hk).
      + exists [], []. cbn. rewrite !app_nil_r.
        split_and!; [done|done|lia|done|done| | |].
        * intros d Hd. by destruct (Hnil d Hd).
        * intros d Hd. by destruct (Hnil d Hd).
        * intros v pk rk Hv Hk. by rewrite (Hfound v pk rk Hv Hk).
    - assert (Hbefore : forall pk rk,
                callKeys call = Some (pk, rk) -> entityLookup tbl acc pk rk s = Ok None).
      { intros pk rk Hk. rewrite Hkeys in Hk. injection Hk as <- <-.
        by rewrite Hlook, Hfree. }
      destruct (insert_effect e' c Hwf Hfree) as [_ Hins].
      destruct (logsInserted call).
      + eexists [], [_]. cbn. rewrite app_nil_r.
        split_and!; [done|done|lia|done|done| | |].
        * intros d Hd. by destruct (Hnil d Hd).
        * intros d ->%list_elem_of_singleton. split; [done|].
          exists (PartitionKey e'), (RowKey e'). split; [done|].
          split; [by apply Hbefore|].
          rewrite entityLookup_run. cbn [collections setCollection pushDelete].
          rewrite lookup_insert_eq, Hins. by rewrite decide_True.
        * intros v pk rk [= <-] Hk. by rewrite (Hbefore pk rk Hk).
      + exists [], []. cbn. rewrite !app_nil_r.
        split_and!; [done|done|lia|done|done| | |].
        * intros d Hd. by destruct (Hnil d Hd).
        * intros d Hd. by destruct (Hnil d Hd).
        * intros v pk rk Hv Hk. by rewrite (Hbefore pk rk Hk). }
  split; [intros call; by apply Hone|].
  intros calls batchId Hall Hbegin.
  assert (Hlogs : transactionRollbackTheseEntities
                    (runCalls getTimestampString tbl acc calls st)
                  = transactionRollbackTheseEntities st
                  /\ transactionDeleteTheseEntities
                       (runCalls getTimestampString tbl acc calls st)
                     = transactionDeleteTheseEntities st).
  { clear Hbegin. revert st Hready.
    induction calls as [|call calls IH]; intros st Hready; [done|].
    apply Forall_cons in Hall as [Hcall Hall].
    rewrite runCalls_cons.
    destruct (runCall_ready getTimestampString tbl acc call st Hready) as (Hr & _ & _).
    destruct (IH Hall _ Hr) as [-> ->].
    destruct (Hone st call Hready) as (nr & nd & -> & -> & _ & Hnr & Hnd & _).
    assert (logsPreImage call = false /\ logsInserted call = false) as [H1 H2].
    { destruct call; cbn in Hcall; subst; done. }
    by rewrite (Hnr H1), (Hnd H2), !app_nil_r. }
  destruct Hlogs as [Hr Hd].
  rewrite beginBatchTransaction_run in Hbegin |- *. rewrite Hr, Hd.
  by destruct (transactionRollbackTheseEntities st), (transactionDeleteTheseEntities st).
Qed.

(** X4.  On a table that is not registered, or that has no entity
    collection, every write call and the entity query throw [TableNotExist]
    and leave the store as it is. *)
Theorem entity_operations_need_table (tbl acc : string) (st : Store) :
  hasTable acc tbl st = false
  \/ collections st !! getTableCollectionName acc tbl = None ->
  (forall call,
     runCall getTimestampString tbl acc call st = (st, Throw TableNotExist))
  /\ (forall QUERY_RESULT_MAX_NUM base64Decode base64Encode newEntityFunction
        queryOptions nextPartitionKey nextRowKey,
        queryTableEntities QUERY_RESULT_MAX_NUM base64Decode base64Encode
          newEntityFunction acc tbl queryOptions nextPartitionKey nextRowKey st
        = (st, Throw TableNotExist)).
Proof.
  intros Hmiss. pose proof (getEntityCollection_missing acc tbl st Hmiss) as Hget.
  assert (Hins : forall e b,
            insertTableEntity getTimestampString tbl acc e b st
            = (st, Throw TableNotExist)).
  { intros e b. unfold insertTableEntity. unfold mbind at 1, Op_bind at 1.
    by rewrite Hget. }
  assert (Hupd : forall e i b,
            updateTableEntity getTimestampString tbl acc e i b st
            = (st, Throw TableNotExist)).
  { intros e i b. unfold updateTableEntity. unfold mbind at 1, Op_bind at 1.
    by rewrite Hget. }
  assert (Hmrg : forall e i b,
            mergeTableEntity tbl acc e i b st = (st, Throw TableNotExist)).
  { intros e i b. unfold mergeTableEntity. unfold mbind at 1, Op_bind at 1.
    by rewrite Hget. }
  split.
  - intros [e b|e i b|e i b|pk rk etag b]; cbn [runCall].
    + unfold mbind, Op_bind. by rewrite Hins.
    + unfold mbind at 1, Op_bind at 1. unfold insertOrUpdateTableEntity.
      destruct (isUpsert i); [|by rewrite Hupd].
      unfold mbind at 1, Op_bind at 1. rewrite queryWithKeys_run.
      destruct (collections st !! getTableCollectionName acc tbl) as [c|]; [|done].
      destruct (Loki.findOne _ _ c); [by rewrite Hupd|by rewrite Hins].
    + unfold mbind at 1, Op_bind at 1. unfold insertOrMergeTableEntity.
      destruct (isUpsert i); [|by rewrite Hmrg].
      unfold mbind at 1, Op_bind at 1. rewrite queryWithKeys_run.
      destruct (collections st !! getTableCollectionName acc tbl) as [c|]; [|done].
      destruct (Loki.findOne _ _ c); [by rewrite Hmrg|by rewrite Hins].
    + unfold mbind at 1, Op_bind at 1. unfold deleteTableEntity.
      unfold mbind at 1, Op_bind at 1. by rewrite Hget.
  - intros. unfold queryTableEntities. unfold mbind at 1, Op_bind at 1. by rewrite Hget.
Qed.

End WriteTheorems.

Section InsertTheorems.
Variable getTimestampString : Z -> string.

(** X5.  [insertTableEntity] on a registered table: when a document with the
    keys of the entity exists it throws [EntityAlreadyExist] and changes
    nothing.  Otherwise it stores and returns the entity with
    [properties.Timestamp] computed from its [lastModifiedTime] and tagged
    [Edm.DateTime], every other property and field as given; a lookup under
    the keys finds the document, a second insert under them is refused, and
    the document is put on the delete log exactly when [batchId] is neither
    the empty string nor undefined. *)
Theorem insertTableEntity_outcomes (tbl acc : string) (e : Entity)
    (batchId : option string) (st : Store) (c : Loki.Collection) :
  hasTable acc tbl st = true ->
  collections st !! getTableCollectionName acc tbl = Some c ->
  wellFormed c ->
  let r := insertTableEntity getTimestampString tbl acc e batchId st in
  (is_Some (Loki.findOne (PartitionKey e) (RowKey e) c) ->
   r = (st, Throw EntityAlreadyExist))
  /\ (Loki.findOne (PartitionKey e) (RowKey e) c = None ->
      exists doc,
        r.2 = Ok doc
        /\ keysOf doc = (PartitionKey e, RowKey e)
        /\ eTag (entity doc) = eTag e
        /\ lastModifiedTime (entity doc) = lastModifiedTime e
        /\ properties (entity doc) !! "Timestamp"
           = Some (VString (getTimestampString (lastModifiedTime e)))
        /\ properties (entity doc) !! "Timestamp@odata.type"
           = Some (VString "Edm.DateTime")
        /\ (forall key, key <> "Timestamp" -> key <> "Timestamp@odata.type" ->
              properties (entity doc) !! key = properties e !! key)
        /\ entityLookup tbl acc (PartitionKey e) (RowKey e) r.1 = Ok (Some doc)
        /\ (forall e' batchId',
              (PartitionKey e', RowKey e') = (PartitionKey e, RowKey e) ->
              insertTableEntity getTimestampString tbl acc e' batchId' r.1
              = (r.1, Throw EntityAlreadyExist))
        /\ transactionDeleteTheseEntities r.1
           = transactionDeleteTheseEntities st
             ++ (if notEmptyNorUndefined batchId then [doc] else [])
        /\ transactionRollbackTheseEntities r.1 = transactionRollbackTheseEntities st).
Proof.
  intros Ht Hc Hwf r. subst r. rewrite (insertTableEntity_run _ _ _ _ _ _ _ Ht Hc).
  split.
  - intros [d Hd]. by rewrite Hd.
  - intros Hnone. rewrite Hnone. cbn [fst snd].
    destruct (insert_effect (stampTimestamp getTimestampString e) c Hwf Hnone)
      as [Hwf' Hfind].
    set (doc := (Loki.insert (stampTimestamp getTimestampString e) c).2).
    set (st' := setCollection _ _ _).
    assert (Ht' : hasTable acc tbl st' = true).
    { subst st'. unfold hasTable in *. by destruct (notEmptyNorUndefined batchId). }
    assert (Hc' : collections st' !! getTableCollectionName acc tbl
                  = Some (Loki.insert (stampTimestamp getTimestampString e) c).1).
    { subst st'. cbn [collections setCollection]. by rewrite lookup_insert_eq. }
    assert (Hdoc : Loki.findOne (PartitionKey e) (RowKey e)
                     (Loki.insert (stampTimestamp getTimestampString e) c).1 = Some doc).
    { rewrite Hfind. by rewrite decide_True. }
    exists doc. split_and!; try done.
    + cbn. rewrite lookup_insert_ne by done. by rewrite lookup_insert_eq.
    + cbn. by rewrite lookup_insert_eq.
    + intros key H1 H2. cbn. by rewrite !lookup_insert_ne.
    + by rewrite entityLookup_run, Hc', Hdoc.
    + intros e' b' [= Hpk Hrk].
      rewrite (insertTableEntity_run _ _ _ _ _ _ _ Ht' Hc'), Hpk, Hrk. by rewrite Hdoc.
    + subst st'. cbn. destruct (notEmptyNorUndefined batchId); cbn; [done|].
      by rewrite app_nil_r.
    + subst st'. cbn. by destruct (notEmptyNorUndefined batchId).
Qed.

(** X6.  With [ifMatch] undefined or ["*"], [insertOrUpdateTableEntity] and
    [insertOrMergeTableEntity] on a registered table always return: the
    first stores the entity as [insertTableEntity] would, whether its keys
    were taken or free; the second stores the merge with the document found
    under the keys, or the entity itself when they were free.  With any
    other [ifMatch] and free keys both throw [EntityNotFound] and change
    nothing. *)
Theorem upserts_always_return (tbl acc : string) (e : Entity)
    (ifMatch batchId : option string) (st : Store) (c : Loki.Collection) :
  hasTable acc tbl st = true ->
  collections st !! getTableCollectionName acc tbl = Some c ->
  wellFormed c ->
  let upd := insertOrUpdateTableEntity getTimestampString tbl acc e ifMatch batchId st in
  let mrg := insertOrMergeTableEntity getTimestampString tbl acc e ifMatch batchId st in
  (isUpsert ifMatch = true ->
   (exists doc,
      upd.2 = Ok doc /\ entity doc = stampTimestamp getTimestampString e
      /\ entityLookup tbl acc (PartitionKey e) (RowKey e) upd.1 = Ok (Some doc))
   /\ (exists doc,
         mrg.2 = Ok doc
         /\ entity doc
            = match Loki.findOne (PartitionKey e) (RowKey e) c with
              | Some old => entity (mergedDEntity old e)
              | None => stampTimestamp getTimestampString e
              end
         /\ entityLookup tbl acc (PartitionKey e) (RowKey e) mrg.1 = Ok (Some doc)))
  /\ (isUpsert ifMatch = false ->
      Loki.findOne (PartitionKey e) (RowKey e) c = None ->
      upd = (st, Throw EntityNotFound) /\ mrg = (st, Throw EntityNotFound)).
Proof.
  intros Ht Hc Hwf upd mrg. subst upd mrg.
  rewrite (insertOrUpdateTableEntity_run _ _ _ _ _ _ _ _ Hc).
  rewrite (insertOrMergeTableEntity_run _ _ _ _ _ _ _ _ Hc).
  assert (Hlook : forall c' s, entityLookup tbl acc (PartitionKey e) (RowKey e)
                    (setCollection (getTableCollectionName acc tbl) c' s)
                  = Ok (Loki.findOne (PartitionKey e) (RowKey e) c')).
  { intros c' s. rewrite entityLookup_run. cbn. by rewrite lookup_insert_eq. }
  split.
  - intros Hup. rewrite Hup.
    assert (Hby : forall stored, etagMatches stored ifMatch = true).
    { intros stored. apply etagMatches_bypass.
      destruct ifMatch as [m|]; [right|by left]. cbn in Hup.
      by apply String.eqb_eq in Hup as ->. }
    destruct (Loki.findOne (PartitionKey e) (RowKey e) c) as [old|] eqn:Hf.
    + rewrite (updateTableEntity_run _ _ _ _ _ _ _ _ _ Ht Hc Hf).
      rewrite (mergeTableEntity_run _ _ _ _ _ _ _ _ Ht Hc Hf). rewrite Hby.
      cbn [fst snd]. split.
      * destruct (replace_effect old (stampTimestamp getTimestampString e) c Hwf Hf)
          as [_ Hfind].
        eexists. split; [done|]. split; [done|]. rewrite Hlook.
        specialize (Hfind (PartitionKey e) (RowKey e)).
        cbn [stampTimestamp PartitionKey RowKey] in Hfind.
        rewrite decide_True in Hfind by done. by rewrite Hfind.
      * destruct (update_effect _ _ (mergedDEntity old e) old c Hwf Hf eq_refl eq_refl)
          as (_ & _ & Hfind).
        eexists. split; [done|]. split; [done|]. rewrite Hlook, Hfind.
        by rewrite decide_True.
    + rewrite (insertTableEntity_run _ _ _ _ _ _ _ Ht Hc), Hf. cbn [fst snd].
      destruct (insert_effect (stampTimestamp getTimestampString e) c Hwf Hf)
        as [_ Hfind].
      specialize (Hfind (PartitionKey e) (RowKey e)).
      cbn [stampTimestamp PartitionKey RowKey] in Hfind.
      rewrite decide_True in Hfind by done.
      split; (eexists; split; [done|]; split; [done|]; by rewrite Hlook, Hfind).
  - intros Hup Hf. rewrite Hup. split.
    + exact (updateTableEntity_missing getTimestampString st tbl acc e ifMatch batchId
               c Ht Hc Hf).
    + exact (mergeTableEntity_missing st tbl acc e ifMatch batchId c Ht Hc Hf).
Qed.

End InsertTheorems.

(** ** A failed batch *)

Lemma filter_hasKeys_unique (l : list Doc) (p : Doc) :
  NoDup (keysOf <$> l) -> p ∈ l ->
  List.filter (Loki.hasKeys (PartitionKey (entity p)) (RowKey (entity p))) l = [p].
Proof.
  induction l as [|x l IH]; intros Hnd Hp; [by apply elem_of_nil in Hp|].
  cbn in Hnd. apply NoDup_cons in Hnd as [Hx Hnd]. cbn [List.filter].
  apply elem_of_cons in Hp as [->|Hp].
  - rewrite (proj2 (hasKeys_keysOf _ _ x) eq_refl). f_equal.
    clear IH. induction l as [|y l IH]; [done|]. cbn [List.filter].
    rewrite keysOf_hasKeys_false.
    + apply IH.
      * intros H. apply Hx. cbn. apply elem_of_cons. by right.
      * cbn in Hnd. by apply NoDup_cons in Hnd as [_ ?].
    + intros H. apply Hx. cbn. apply elem_of_cons. left. by rewrite H.
  - rewrite keysOf_hasKeys_false; [by apply IH|].
    intros H. apply Hx. change (PartitionKey (entity p), RowKey (entity p))
      with (keysOf p) in H. rewrite H. by apply list_elem_of_fmap_2.
Qed.

Lemma uniqueIds_le (c : Loki.Collection) (x : Doc) :
  uniqueIds c -> x ∈ Loki.data c -> (loki x <= Loki.maxId c)%nat.
Proof. intros [_ H] Hx. rewrite Forall_forall in H. by apply H. Qed.

(** When the undo logs track the changes, the two loops of the rollback give
    back a collection that holds under every pair of keys the entity the
    collection held at the start. *)
Lemma rollbackCollection_restores (c0 c : Loki.Collection)
    (rollbackThese deleteThese : list Doc) :
  undoLogsTrack c0 c rollbackThese deleteThese ->
  wellFormed (rollbackCollection rollbackThese deleteThese c)
  /\ forall pk rk,
       entityAt pk rk (rollbackCollection rollbackThese deleteThese c)
       = entityAt pk rk c0.
Proof.
  intros ([Hid0 Hk0] & [Hid Hk] & _ & Hnd & Hsame & Hpre & Hins).
  unfold rollbackCollection.
  set (restored := foldl restorePreImage c rollbackThese).
  set (final := foldl (fun c deleteRow => Loki.remove deleteRow c) restored deleteThese).
  destruct (restore_loop_spec rollbackThese c Hid Hk)
    as (Hid' & Hk' & Hmax & Hlast & Hmem).
  fold restored in Hid', Hk', Hmax, Hlast, Hmem.
  destruct (delete_loop_spec deleteThese restored Hid') as (Hidf & _ & Hkf & Hdel).
  fold final in Hidf, Hkf, Hdel. specialize (Hkf Hk').
  split; [done|]. intros pk rk. unfold entityAt.
  rewrite fmap_app in Hnd. apply NoDup_app in Hnd as (HndR & Hdisj & HndD).
  assert (HidsD : forall d, d ∈ deleteThese -> (loki d <= Loki.maxId c)%nat).
  { intros d Hd. destruct (Hins d Hd) as (_ & Hf & _).
    apply findOne_Some in Hf as [Hdc _]. by apply uniqueIds_le. }
  destruct (decide ((pk, rk) ∈ keysOf <$> rollbackThese)) as [HR|HR].
  - apply list_elem_of_fmap in HR as (p & Hkeys & Hp).
    assert (Hpk : PartitionKey (entity p) = pk /\ RowKey (entity p) = rk)
      by (by injection Hkeys as -> ->).
    destruct Hpk as [Hpk Hrk].
    destruct (Hlast pk rk p) as (d & Hd & Hent & Hnew).
    { rewrite <- Hpk, <- Hrk, (filter_hasKeys_unique _ _ HndR Hp). done. }
    apply findOne_Some in Hd as [Hdin Hdk].
    assert (Hdf : d ∈ Loki.data final).
    { apply Hdel. split; [done|]. intros Hin.
      apply list_elem_of_fmap in Hin as (d' & Hdd' & Hd').
      specialize (HidsD d' Hd'). lia. }
    rewrite (findOne_unique pk rk final d Hkf Hdf Hdk).
    specialize (Hpre p Hp). rewrite Hpk, Hrk in Hpre. rewrite Hpre. cbn. by rewrite Hent.
  - destruct (decide ((pk, rk) ∈ keysOf <$> deleteThese)) as [HD|HD].
    + apply list_elem_of_fmap in HD as (d & Hkeys & Hd).
      assert (Hpk : PartitionKey (entity d) = pk /\ RowKey (entity d) = rk)
        by (by injection Hkeys as -> ->).
      destruct Hpk as [Hpk Hrk].
      destruct (Hins d Hd) as (Hfree & Hdc & _). rewrite Hpk, Hrk in Hfree, Hdc.
      rewrite Hfree.
      assert (Hnone : Loki.findOne pk rk final = None); [|by rewrite Hnone].
      apply findOne_None. intros x Hx Hxk.
      apply Hdel in Hx as [Hxr Hxid]. apply Hxid.
      apply Hmem in Hxr as [[Hxc _]|(_ & HxR & _)].
      * apply (findOne_unique pk rk c x Hk Hxc) in Hxk.
        assert (x = d) as -> by congruence. by apply list_elem_of_fmap_2.
      * by rewrite Hxk in HxR.
    + assert (Hout : (pk, rk) ∉ keysOf <$> (rollbackThese ++ deleteThese)).
      { rewrite fmap_app, elem_of_app. tauto. }
      specialize (Hsame pk rk Hout). rewrite <- Hsame.
      destruct (Loki.findOne pk rk c) as [x|] eqn:Hf.
      * symmetry in Hsame. apply findOne_Some in Hsame as [Hx0 _].
        apply findOne_Some in Hf as [Hxc Hxk].
        assert (Hxf : x ∈ Loki.data final).
        { apply Hdel. split.
          - apply Hmem. left. split; [done|]. by rewrite Hxk.
          - intros Hin. apply list_elem_of_fmap in Hin as (d' & Hdd' & Hd').
            destruct (Hins d' Hd') as (_ & _ & Hnew).
            pose proof (uniqueIds_le c0 x Hid0 Hx0). lia. }
        by rewrite (findOne_unique pk rk final x Hkf Hxf Hxk).
      * assert (Hnone : Loki.findOne pk rk final = None); [|by rewrite Hnone].
        apply findOne_None. intros x Hx Hxk.
        apply Hdel in Hx as [Hxr _].
        apply Hmem in Hxr as [[Hxc _]|(_ & HxR & _)].
        -- by apply (proj1 (findOne_None pk rk c) Hf x).
        -- by rewrite Hxk in HxR.
Qed.

Section BatchProofs.
Variable getTimestampString : Z -> string.

Lemma inBatch_logs (b : string) (call : EntityCall) :
  b <> "" -> inBatch b call ->
  ((forall e batchId, call <> CallInsert e batchId) -> logsPreImage call = true)
  /\ ((forall pk rk etag batchId, call <> CallDelete pk rk etag batchId) ->
      logsInserted call = true).
Proof.
  intros Hb Hin. apply String.eqb_neq in Hb.
  destruct call as [e i|e i b'|e i b'|pk rk etag b']; cbn in Hin; subst; cbn;
    rewrite ?Hb; split; try done.
  - intros H. by destruct (H e (Some b)).
  - intros H. by destruct (H pk rk etag b).
Qed.

(** One call of a batch keeps the undo logs tracking the changes, when its
    keys are not among the logged ones. *)
Lemma runCall_tracks (tbl acc b : string) (call : EntityCall) (st : Store)
    (c0 c : Loki.Collection) :
  b <> "" -> inBatch b call ->
  hasTable acc tbl st = true ->
  collections st !! getTableCollectionName acc tbl = Some c ->
  undoLogsTrack c0 c (transactionRollbackTheseEntities st)
    (transactionDeleteTheseEntities st) ->
  (forall k, callKeys call = Some k ->
     k ∉ keysOf <$> (transactionRollbackTheseEntities st
                     ++ transactionDeleteTheseEntities st)) ->
  exists c',
    collections (runCall getTimestampString tbl acc call st).1
      !! getTableCollectionName acc tbl = Some c'
    /\ undoLogsTrack c0 c'
         (transactionRollbackTheseEntities (runCall getTimestampString tbl acc call st).1)
         (transactionDeleteTheseEntities (runCall getTimestampString tbl acc call st).1)
    /\ (forall k,
          k ∈ keysOf <$> (transactionRollbackTheseEntities
                            (runCall getTimestampString tbl acc call st).1
                          ++ transactionDeleteTheseEntities
                               (runCall getTimestampString tbl acc call st).1) ->
          k ∈ keysOf <$> (transactionRollbackTheseEntities st
                          ++ transactionDeleteTheseEntities st)
          \/ callKeys call = Some k).
Proof.
  intros Hb Hin Ht Hc Htrack Hfresh.
  pose proof Htrack as (Hwf0 & Hwf & Hmax & Hnd & Hsame & Hpre & Hins).
  destruct (inBatch_logs b call Hb Hin) as [HlogR HlogD].
  set (R := transactionRollbackTheseEntities st) in *.
  set (D := transactionDeleteTheseEntities st) in *.
  destruct (runCall_effect getTimestampString tbl acc call st c Ht Hc Hwf)
    as [[err ->]|[(pk0 & rk0 & doc & c' & res & Hnot & Hkeys & Hf & Hwf' & Hmax' & Hframe
                   & -> & _)
                 |(e' & Hnot & Hkeys & Hnone & ->)]]; cbn [fst].
  - exists c. split; [done|]. split; [done|]. intros k Hk. by left.
  - rewrite (HlogR Hnot).
    specialize (Hfresh _ Hkeys). pose proof (findOne_Some _ _ _ _ Hf) as [Hdoc Hdk].
    exists c'. split; [cbn; by rewrite lookup_insert_eq|].
    cbn [transactionRollbackTheseEntities transactionDeleteTheseEntities
         setCollection pushRollback]. fold R D.
    assert (Hperm : keysOf <$> ((R ++ [doc]) ++ D) ≡ₚ (pk0, rk0) :: (keysOf <$> (R ++ D))).
    { rewrite <- Hdk, <- app_assoc. cbn [app]. rewrite !fmap_app, fmap_cons.
      by rewrite <- Permutation_middle. }
    split; [|intros k Hk; rewrite Hperm in Hk; apply elem_of_cons in Hk as [->|Hk];
             [by right|by left]].
    split; [done|]. split; [done|]. split; [lia|]. split; [|split; [|split]].
    + rewrite Hperm. by apply NoDup_cons.
    + intros pk rk Hout. rewrite Hperm, not_elem_of_cons in Hout.
      destruct Hout as [Hne Hout]. rewrite Hframe by done. by apply Hsame.
    + intros p Hp. apply elem_of_app in Hp as [Hp|Hp]; [by apply Hpre|].
      apply list_elem_of_singleton in Hp as ->.
      injection Hdk as -> ->. by rewrite <- (Hsame _ _ Hfresh).
    + intros d Hd. destruct (Hins d Hd) as (H1 & H2 & H3).
      split; [done|]. split; [|done]. rewrite Hframe; [done|].
      intros Heq. apply Hfresh. rewrite <- Heq. rewrite fmap_app, elem_of_app. right.
      by apply (list_elem_of_fmap_2 keysOf) in Hd.
  - rewrite (HlogD Hnot).
    specialize (Hfresh _ Hkeys).
    destruct (insert_effect e' c Hwf Hnone) as [Hwf' Hfind].
    eexists. split; [cbn; by rewrite lookup_insert_eq|].
    cbn [transactionRollbackTheseEntities transactionDeleteTheseEntities
         setCollection pushDelete]. fold R D.
    set (doc := (Loki.insert e' c).2).
    assert (Hperm : keysOf <$> (R ++ D ++ [doc])
                    ≡ₚ (PartitionKey e', RowKey e') :: (keysOf <$> (R ++ D))).
    { rewrite app_assoc, fmap_app. cbn. by rewrite <- Permutation_cons_append. }
    split; [|intros k Hk; rewrite Hperm in Hk; apply elem_of_cons in Hk as [->|Hk];
             [by right|by left]].
    split; [done|]. split; [done|]. split; [cbn; lia|]. split; [|split; [|split]].
    + rewrite Hperm. by apply NoDup_cons.
    + intros pk rk Hout. rewrite Hperm, not_elem_of_cons in Hout.
      destruct Hout as [Hne Hout]. rewrite Hfind, decide_False by done. by apply Hsame.
    + done.
    + intros d Hd. apply elem_of_app in Hd as [Hd|Hd].
      * destruct (Hins d Hd) as (H1 & H2 & H3).
        split; [done|]. split; [|done]. rewrite Hfind, decide_False; [done|].
        intros Heq. apply Hfresh. rewrite <- Heq. rewrite fmap_app, elem_of_app. right.
        by apply (list_elem_of_fmap_2 keysOf) in Hd.
      * apply list_elem_of_singleton in Hd as ->. subst doc. cbn [Loki.insert snd entity loki].
        split; [by rewrite <- (Hsame _ _ Hfresh)|].
        split; [by rewrite Hfind, decide_True|]. lia.
Qed.

Lemma runCalls_track (tbl acc b : string) (c0 : Loki.Collection) :
  b <> "" ->
  forall (calls : list EntityCall) (st : Store) (c : Loki.Collection),
    Forall (inBatch b) calls ->
    NoDup (omap callKeys calls) ->
    tableReady acc tbl st ->
    collections st !! getTableCollectionName acc tbl = Some c ->
    undoLogsTrack c0 c (transactionRollbackTheseEntities st)
      (transactionDeleteTheseEntities st) ->
    (forall k, k ∈ omap callKeys calls ->
       k ∉ keysOf <$> (transactionRollbackTheseEntities st
                       ++ transactionDeleteTheseEntities st)) ->
    exists c',
      collections (runCalls getTimestampString tbl acc calls st)
        !! getTableCollectionName acc tbl = Some c'
      /\ undoLogsTrack c0 c'
           (transactionRollbackTheseEntities (runCalls getTimestampString tbl acc calls st))
           (transactionDeleteTheseEntities (runCalls getTimestampString tbl acc calls st))
      /\ tables (runCalls getTimestampString tbl acc calls st) = tables st
      /\ (forall name, name <> getTableCollectionName acc tbl ->
            collections (runCalls getTimestampString tbl acc calls st) !! name
            = collections st !! name).
Proof.
  intros Hb. induction calls as [|call calls IH];
    intros st c Hall Hnd Hready Hc Htrack Hfresh.
  - by exists c.
  - apply Forall_cons in Hall as [Hcall Hall]. rewrite runCalls_cons.
    pose proof Hready as [Ht _].
    destruct (runCall_ready getTimestampString tbl acc call st Hready)
      as (Hready' & Htab & Hother).
    destruct (runCall_tracks tbl acc b call st c0 c Hb Hcall Ht Hc Htrack)
      as (c' & Hc' & Htrack' & Hkeys).
    { intros k Hk. apply Hfresh. cbn [omap list_omap]. rewrite Hk. by left. }
    destruct (IH (runCall getTimestampString tbl acc call st).1 c')
      as (c'' & H1 & H2 & H3 & H4); try done.
    + cbn [omap list_omap] in Hnd. destruct (callKeys call); [|done].
      by apply NoDup_cons in Hnd as [_ ?].
    + intros k Hk Hin. apply Hkeys in Hin as [Hin|Hin].
      * revert Hin. apply Hfresh. cbn [omap list_omap].
        destruct (callKeys call); [by right|done].
      * cbn [omap list_omap] in Hnd. rewrite Hin in Hnd.
        by apply NoDup_cons in Hnd as [? _].
    + exists c''. split; [done|]. split; [done|]. split; [by rewrite H3|].
      intros name Hname. rewrite H4 by done. by apply Hother.
Qed.

End BatchProofs.

(** When the undo logs track the changes, every entry of the delete log is
    stored when the second loop comes to it: the loop reaches the end. *)
Lemma removeInserted_tracked (c0 c : Loki.Collection)
    (rollbackThese deleteThese : list Doc) :
  undoLogsTrack c0 c rollbackThese deleteThese ->
  removeInserted deleteThese (foldl restorePreImage c rollbackThese)
  = (rollbackCollection rollbackThese deleteThese c, true).
Proof.
  intros (_ & [Hid Hk] & _ & Hnd & _ & _ & Hins).
  destruct (restore_loop_spec rollbackThese c Hid Hk) as (Hid' & _ & _ & _ & Hmem).
  rewrite fmap_app in Hnd. apply NoDup_app in Hnd as (_ & Hdisj & HndD).
  assert (Hstored : forall d, d ∈ deleteThese -> d ∈ Loki.data c).
  { intros d Hd. destruct (Hins d Hd) as (_ & Hf & _).
    by apply findOne_Some in Hf as [? _]. }
  assert (Hdone : (removeInserted deleteThese (foldl restorePreImage c rollbackThese)).2
                  = true).
  { apply removeInserted_completes; [done|]. split.
    - apply NoDup_fmap_2_strong; [|by apply NoDup_fmap_1 in HndD].
      intros x y Hx Hy Heq. by apply (same_id_same_doc c); auto.
    - intros d Hd. apply list_elem_of_fmap. exists d. split; [done|].
      apply Hmem. left. split; [by apply Hstored|].
      intros Hin. apply (Hdisj (keysOf d)); [done|].
      apply list_elem_of_fmap. by exists d. }
  rewrite (surjective_pairing (removeInserted _ _)), Hdone.
  by rewrite removeInserted_completed.
Qed.

Section BatchTheorem.
Variable getTimestampString : Z -> string.

(** X7.  A batch that fails is undone.  Let [beginBatchTransaction] return on
    a registered table with a well-formed collection, let any write calls
    follow that carry the (non-empty) batch identifier and are about
    pairwise distinct keys, each returning or throwing, and let
    [endBatchTransaction] end the batch with [succeeded = false].  Then
    under every pair of keys the collection holds the entity it held before
    the batch, both undo logs are empty, and the registry and the other
    collections are as before. *)
Theorem failed_batch_restores_entities (tbl acc b : string) (calls : list EntityCall)
    (st : Store) (c0 : Loki.Collection) :
  b <> "" ->
  hasTable acc tbl st = true ->
  collections st !! getTableCollectionName acc tbl = Some c0 ->
  wellFormed c0 ->
  beginBatchTransaction b st = (st, Ok tt) ->
  Forall (inBatch b) calls ->
  NoDup (omap callKeys calls) ->
  let st' := (endBatchTransaction acc tbl b false
                (runCalls getTimestampString tbl acc calls st)).1 in
  exists c',
    collections st' !! getTableCollectionName acc tbl = Some c'
    /\ wellFormed c'
    /\ (forall pk rk, entityAt pk rk c' = entityAt pk rk c0)
    /\ tables st' = tables st
    /\ (forall name, name <> getTableCollectionName acc tbl ->
          collections st' !! name = collections st !! name)
    /\ transactionRollbackTheseEntities st' = []
    /\ transactionDeleteTheseEntities st' = [].
Proof.
  intros Hb Ht Hc Hwf Hbegin Hall Hnd st'. subst st'.
  assert (Hready : tableReady acc tbl st) by (split; [done|by exists c0]).
  assert (Hlogs : transactionRollbackTheseEntities st = []
                  /\ transactionDeleteTheseEntities st = []).
  { rewrite beginBatchTransaction_run in Hbegin.
    by destruct (transactionRollbackTheseEntities st),
                (transactionDeleteTheseEntities st). }
  destruct Hlogs as [HR HD].
  destruct (runCalls_track getTimestampString tbl acc b c0 Hb calls st c0 Hall Hnd Hready Hc)
    as (c & Hc' & Htrack & Htab & Hother).
  { rewrite HR, HD. split_and!; try done.
    - apply NoDup_nil_2.
    - intros p Hp. by apply elem_of_nil in Hp.
    - intros d Hd. by apply elem_of_nil in Hd. }
  { intros k _. rewrite HR, HD. apply not_elem_of_nil. }
  destruct (rollbackCollection_restores c0 c _ _ Htrack) as [Hwf' Hent].
  rewrite endBatchTransaction_run, Hc'. cbv zeta.
  rewrite (removeInserted_tracked c0 c _ _ Htrack). cbn [fst snd].
  eexists. split; [cbn; by rewrite lookup_insert_eq|].
  split; [exact Hwf'|]. split; [exact Hent|].
  split; [done|]. split; [|done].
  intros name Hname. cbn. rewrite lookup_insert_ne by done. by apply Hother.
Qed.

End BatchTheorem.

(** ** Creating and deleting tables *)

Lemma existsb_find {A} (f : A -> bool) (l : list A) :
  existsb f l = true <-> is_Some (List.find f l).
Proof.
  induction l as [|x l IH]; cbn.
  - split; [done|]. by intros [? ?].
  - destruct (f x); cbn; [|exact IH]. split; [by eexists|done].
Qed.

Lemma hasTable_find (acc tbl : string) (st : Store) :
  hasTable acc tbl st = true <-> is_Some (List.find (isTable acc tbl) (tables st)).
Proof. apply (existsb_find (isTable acc tbl)). Qed.

Lemma hasTable_false (acc tbl : string) (st : Store) :
  hasTable acc tbl st = false <-> List.find (isTable acc tbl) (tables st) = None.
Proof.
  pose proof (hasTable_find acc tbl st) as H.
  destruct (hasTable acc tbl st), (List.find _ _) as [t|]; split; try done.
  - intros _. assert (is_Some (@None Table)) as [? ?] by (by apply H). done.
  - intros _. assert (false = true) by (apply H; by eexists). done.
Qed.

Lemma isTable_keys (acc tbl : string) (t : Table) :
  isTable acc tbl t = true <-> (account t, table t) = (acc, tbl).
Proof.
  unfold isTable. rewrite andb_true_iff, !String.eqb_eq. split.
  - by intros [-> ->].
  - by intros [= -> ->].
Qed.

Lemma find_isTable_absent (acc tbl : string) (l : list Table) :
  List.find (isTable acc tbl) l = None
  <-> (acc, tbl) ∉ (fun t => (account t, table t)) <$> l.
Proof.
  induction l as [|t l IH]; cbn.
  - split; [intros _; apply not_elem_of_nil|done].
  - rewrite not_elem_of_cons. destruct (isTable acc tbl t) eqn:E.
    + apply isTable_keys in E. split; [done|]. intros [H _]. by destruct H.
    + rewrite IH. split; [|by intros [_ ?]]. intros H. split; [|done].
      intros Heq. symmetry in Heq. apply isTable_keys in Heq. congruence.
Qed.


Lemma removeTable_snoc (acc tbl : string) (l : list Table) (t : Table) :
  List.find (isTable acc tbl) l = None -> isTable acc tbl t = true ->
  removeTable acc tbl (l ++ [t]) = l.
Proof.
  induction l as [|x l IH]; cbn; intros Hl Ht; [by rewrite Ht|].
  destruct (isTable acc tbl x); [done|]. by rewrite IH.
Qed.

Lemma removeTable_keys (acc tbl : string) (l : list Table) :
  NoDup ((fun t => (account t, table t)) <$> l) ->
  NoDup ((fun t => (account t, table t)) <$> removeTable acc tbl l)
  /\ (forall k, k ∈ (fun t => (account t, table t)) <$> removeTable acc tbl l
                <-> k ∈ (fun t => (account t, table t)) <$> l /\ k <> (acc, tbl)).
Proof.
  induction l as [|t l IH]; intros Hnd; cbn.
  - split; [constructor|]. intros k. split; [by intros ?%elem_of_nil|by intros [?%elem_of_nil _]].
  - cbn in Hnd. apply NoDup_cons in Hnd as [Ht Hnd]. destruct (IH Hnd) as [IH1 IH2].
    destruct (isTable acc tbl t) eqn:E.
    + apply isTable_keys in E. split; [done|]. intros k. rewrite elem_of_cons. split.
      * intros Hk. split; [by right|]. intros ->. by rewrite E in Ht.
      * intros [[->|Hk] Hne]; [by rewrite E in Hne|done].
    + cbn. split.
      * apply NoDup_cons. split; [|done]. rewrite IH2. by intros [? _].
      * intros k. rewrite !elem_of_cons, IH2. split.
        -- intros [->|[Hk Hne]]; [|by split; [right|]]. split; [by left|].
           intros Heq. apply isTable_keys in Heq. congruence.
        -- intros [[->|Hk] Hne]; [by left|by right].
Qed.

Lemma createTable_run (t : Table) (st : Store) :
  createTable t st =
  if hasTable (account t) (table t) st then (st, Throw TableAlreadyExists)
  else ({| tables := tables st ++ [t];
           collections := <[getTableCollectionName (account t) (table t)
                            := Loki.emptyCollection]> (collections st);
           transactionRollbackTheseEntities := transactionRollbackTheseEntities st;
           transactionDeleteTheseEntities := transactionDeleteTheseEntities st |},
        Ok tt).
Proof. unfold createTable. run_op. by destruct (hasTable _ _ st). Qed.

Lemma hasTable_app (acc tbl : string) (st : Store) (l : list Table) :
  existsb (isTable acc tbl) (tables st ++ l)
  = hasTable acc tbl st || existsb (isTable acc tbl) l.
Proof. apply existsb_app. Qed.

Lemma emptyCollection_wellFormed : wellFormed Loki.emptyCollection.
Proof. split; [split|]; constructor. Qed.

(** X8.  [createTable] on a pair of account and table that is registered
    throws [TableAlreadyExists] and changes nothing.  Otherwise it returns,
    and afterwards the table is registered with an empty, well-formed entity
    collection, [getTable] returns the record, creating it again is refused, the other
    tables, their collections and the undo logs are as before, no pair is
    registered twice if none was, and, when no collection was left behind
    under the table's name, [deleteTable] gives back the very store
    [createTable] started from. *)
Theorem createTable_outcomes (t : Table) (st : Store) :
  (hasTable (account t) (table t) st = true ->
   createTable t st = (st, Throw TableAlreadyExists))
  /\ (hasTable (account t) (table t) st = false ->
      let st' := (createTable t st).1 in
      (createTable t st).2 = Ok tt
      /\ hasTable (account t) (table t) st' = true
      /\ collections st' !! getTableCollectionName (account t) (table t)
         = Some Loki.emptyCollection
      /\ tableReady (account t) (table t) st'
      /\ getTable (account t) (table t) st' = (st', Ok t)
      /\ (forall t', (account t', table t') = (account t, table t) ->
            createTable t' st' = (st', Throw TableAlreadyExists))
      /\ (forall acc tbl, (acc, tbl) <> (account t, table t) ->
            hasTable acc tbl st' = hasTable acc tbl st
            /\ (getTable acc tbl st').2 = (getTable acc tbl st).2)
      /\ (forall name, name <> getTableCollectionName (account t) (table t) ->
            collections st' !! name = collections st !! name)
      /\ transactionRollbackTheseEntities st' = transactionRollbackTheseEntities st
      /\ transactionDeleteTheseEntities st' = transactionDeleteTheseEntities st
      /\ (registryUnique st -> registryUnique st')
      /\ (collections st !! getTableCollectionName (account t) (table t) = None ->
          deleteTable (table t) (account t) st' = (st, Ok tt))).
Proof.
  rewrite createTable_run. split; [by intros ->|]. intros Hno. rewrite Hno. cbn [fst snd].
  pose proof (proj1 (hasTable_false _ _ _) Hno) as Hfind.
  pose proof (proj1 (find_isTable_absent _ _ _) Hfind) as Habs.
  assert (Hself : isTable (account t) (table t) t = true) by (by apply isTable_keys).
  assert (Hfound : List.find (isTable (account t) (table t)) (tables st ++ [t]) = Some t).
  { apply find_snoc_last; [|done]. intros y Hy.
    destruct (isTable (account t) (table t) y) eqn:E; [|done].
    apply isTable_keys in E. exfalso. apply Habs.
    apply list_elem_of_fmap. by exists y. }
  assert (Hhas : hasTable (account t) (table t)
                   {| tables := tables st ++ [t];
                      collections := <[getTableCollectionName (account t) (table t)
                                       := Loki.emptyCollection]> (collections st);
                      transactionRollbackTheseEntities := transactionRollbackTheseEntities st;
                      transactionDeleteTheseEntities := transactionDeleteTheseEntities st |}
                 = true).
  { apply hasTable_find. cbn [tables]. rewrite Hfound. by eexists. }
  split_and!; try done.
  - cbn. by rewrite lookup_insert_eq.
  - split; [done|]. exists Loki.emptyCollection.
    split; [cbn; by rewrite lookup_insert_eq | apply emptyCollection_wellFormed].
  - unfold getTable. cbn [tables]. by rewrite Hfound.
  - intros t' [= Ha Hn]. rewrite createTable_run, Ha, Hn. by rewrite Hhas.
  - intros acc tbl Hne.
    assert (Hother : isTable acc tbl t = false).
    { destruct (isTable acc tbl t) eqn:E; [|done]. apply isTable_keys in E. congruence. }
    split.
    + unfold hasTable at 1. cbn [tables].
      change (existsb (isTable acc tbl) (tables st ++ [t]) = hasTable acc tbl st).
      rewrite hasTable_app. cbn. by rewrite Hother, !orb_false_r.
    + unfold getTable. cbn [tables]. rewrite (find_snoc_other _ _ _ Hother).
      by destruct (List.find (isTable acc tbl) (tables st)).
  - intros name Hname. cbn. by rewrite lookup_insert_ne.
  - unfold registryUnique. cbn [tables]. intros Hnd. rewrite fmap_app. cbn.
    apply NoDup_app. split; [done|]. split; [|apply NoDup_singleton].
    intros k Hk ->%list_elem_of_singleton. done.
  - intros Hnone. unfold deleteTable. cbn [tables collections
      transactionRollbackTheseEntities transactionDeleteTheseEntities].
    rewrite Hfound, (removeTable_snoc _ _ _ _ Hfind Hself), delete_insert_id by done.
    by destruct st.
Qed.

(** X9.  [deleteTable] on a pair that is not registered throws
    [ResourceNotFound] and changes nothing, and [getTable] throws
    [TableNotFound] for it.  On a registered pair of a registry without
    duplicates it returns; afterwards the pair is not registered and has no
    entity collection, so [createTable] starts it again from an empty
    collection, while the other tables, their collections and the undo logs
    are as before. *)
Theorem deleteTable_outcomes (tbl acc : string) (st : Store) :
  (hasTable acc tbl st = false ->
   deleteTable tbl acc st = (st, Throw ResourceNotFound)
   /\ getTable acc tbl st = (st, Throw TableNotFound))
  /\ (hasTable acc tbl st = true -> registryUnique st ->
      let st' := (deleteTable tbl acc st).1 in
      (deleteTable tbl acc st).2 = Ok tt
      /\ hasTable acc tbl st' = false
      /\ collections st' !! getTableCollectionName acc tbl = None
      /\ registryUnique st'
      /\ (forall acc' tbl', (acc', tbl') <> (acc, tbl) ->
            hasTable acc' tbl' st' = hasTable acc' tbl' st)
      /\ (forall name, name <> getTableCollectionName acc tbl ->
            collections st' !! name = collections st !! name)
      /\ transactionRollbackTheseEntities st' = transactionRollbackTheseEntities st
      /\ transactionDeleteTheseEntities st' = transactionDeleteTheseEntities st
      /\ (forall t, (account t, table t) = (acc, tbl) ->
            collections (createTable t st').1 !! getTableCollectionName acc tbl
            = Some Loki.emptyCollection)).
Proof.
  split.
  - intros Hno. apply hasTable_false in Hno. unfold deleteTable, getTable. by rewrite Hno.
  - intros Hyes Hnd st'. subst st'.
    destruct (proj1 (hasTable_find _ _ _) Hyes) as [doc Hdoc].
    unfold deleteTable. rewrite Hdoc. cbn [fst snd].
    destruct (removeTable_keys acc tbl (tables st) Hnd) as [Hnd' Hkeys].
    set (st' := {| tables := removeTable acc tbl (tables st);
                   collections := delete (getTableCollectionName acc tbl) (collections st);
                   transactionRollbackTheseEntities := transactionRollbackTheseEntities st;
                   transactionDeleteTheseEntities := transactionDeleteTheseEntities st |}).
    assert (Hgone : hasTable acc tbl st' = false).
    { apply hasTable_false, find_isTable_absent. cbn [tables st']. rewrite Hkeys.
      by intros [_ ?]. }
    split_and!; try done.
    + cbn. by rewrite lookup_delete_eq.
    + intros acc' tbl' Hne.
      destruct (hasTable acc' tbl' st) eqn:E.
      * apply hasTable_find. apply hasTable_find in E as [d Hd].
        destruct (List.find (isTable acc' tbl') (tables st')) as [d'|] eqn:E'; [by eexists|].
        exfalso. apply find_isTable_absent in E'. apply E'. cbn [tables st'].
        apply Hkeys. split; [|done]. apply find_some in Hd as [Hin Hk].
        apply isTable_keys in Hk. apply list_elem_of_fmap. exists d.
        split; [done|]. by apply list_elem_of_In.
      * apply hasTable_false, find_isTable_absent. cbn [tables st']. rewrite Hkeys.
        intros [Hin _]. revert Hin. by apply find_isTable_absent, hasTable_false.
    + intros name Hname. cbn. by rewrite lookup_delete_ne.
    + intros t [= Ha Hn]. rewrite createTable_run, Ha, Hn, Hgone. cbn.
      by rewrite lookup_insert_eq.
Qed.

(** ** Names of the entity collections *)

Lemma collectionName_cons (c : ascii) (a t : string) :
  getTableCollectionName (String c a) t = String c (getTableCollectionName a t).
Proof. unfold getTableCollectionName. by rewrite string_app_cons. Qed.

Lemma collectionName_nil (t : string) :
  getTableCollectionName "" t = String "$" t.
Proof. done. Qed.

Lemma collectionName_inj (a a' t t' : string) :
  includesChar "$" a = false -> includesChar "$" a' = false ->
  getTableCollectionName a t = getTableCollectionName a' t' ->
  a = a' /\ t = t'.
Proof.
  revert a'. induction a as [|c a IH]; intros [|c' a'] Ha Ha' Heq.
  - rewrite !collectionName_nil in Heq. by injection Heq as ->.
  - rewrite collectionName_nil, collectionName_cons in Heq. injection Heq as <- _.
    cbn in Ha'. done.
  - rewrite collectionName_nil, collectionName_cons in Heq. injection Heq as -> _.
    cbn in Ha. done.
  - rewrite !collectionName_cons in Heq. injection Heq as -> Heq.
    cbn in Ha, Ha'. apply orb_false_iff in Ha as [_ Ha]. apply orb_false_iff in Ha' as [_ Ha'].
    destruct (IH a' Ha Ha' Heq) as [-> ->]. done.
Qed.

Section Isolation.
Variable getTimestampString : Z -> string.

(** X10.  The name of an entity collection determines its account and table
    as long as the account names hold no [$] (the name is account, [$],
    table; with a [$] in an account two tables can share a collection).
    Between such tables, write calls on one, whether they return or throw,
    leave what a lookup finds in any other as it was. *)
Theorem tables_are_isolated :
  (forall acc tbl acc' tbl',
     includesChar "$" acc = false -> includesChar "$" acc' = false ->
     getTableCollectionName acc tbl = getTableCollectionName acc' tbl' ->
     acc = acc' /\ tbl = tbl')
  /\ getTableCollectionName "a$b" "c" = getTableCollectionName "a" "b$c"
  /\ (forall acc tbl acc' tbl' calls st pk rk,
        includesChar "$" acc = false -> includesChar "$" acc' = false ->
        (acc, tbl) <> (acc', tbl') ->
        tableReady acc tbl st ->
        entityLookup tbl' acc' pk rk (runCalls getTimestampString tbl acc calls st)
        = entityLookup tbl' acc' pk rk st).
Proof.
  split; [intros acc tbl acc' tbl'; apply collectionName_inj|]. split; [done|].
  intros acc tbl acc' tbl' calls st pk rk Ha Ha' Hne Hready.
  destruct (runCalls_ready getTimestampString tbl acc calls st Hready) as (_ & _ & Hother).
  rewrite !entityLookup_run, Hother; [done|].
  intros Heq. apply collectionName_inj in Heq as [-> ->]; done.
Qed.

End Isolation.

Lemma elem_of_List_filter {A} (p : A -> bool) (x : A) (l : list A) :
  x ∈ List.filter p l <-> x ∈ l /\ p x = true.
Proof. by rewrite !list_elem_of_In, filter_In. Qed.

(** ** Paging through an entity query *)

Section SortFilter.
Context {A : Type} (cmp : A -> A -> Z) (R : A -> A -> Prop).
Hypothesis cmp_R : forall x y, (cmp x y <= 0)%Z <-> R x y.
Hypothesis R_total : forall x y, R x y \/ R y x.
Hypothesis R_trans : forall x y z, R x y -> R y z -> R x z.

Lemma insertSorted_front (x : A) (l : list A) :
  Forall (R x) l -> insertSorted cmp x l = x :: l.
Proof.
  destruct l as [|y l]; [done|]. intros H. inversion H as [|? ? Hxy _]; subst.
  cbn. apply cmp_R in Hxy. by destruct (Z.leb_spec (cmp x y) 0); [|lia].
Qed.

Lemma insertSorted_filter (p : A -> bool) (x : A) (l : list A) :
  StronglySorted R l ->
  List.filter p (insertSorted cmp x l)
  = if p x then insertSorted cmp x (List.filter p l) else List.filter p l.
Proof.
  induction l as [|y l IH]; intros Hs.
  - cbn. by destruct (p x).
  - inversion Hs as [|? ? Hs' Hall]; subst. cbn [insertSorted].
    destruct (Z.leb_spec (cmp x y) 0) as [Hle|Hgt].
    + apply cmp_R in Hle.
      assert (Hfront : insertSorted cmp x (List.filter p (y :: l))
                       = x :: List.filter p (y :: l)).
      { apply insertSorted_front, Forall_forall. intros z Hz.
        apply elem_of_List_filter in Hz as [Hz _].
        apply elem_of_cons in Hz as [->|Hz]; [done|].
        rewrite Forall_forall in Hall. eauto. }
      rewrite Hfront. cbn [List.filter]. by destruct (p x).
    + cbn [List.filter]. rewrite (IH Hs').
      destruct (p y) eqn:Epy, (p x) eqn:Epx; try done.
      cbn [insertSorted]. by destruct (Z.leb_spec (cmp x y) 0); [lia|].
Qed.

(** Filtering before the sort and after it give the same list. *)
Lemma sortWith_filter (p : A -> bool) (l : list A) :
  sortWith cmp (List.filter p l) = List.filter p (sortWith cmp l).
Proof.
  induction l as [|x l IH]; [done|]. cbn [sortWith List.filter].
  rewrite insertSorted_filter.
  - destruct (p x); [cbn [sortWith]; by rewrite IH | done].
  - apply Sorted_StronglySorted; [exact R_trans|].
    by apply (sortWith_Sorted cmp R).
Qed.

End SortFilter.

Lemma filter_all {A} (p : A -> bool) (l : list A) :
  Forall (fun x => p x = true) l -> List.filter p l = l.
Proof.
  induction 1 as [|x l Hx _ IH]; [done|]. cbn. by rewrite Hx, IH.
Qed.

Lemma fromCursor_keysLe (d x : Doc) : fromCursor d x = true <-> keysLe d x.
Proof.
  unfold fromCursor, keysLe. rewrite orb_true_iff, andb_true_iff, String.eqb_eq.
  split; (intros [H|[H1 H2]]; [by left | right; done]).
Qed.

Lemma string_leb_antisym (a b : string) :
  String.leb a b = true -> String.leb b a = true -> a = b.
Proof.
  rewrite !leb_le. intros [H1|H1] [H2|H2]; try done.
  pose proof (ltb_trans _ _ _ H1 H2) as H. by rewrite ltb_irrefl in H.
Qed.

Lemma keysLe_antisym (x y : Doc) : keysLe x y -> keysLe y x -> keysOf x = keysOf y.
Proof.
  unfold keysLe, keysOf. intros [H1|[H1 H1']] [H2|[H2 H2']].
  - pose proof (ltb_trans _ _ _ H1 H2) as H. by rewrite ltb_irrefl in H.
  - rewrite H2, ltb_irrefl in H1. done.
  - rewrite H1, ltb_irrefl in H2. done.
  - f_equal; [done|]. by apply string_leb_antisym.
Qed.

Lemma keysLe_refl (x : Doc) : keysLe x x.
Proof. right. split; [done|]. apply leb_le. by right. Qed.

(** In a sorted list with distinct keys, the cursor on the document at
    position [n] lets through the documents from position [n] on. *)
Lemma filter_fromCursor (l : list Doc) (n : nat) (d : Doc) :
  StronglySorted keysLe l -> NoDup (keysOf <$> l) -> l !! n = Some d ->
  List.filter (fromCursor d) l = drop n l.
Proof.
  revert n. induction l as [|x l IH]; intros n Hs Hnd Hn; [done|].
  inversion Hs as [|? ? Hs' Hall]; subst.
  apply NoDup_cons in Hnd as [Hx Hnd].
  destruct n as [|n].
  - injection Hn as ->. cbn [drop]. apply filter_all. constructor.
    + apply fromCursor_keysLe, keysLe_refl.
    + eapply Forall_impl; [exact Hall|]. intros z Hz. by apply fromCursor_keysLe.
  - cbn in Hn. cbn [drop List.filter].
    assert (Hd : d ∈ l) by (eapply list_elem_of_lookup_2; exact Hn).
    destruct (fromCursor d x) eqn:E; [|by eapply IH].
    exfalso. apply Hx. apply fromCursor_keysLe in E.
    rewrite Forall_forall in Hall.
    rewrite (keysLe_antisym x d); [|by apply Hall|done].
    apply list_elem_of_fmap. by exists d.
Qed.

(** The end of the operation, once the chain has given [l]. *)
Lemma page_of (m : nat) (l : list Doc) :
  (if (m <? length (take (m + 1) l))%nat then
     match last (take (m + 1) l) with
     | Some tail => (removelast (take (m + 1) l), Some tail)
     | None => (take (m + 1) l, None)
     end
   else (take (m + 1) l, None))
  = (take m l, l !! m).
Proof.
  replace (m + 1)%nat with (S m) by lia. rewrite length_take.
  destruct (Nat.ltb_spec m (S m `min` length l)) as [Hlt|Hge].
  - assert (Hlen : (m < length l)%nat) by lia.
    rewrite last_take, removelast_take by done.
    destruct (lookup_lt_is_Some_2 l m Hlen) as [tail Htail]. by rewrite Htail.
  - assert (Hlen : (length l <= m)%nat) by lia.
    rewrite (lookup_ge_None_2 l m) by done. by rewrite !take_ge by lia.
Qed.

Section PagingProofs.
Variable QUERY_RESULT_MAX_NUM : nat.
Variables base64Decode base64Encode : string -> string.
Variable newEntityFunction : string -> option (Doc -> bool).

Lemma queryTableEntities_run (st : Store) (acc tbl : string)
    (queryOptions : Models.QueryOptions) (nextPartitionKey nextRowKey : option string)
    (coll : Loki.Collection) (queryWhere : Doc -> bool) :
  hasTable acc tbl st = true ->
  collections st !! getTableCollectionName acc tbl = Some coll ->
  generateQueryEntityWhereFunction newEntityFunction (Models.filter queryOptions)
    = Ok queryWhere ->
  let l :=
    sortWith compareKeys
      (List.filter
         (fun d => continuationFilter (base64Decode <$> nextPartitionKey)
                     (base64Decode <$> nextRowKey)
                     (Some (PartitionKey (entity d))) (Some (RowKey (entity d))))
         (List.filter queryWhere (Loki.data coll))) in
  let m := topOr queryOptions QUERY_RESULT_MAX_NUM in
  queryTableEntities QUERY_RESULT_MAX_NUM base64Decode base64Encode
    newEntityFunction acc tbl queryOptions nextPartitionKey nextRowKey st
  = (st, Ok (take m l, (continuationOf base64Encode (l !! m)).1,
             (continuationOf base64Encode (l !! m)).2)).
Proof.
  intros Ht Hc Hgen l m.
  unfold queryTableEntities.
  unfold mbind at 1, Op_bind at 1. rewrite (getEntityCollection_found _ _ _ _ Ht Hc).
  cbn beta iota. rewrite Hgen.
  unfold entityQueryChain, decodeContinuationHeader, encodeContinuationHeader.
  fold m. fold l.
  pose proof (page_of m l) as Hp.
  destruct (m <? length (take (m + 1) l))%nat.
  - destruct (last (take (m + 1) l)) as [tail|]; injection Hp as H1 H2;
      rewrite <- H1, <- H2; reflexivity.
  - injection Hp as H1 H2. rewrite <- H1, <- H2. reflexivity.
Qed.

(** X11.  Paging through an entity query returns the whole answer in
    consecutive pages.  On a table whose records have distinct keys, with a
    filter that compiles and keys that survive the base64 round trip of the
    continuation headers: the query without continuation returns the first
    [maxResults] documents of the sorted answer, and the query continued
    from the keys of the document at position [n] returns the [maxResults]
    documents from position [n] on.  The continuation is made from the
    document that follows the page, and there is none when the page ends
    the answer. *)
Theorem queryTableEntities_pages (st : Store) (acc tbl : string)
    (queryOptions : Models.QueryOptions) (coll : Loki.Collection)
    (queryWhere : Doc -> bool) :
  hasTable acc tbl st = true ->
  collections st !! getTableCollectionName acc tbl = Some coll ->
  uniqueKeys coll ->
  generateQueryEntityWhereFunction newEntityFunction (Models.filter queryOptions)
    = Ok queryWhere ->
  (forall d, d ∈ Loki.data coll ->
     base64Decode (base64Encode (PartitionKey (entity d))) = PartitionKey (entity d)
     /\ base64Decode (base64Encode (RowKey (entity d))) = RowKey (entity d)) ->
  let maxResults := topOr queryOptions QUERY_RESULT_MAX_NUM in
  let answer := fullAnswer queryWhere coll in
  let page (n : nat) :=
    (take maxResults (drop n answer),
     (continuationOf base64Encode (answer !! (n + maxResults)%nat)).1,
     (continuationOf base64Encode (answer !! (n + maxResults)%nat)).2) in
  queryTableEntities QUERY_RESULT_MAX_NUM base64Decode base64Encode
    newEntityFunction acc tbl queryOptions None None st = (st, Ok (page 0%nat))
  /\ (forall n d, answer !! n = Some d ->
        queryTableEntities QUERY_RESULT_MAX_NUM base64Decode base64Encode
          newEntityFunction acc tbl queryOptions
          (Some (base64Encode (PartitionKey (entity d))))
          (Some (base64Encode (RowKey (entity d)))) st
        = (st, Ok (page n)))
  /\ (forall n, (length answer <= n + maxResults)%nat ->
        page n = (drop n answer, None, None)).
Proof.
  intros Ht Hc Hk Hgen Hround maxResults answer page.
  split; [|split].
  - rewrite (queryTableEntities_run st acc tbl queryOptions None None coll queryWhere Ht Hc Hgen).
    cbn [fmap option_fmap option_map].
    rewrite (filter_all _ (List.filter queryWhere (Loki.data coll)));
      [|by apply Forall_forall].
    done.
  - intros n d Hn.
    rewrite (queryTableEntities_run st acc tbl queryOptions _ _ coll queryWhere Ht Hc Hgen).
    cbn [fmap option_fmap option_map].
    assert (Hperm : answer ≡ₚ List.filter queryWhere (Loki.data coll)).
    { apply (sortWith_Permutation compareKeys). }
    assert (Hin : d ∈ Loki.data coll).
    { assert (Hd : d ∈ answer) by (eapply list_elem_of_lookup_2; exact Hn).
      rewrite Hperm in Hd. by apply elem_of_List_filter in Hd as [Hd _]. }
    destruct (Hround d Hin) as [-> ->].
    assert (Hext : forall l,
              List.filter
                (fun x => continuationFilter (Some (PartitionKey (entity d)))
                            (Some (RowKey (entity d)))
                            (Some (PartitionKey (entity x))) (Some (RowKey (entity x)))) l
              = List.filter (fromCursor d) l).
    { intros l. apply List.filter_ext. intros x. rewrite continuationFilter_cases.
      unfold fromCursor. cbn [jsGt jsGe jsEq]. by rewrite orb_false_r. }
    rewrite Hext.
    rewrite (sortWith_filter compareKeys keysLe compareKeys_le keysLe_total keysLe_trans).
    fold (fullAnswer queryWhere coll). fold answer.
    rewrite (filter_fromCursor answer n d); [| |  |done].
    + subst page. cbn beta. by rewrite lookup_drop.
    + apply sortWith_compareKeys_sorted.
    + rewrite Hperm. unfold uniqueKeys in Hk.
      clear -Hk. induction (Loki.data coll) as [|x l IH]; [constructor|].
      cbn in Hk. apply NoDup_cons in Hk as [Hx Hk]. cbn [List.filter].
      destruct (queryWhere x); [|by apply IH].
      cbn. apply NoDup_cons. split; [|by apply IH].
      intros Hx'. apply Hx. apply list_elem_of_fmap in Hx' as (y & -> & Hy).
      apply elem_of_List_filter in Hy as [Hy _].
      apply list_elem_of_fmap. by exists y.
  - intros n Hlen. subst page. cbn beta.
    rewrite (lookup_ge_None_2 answer (n + maxResults)) by lia.
    rewrite take_ge by (rewrite length_drop; lia). done.
Qed.

End PagingProofs.

(** ** Compiling a comparison *)

Local Open Scope Z_scope.

Lemma convertToken_nonEmpty (w : string) : w <> "" -> convertToken w <> "".
Proof.
  intros Hw. unfold convertToken.
  repeat (destruct (String.eqb w _); [done|]). done.
Qed.

Lemma strlen_pos (w : string) : w <> "" -> 0 < strlen w.
Proof. destruct w; [done|]. unfold strlen. cbn [String.length]. lia. Qed.

(** The scanning loop at the start of a word that a space ends, with no text
    pending: it appends the converted word and stands behind the space. *)
Lemma scanLoop_word (pre w post : string) (st : Scan) (fuel : nat) :
  allChars plainChar w = true -> w <> "" ->
  cur st = strlen pre -> tokenStart st = strlen pre -> inString st = false ->
  (String.length w + 1 <= fuel)%nat ->
  scanLoop fuel (pre +:+ w +:+ " " +:+ post) st
  = scanLoop (fuel - (String.length w + 1)) (pre +:+ w +:+ " " +:+ post)
      {| cur := strlen pre + strlen w + 1; tokenStart := strlen pre + strlen w + 1;
         inString := false; tokens := tokens st ++ [convertToken w] |}.
Proof.
  intros Hw Hne Hcur Hts Hin Hfuel.
  set (query := pre +:+ w +:+ " " +:+ post).
  pose proof (strlen_nonneg pre) as Hk0.
  remember (strlen pre) as k eqn:Ek in *.
  pose proof (strlen_pos w Hne) as Hw0. pose proof (strlen_nonneg post) as Hp0.
  assert (Hlen : strlen query = k + strlen w + 1 + strlen post).
  { subst query k. rewrite !strlen_app. change (strlen " ") with 1. lia. }
  assert (Hq : forall j, 0 <= j -> charAt query (k + j) = charAt (w +:+ " " +:+ post) j).
  { intros j Hj. subst query k. by rewrite charAt_app_r. }
  destruct st as [c0 t0 i0 toks]. cbn [cur tokenStart inString tokens] in *. subst c0 t0 i0.
  set (st0 := {| cur := k; tokenStart := k; inString := false; tokens := toks |}).
  set (st1 := {| cur := k + strlen w; tokenStart := k; inString := false; tokens := toks |}).
  rewrite (scanLoop_skip query (String.length w)).
  2:{ intros j Hj.
      destruct (charAt_allChars plainChar w j Hw) as (c & Hc & Hpl);
        [unfold strlen; lia|].
      eapply scanStep_plain; [done| |exact Hpl].
      cbn [cur setCur st0]. rewrite Hq by lia.
      rewrite charAt_app_l; [done|unfold strlen; lia]. }
  2:{ cbn [cur st0]. unfold strlen in *. lia. }
  2:{ lia. }
  replace (setCur st0 (cur st0 + Z.of_nat (String.length w))) with st1
    by (subst st0 st1; unfold setCur, strlen; cbn; f_equal).
  replace (fuel - String.length w)%nat with (S (fuel - (String.length w + 1))) by lia.
  assert (Hsp : charAt query (cur st1) = Some " "%char).
  { subst st1. cbn [cur]. rewrite Hq by lia.
    rewrite <- (Z.add_0_r (strlen w)). rewrite charAt_app_r by lia. done. }
  rewrite scanLoop_step by (subst st1; cbn [cur]; lia).
  assert (Hstep : scanStep query st1 = appendToken query st1).
  { unfold scanStep. rewrite Hsp. done. }
  rewrite Hstep.
  assert (Hraw : substring query k (k + strlen w) = w).
  { subst query k. apply js_substring_middle. }
  assert (Htok : String.eqb (convertToken w) "" = false).
  { apply String.eqb_neq. by apply convertToken_nonEmpty. }
  f_equal. unfold appendToken. subst st1.
  cbn [cur tokenStart inString tokens].
  destruct (Z.ltb_spec 0 (k + strlen w - k)); [|lia].
  rewrite Hraw, Htok.
  unfold setCur, setInString, setTokenStart, pushToken.
  cbn [cur tokenStart inString tokens]. f_equal; lia.
Qed.

(** A query made of a word, an operator word and a quoted string. *)
Lemma tokenizeQuery_comparison (name op body : string) :
  name <> "" -> allChars plainChar name = true -> includesChar "`" name = false ->
  op <> "" -> allChars plainChar op = true -> includesChar "`" op = false ->
  allChars notQuoteNorBacktick body = true ->
  tokenizeQuery (name +:+ " " +:+ op +:+ " " +:+ "'" +:+ body +:+ "'")
  = [convertToken name; convertToken op; "`" +:+ body +:+ "`"].
Proof.
  intros Hn Hnp Hnb Ho Hop Hob Hbody.
  destruct (notQuoteNorBacktick_facts body Hbody) as (Hbq & Hbb & Hbn).
  unfold tokenizeQuery.
  rewrite replaceAllChar_absent.
  2:{ rewrite !includesChar_app, Hnb, Hob, Hbb. done. }
  set (lit := "" +:+ "'" +:+ body +:+ "'").
  set (query := name +:+ " " +:+ op +:+ " " +:+ "'" +:+ body +:+ "'").
  set (st0 := {| cur := 0; tokenStart := 0; inString := false; tokens := [] |}).
  assert (HlenN : String.length query
                  = ((String.length name + 1) + ((String.length op + 1) + String.length lit))%nat).
  { subst query lit. rewrite !string_app_length. cbn [String.length]. lia. }
  (* the name *)
  pose proof (scanLoop_word "" name (op +:+ " " +:+ "'" +:+ body +:+ "'") st0
                (String.length query) Hnp Hn eq_refl eq_refl eq_refl ltac:(lia)) as H1.
  rewrite string_app_nil_l in H1. fold query in H1. rewrite H1. clear H1.
  (* the operator *)
  set (st1 := {| cur := strlen "" + strlen name + 1; tokenStart := strlen "" + strlen name + 1;
                 inString := false; tokens := tokens st0 ++ [convertToken name] |}).
  assert (Hq2 : query = (name +:+ " ") +:+ op +:+ " " +:+ "'" +:+ body +:+ "'").
  { subst query. by rewrite !string_app_assoc. }
  pose proof (scanLoop_word (name +:+ " ") op ("'" +:+ body +:+ "'") st1
                (String.length query - (String.length name + 1)) Hop Ho) as H2.
  rewrite <- Hq2 in H2. rewrite H2; clear H2.
  2,3: subst st1; cbn [cur tokenStart]; rewrite strlen_app;
       change (strlen "") with 0; change (strlen " ") with 1; lia.
  2: done.
  2: lia.
  (* the string *)
  set (st2 := {| cur := strlen (name +:+ " ") + strlen op + 1;
                 tokenStart := strlen (name +:+ " ") + strlen op + 1;
                 inString := false; tokens := tokens st1 ++ [convertToken op] |}).
  assert (Hq3 : query = (name +:+ " " +:+ op +:+ " ") +:+ lit +:+ "").
  { subst query lit. rewrite string_app_nil_l, !string_app_assoc.
    by rewrite string_app_nil_r. }
  pose proof (scanLoop_literal (name +:+ " " +:+ op +:+ " ") "" "" body st2
                (String.length query - (String.length name + 1) - (String.length op + 1))
                eq_refl Hbn eq_refl) as H3.
  fold lit in H3. rewrite <- Hq3 in H3. rewrite H3; clear H3.
  2,3: subst st2; cbn [cur tokenStart]; rewrite !strlen_app;
       change (strlen " ") with 1; lia.
  2: done.
  2: lia.
  replace (String.length query - (String.length name + 1) - (String.length op + 1)
           - String.length lit)%nat with 0%nat by lia.
  cbn [scanLoop].
  rewrite stringToken_literal by done.
  unfold appendToken. cbn [cur tokenStart inString tokens setTokenStart].
  match goal with |- context [0 <? ?a - ?a] => destruct (Z.ltb_spec 0 (a - a)); [lia|] end.
  subst st2 st1 st0. cbn [tokens app String.eqb]. by rewrite string_app_nil_l.
Qed.

Lemma isIdentifier_not_comparison (t : string) :
  isIdentifier t = true -> includes comparisonOperators t = false.
Proof.
  unfold isIdentifier. intros H. apply andb_true_iff in H as [_ H].
  apply negb_true_iff in H.
  unfold includes, operatorsAndParens, comparisonOperators in *. cbn [existsb] in *.
  repeat (apply orb_false_iff in H as [-> H]). done.
Qed.

Lemma isIdentifier_no_backtick (t : string) :
  isIdentifier t = true -> includesChar "`" t = false.
Proof.
  unfold isIdentifier. intros H. apply andb_true_iff in H as [H _].
  apply andb_true_iff in H as [_ H]. by apply negb_true_iff in H.
Qed.

Lemma convertToken_no_backtick (name : string) :
  isIdentifier (convertToken name) = true -> includesChar "`" name = false.
Proof.
  unfold convertToken.
  repeat match goal with
         | |- context [String.eqb name ?s] =>
             destruct (String.eqb_spec name s) as [->|_]; [done|]
         end.
  apply isIdentifier_no_backtick.
Qed.

Lemma comparisonWord_facts (op : string) :
  op ∈ ["eq"; "gt"; "ge"; "lt"; "le"; "ne"] ->
  op <> "" /\ allChars plainChar op = true /\ includesChar "`" op = false
  /\ convertToken op <> ""
  /\ includes comparisonOperators (convertToken op) = true
  /\ isIdentifier (convertToken op) = false.
Proof.
  intros H. repeat (apply elem_of_cons in H as [->|H]; [by vm_compute|]).
  by apply elem_of_nil in H.
Qed.

Lemma backtick_string_facts (body : string) :
  isIdentifier ("`" +:+ body +:+ "`") = false
  /\ "`" +:+ body +:+ "`" <> ""
  /\ startsWith "datetime" ("`" +:+ body +:+ "`") = false
  /\ startsWith "X" ("`" +:+ body +:+ "`") = false
  /\ startsWith "binary" ("`" +:+ body +:+ "`") = false.
Proof.
  split; [|done]. apply isIdentifier_backtick. done.
Qed.

(** The rewriter on a property name, a comparison operator and a string in
    backticks. *)
Lemma transformTokens_comparison (sys : gmap string string) (allow : bool)
    (n o body : string) :
  n <> "" -> isIdentifier n = true ->
  o <> "" -> includes comparisonOperators o = true -> isIdentifier o = false ->
  takenForLongInt ("`" +:+ body +:+ "`") = false ->
  transformTokens sys allow [n; o; "`" +:+ body +:+ "`"]
  = match sys !! n with
    | Some field =>
        Ok ("return ( item." +:+ field +:+ " " +:+ o +:+ " `" +:+ body +:+ "` )")
    | None =>
        if allow then
          Ok ("return ( item.properties." +:+ n +:+ " " +:+ o +:+ " `" +:+ body +:+ "` )")
        else Throw CustomPropertiesNotSupported
    end.
Proof.
  intros Hn Hid Ho Hop Hoid Hlong.
  destruct (backtick_string_facts body) as (Hlid & Hlne & Hdt & HX & Hbin).
  set (lit := "`" +:+ body +:+ "`") in *.
  apply String.eqb_neq in Hn, Ho, Hlne.
  unfold takenForLongInt in Hlong.
  unfold transformTokens. cbn [transformLoop]. rewrite Hn, Ho, Hlne.
  rewrite (isIdentifier_not_comparison n Hid), Hop.
  assert (Hsecond : forall c, transformToken sys allow [n; o; lit] c false o = Ok (o +:+ " ")).
  { intros c. by apply transformToken_verbatim. }
  assert (Hthird : forall c, transformToken sys allow [n; o; lit] c true lit = Ok (lit +:+ " ")).
  { intros c. unfold transformToken. rewrite Hlid, Hlong, Hdt, HX, Hbin. done. }
  rewrite Hsecond, Hthird.
  unfold transformToken at 1. rewrite Hid.
  destruct (sys !! n) as [field|].
  - f_equal. subst lit. rewrite !string_app_assoc. reflexivity.
  - destruct allow; [|done].
    change (tokenAt [n; o; lit] (-1 + 1 + 2)) with lit. rewrite Hdt, andb_false_r.
    f_equal. subst lit. rewrite !string_app_assoc. reflexivity.
Qed.

Local Close Scope Z_scope.

(** X12.  A comparison of a property with a quoted string compiles to the
    JavaScript comparison of that property with the string in backticks.
    The query is a property name, one of the six comparison words and a
    string in single quotes, with single spaces between them; the string
    holds no quote and no backtick and is not taken for a long integer.  In
    an entity query [PartitionKey] and [RowKey] are read from the item and
    every other name from its [properties]; in a table query the name must
    convert to [name], read as [item.table], and any other name makes the
    compilation throw. *)
Theorem comparison_filter_compiles (name op body : string) :
  name <> "" -> allChars plainChar name = true ->
  isIdentifier (convertToken name) = true ->
  op ∈ ["eq"; "gt"; "ge"; "lt"; "le"; "ne"] ->
  allChars notQuoteNorBacktick body = true ->
  takenForLongInt ("`" +:+ body +:+ "`") = false ->
  let query := name +:+ " " +:+ op +:+ " " +:+ "'" +:+ body +:+ "'" in
  let compared := " " +:+ convertToken op +:+ " `" +:+ body +:+ "` )" in
  transformEntityQuery query
  = Ok ("return ( item."
        +:+ match entitySystemProperties !! convertToken name with
            | Some field => field
            | None => "properties." +:+ convertToken name
            end +:+ compared)
  /\ transformTableQuery query
     = match tableSystemProperties !! convertToken name with
       | Some field => Ok ("return ( item." +:+ field +:+ compared)
       | None => Throw CustomPropertiesNotSupported
       end.
Proof.
  intros Hn Hplain Hid Hop Hbody Hlong query compared.
  destruct (comparisonWord_facts op Hop) as (Ho & Hoplain & Hob & Hcne & Hcmp & Hoid).
  assert (Htok : tokenizeQuery query
                 = [convertToken name; convertToken op; "`" +:+ body +:+ "`"]).
  { apply tokenizeQuery_comparison; try done. by apply convertToken_no_backtick. }
  pose proof (convertToken_nonEmpty name Hn) as Hcn.
  unfold transformEntityQuery, transformTableQuery, transformQuery. rewrite Htok.
  rewrite !transformTokens_comparison by done.
  split.
  - destruct (entitySystemProperties !! convertToken name); f_equal;
      subst compared; rewrite ?string_app_assoc; reflexivity.
  - destruct (tableSystemProperties !! convertToken name); [|done]. f_equal.
Qed.

(** ** Service properties *)

Section ServiceProofs.
Context {Cors Metrics Logging : Type}.

Lemma byAccountName_name (a : string)
    (coll : list (ServicePropertiesModel Cors Metrics Logging))
    (d : ServicePropertiesModel Cors Metrics Logging) :
  byAccountName a coll = Some d -> accountName d = a.
Proof.
  unfold byAccountName. intros H. apply find_some in H as [_ H].
  by apply String.eqb_eq in H.
Qed.

Lemma byAccountName_update (a : string)
    (doc' : ServicePropertiesModel Cors Metrics Logging)
    (coll : list (ServicePropertiesModel Cors Metrics Logging)) :
  byAccountName a (updateService doc' coll)
  = if String.eqb (accountName doc') a
    then (fun _ => doc') <$> byAccountName a coll
    else byAccountName a coll.
Proof.
  unfold byAccountName. induction coll as [|d coll IH]; cbn.
  - by destruct (String.eqb (accountName doc') a).
  - destruct (String.eqb_spec (accountName d) (accountName doc')) as [Heq|Hne]; cbn.
    + rewrite Heq. by destruct (String.eqb (accountName doc') a).
    + destruct (String.eqb_spec (accountName d) a) as [Ha|Ha].
      * destruct (String.eqb_spec (accountName doc') a); [congruence|done].
      * exact IH.
Qed.

Lemma byAccountName_snoc (a : string)
    (d : ServicePropertiesModel Cors Metrics Logging)
    (coll : list (ServicePropertiesModel Cors Metrics Logging)) :
  byAccountName a (coll ++ [d])
  = match byAccountName a coll with
    | Some x => Some x
    | None => if String.eqb (accountName d) a then Some d else None
    end.
Proof.
  unfold byAccountName. induction coll as [|x coll IH]; cbn; [done|].
  by destruct (String.eqb (accountName x) a).
Qed.

Lemma byAccountName_None (a : string)
    (coll : list (ServicePropertiesModel Cors Metrics Logging)) :
  byAccountName a coll = None <-> a ∉ accountName <$> coll.
Proof.
  unfold byAccountName. induction coll as [|x coll IH]; cbn.
  - split; [intros _; apply not_elem_of_nil | done].
  - rewrite not_elem_of_cons. destruct (String.eqb_spec (accountName x) a) as [Ha|Ha].
    + split; [done|]. intros [H _]. done.
    + rewrite IH. split; [intros H; split; [done|done] | by intros [_ H]].
Qed.

Lemma updateService_names (doc' : ServicePropertiesModel Cors Metrics Logging)
    (coll : list (ServicePropertiesModel Cors Metrics Logging)) :
  accountName <$> updateService doc' coll = accountName <$> coll.
Proof.
  induction coll as [|d coll IH]; cbn; [done|].
  destruct (String.eqb_spec (accountName d) (accountName doc')) as [Heq|Hne]; cbn.
  - by rewrite Heq.
  - by rewrite IH.
Qed.

(** X13.  [getServiceProperties] answers nothing while the services
    collection is missing, and [setServiceProperties] cannot run then.  On a
    collection, [setServiceProperties] always returns a document; a
    following [getServiceProperties] of the account gives this document,
    the documents of the other accounts are as before, and the account
    names stay distinct.  The document is the given one when the account
    had none; otherwise each of the four properties is the given value, or
    the stored one where the given value is undefined. *)
Theorem setServiceProperties_outcomes
    (serviceProperties : ServicePropertiesModel Cors Metrics Logging) :
  (forall a, getServiceProperties (Cors := Cors) (Metrics := Metrics)
               (Logging := Logging) a None = None)
  /\ setServiceProperties serviceProperties None = None
  /\ (forall coll,
        exists coll' doc,
          setServiceProperties serviceProperties (Some coll) = Some (coll', doc)
          /\ getServiceProperties (accountName serviceProperties) (Some coll') = Some doc
          /\ (forall a, a <> accountName serviceProperties ->
                getServiceProperties a (Some coll') = getServiceProperties a (Some coll))
          /\ (accountsUnique coll -> accountsUnique coll')
          /\ accountName doc = accountName serviceProperties
          /\ match getServiceProperties (accountName serviceProperties) (Some coll) with
             | None => doc = serviceProperties
             | Some old =>
                 cors doc = orStored (cors serviceProperties) (cors old)
                 /\ hourMetrics doc
                    = orStored (hourMetrics serviceProperties) (hourMetrics old)
                 /\ logging doc = orStored (logging serviceProperties) (logging old)
                 /\ minuteMetrics doc
                    = orStored (minuteMetrics serviceProperties) (minuteMetrics old)
             end).
Proof.
  split; [done|]. split; [done|]. intros coll.
  unfold setServiceProperties, getServiceProperties.
  destruct (byAccountName (accountName serviceProperties) coll) as [old|] eqn:Hby.
  - pose proof (byAccountName_name _ _ _ Hby) as Hname.
    eexists _, _. split; [reflexivity|].
    split_and!.
    + rewrite byAccountName_update. cbn [accountName]. rewrite Hname, String.eqb_refl.
      by rewrite Hby.
    + intros a Ha. rewrite byAccountName_update. cbn [accountName]. rewrite Hname.
      by destruct (String.eqb_spec (accountName serviceProperties) a).
    + unfold accountsUnique. by rewrite updateService_names.
    + done.
    + done.
    + done.
    + done.
    + done.
  - eexists _, _. split; [reflexivity|].
    split_and!.
    + by rewrite byAccountName_snoc, Hby, String.eqb_refl.
    + intros a Ha. rewrite byAccountName_snoc.
      destruct (byAccountName a coll); [done|].
      by destruct (String.eqb_spec (accountName serviceProperties) a).
    + unfold accountsUnique. rewrite fmap_app. cbn. intros Hnd.
      apply NoDup_app. split_and!; [done| |apply NoDup_singleton].
      intros x Hx Hx'. apply list_elem_of_singleton in Hx' as ->.
      by apply byAccountName_None in Hby.
    + done.
    + done.
Qed.

End ServiceProofs.

(** ** Worked examples of the entity operations *)

Lemma sampleCollection_wellFormed : wellFormed sampleCollection.
Proof.
  split; [split|]; cbn.
  - apply NoDup_singleton.
  - repeat constructor.
  - apply NoDup_singleton.
Qed.

Lemma sampleStore_ready : tableReady "acct" "t" (sampleStore sampleClock).
Proof.
  split; [exact sampleStore_hasTable|]. exists sampleCollection.
  split; [exact sampleStore_collection | exact sampleCollection_wellFormed].
Qed.

Lemma sampleStore_begin :
  beginBatchTransaction "b1" (sampleStore sampleClock) = (sampleStore sampleClock, Ok tt).
Proof.
  destruct sampleStore_logs as [Hr Hd].
  unfold beginBatchTransaction. run_op. by rewrite Hr, Hd.
Qed.

Lemma emptyStore_hasTable : hasTable "acct" "t" emptyStore = false.
Proof. vm_compute. reflexivity. Qed.

Lemma sampleStoreOfThree_uniqueKeys :
  uniqueKeys
    {| Loki.data :=
         [sampleDoc;
          {| loki := 2; entity := stampTimestamp sampleClock sampleThird |};
          {| loki := 3; entity := stampTimestamp sampleClock sampleInserted |}];
       Loki.maxId := 3 |}.
Proof.
  unfold uniqueKeys. cbn.
  repeat (apply NoDup_cons; split;
            [intros H; repeat (apply elem_of_cons in H as [H|H]; [discriminate H|]);
             by apply elem_of_nil in H|]).
    apply NoDup_nil_2.
Qed.

Lemma write_calls_keep_table_ready_witness :
  let st' := runCalls sampleClock "t" "acct"
               [CallInsertOrMerge (sampleChange 5) None None;
                CallDelete (Some "p") (Some "r1") "*" "";
                CallInsert sampleInserted None;
                CallInsert sampleInserted None]
               (sampleStore sampleClock) in
  hasTable "acct" "t" st' = true
  /\ (exists c', collections st' !! getTableCollectionName "acct" "t" = Some c'
                 /\ uniqueIds c' /\ uniqueKeys c')
  /\ tables st' = tables (sampleStore sampleClock).
Proof.
  pose proof (write_calls_keep_table_ready sampleClock "t" "acct"
                [CallInsertOrMerge (sampleChange 5) None None;
                 CallDelete (Some "p") (Some "r1") "*" "";
                 CallInsert sampleInserted None;
                 CallInsert sampleInserted None]
                (sampleStore sampleClock) sampleCollection
                sampleStore_hasTable sampleStore_collection
                (proj1 sampleCollection_wellFormed) (proj2 sampleCollection_wellFormed))
    as H.
  cbv zeta in *. destruct H as (H1 & H2 & H3 & _).
  split; [exact H1|]. split; [exact H2 | exact H3].
Defined.

Lemma write_call_read_back_witness :
  let r := runCall sampleClock "t" "acct"
             (CallInsertOrUpdate (sampleChange 5) None None) (sampleStore sampleClock) in
  (forall pk rk, (pk, rk) <> ("p", "r1") ->
     entityLookup "t" "acct" pk rk r.1 = entityLookup "t" "acct" pk rk (sampleStore sampleClock))
  /\ (forall v, r.2 = Ok v -> entityLookup "t" "acct" "p" "r1" r.1 = Ok v).
Proof.
  pose proof (write_call_read_back sampleClock "t" "acct"
                (CallInsertOrUpdate (sampleChange 5) None None) (sampleStore sampleClock)
                sampleStore_ready) as H.
  cbv zeta in *. destruct H as (Hframe & Hback & _). split.
  - intros pk rk Hne. apply Hframe. intros Heq. apply Hne. by injection Heq as <- <-.
  - intros v Hv. destruct (Hback v Hv) as (pk & rk & Hk & Hl).
    injection Hk as <- <-. exact Hl.
Defined.

Lemma write_calls_and_undo_logs_witness :
  (forall call,
     logsPreImage call = false -> logsInserted call = false ->
     let st' := (runCall sampleClock "t" "acct" call (sampleStore sampleClock)).1 in
     transactionRollbackTheseEntities st' = []
     /\ transactionDeleteTheseEntities st' = [])
  /\ (let st' := (runCall sampleClock "t" "acct"
                    (CallInsertOrUpdate (sampleChange 5) None (Some "b1"))
                    (sampleStore sampleClock)).1 in
      transactionRollbackTheseEntities st' = [sampleDoc]
      /\ transactionDeleteTheseEntities st' = [])
  /\ (beginBatchTransaction "b1"
        (runCalls sampleClock "t" "acct"
           [CallInsert sampleInserted (Some ""); CallDelete (Some "p") (Some "r1") "*" ""]
           (sampleStore sampleClock))).2 = Ok tt.
Proof.
  pose proof (write_calls_and_undo_logs sampleClock "t" "acct" (sampleStore sampleClock)
                sampleStore_ready) as [Hone Hmany].
  destruct sampleStore_logs as [Hr Hd]. split; [|split].
  - intros call Hpre Hins. cbv zeta.
    destruct (Hone call) as (nr & nd & -> & -> & _ & Hnr & Hnd & _).
    by rewrite Hr, Hd, (Hnr Hpre), (Hnd Hins).
  - cbv zeta.
    destruct (Hone (CallInsertOrUpdate (sampleChange 5) None (Some "b1")))
      as (nr & nd & -> & -> & _ & _ & _ & _ & _ & Hret).
    rewrite Hr, Hd.
    destruct (runCall sampleClock "t" "acct"
                (CallInsertOrUpdate (sampleChange 5) None (Some "b1"))
                (sampleStore sampleClock)).2 as [v|err] eqn:Hres;
      [|by vm_compute in Hres].
    specialize (Hret v "p" "r1" eq_refl eq_refl).
    rewrite entityLookup_run, sampleStore_collection, sampleCollection_findOne in Hret.
    by destruct Hret as [-> ->].
  - apply Hmany; [|exact sampleStore_begin].
    repeat constructor.
Defined.

Lemma entity_operations_need_table_witness :
  runCall sampleClock "t" "acct" (CallInsert sampleEntity None) emptyStore
  = (emptyStore, Throw TableNotExist)
  /\ queryTableEntities 1000 (fun s => s) (fun s => s) (fun _ => Some (fun _ => true))
       "acct" "t" {| Models.filter := None; Models.top := None |} None None emptyStore
     = (emptyStore, Throw TableNotExist).
Proof.
  pose proof (entity_operations_need_table sampleClock "t" "acct" emptyStore
                (or_introl emptyStore_hasTable)) as [Hcall Hquery].
  split; [apply Hcall | apply Hquery].
Defined.

Lemma sampleCollection_free : Loki.findOne "p" "r2" sampleCollection = None.
Proof. vm_compute. reflexivity. Qed.

Lemma insertTableEntity_outcomes_witness :
  insertTableEntity sampleClock "t" "acct" sampleEntity None (sampleStore sampleClock)
  = (sampleStore sampleClock, Throw EntityAlreadyExist)
  /\ exists doc,
       (insertTableEntity sampleClock "t" "acct" sampleInserted (Some "b1")
          (sampleStore sampleClock)).2 = Ok doc
       /\ keysOf doc = ("p", "r2")
       /\ transactionDeleteTheseEntities
            (insertTableEntity sampleClock "t" "acct" sampleInserted (Some "b1")
               (sampleStore sampleClock)).1
          = transactionDeleteTheseEntities (sampleStore sampleClock) ++ [doc].
Proof.
  split.
  - pose proof (insertTableEntity_outcomes sampleClock "t" "acct" sampleEntity None
                  (sampleStore sampleClock) sampleCollection sampleStore_hasTable
                  sampleStore_collection sampleCollection_wellFormed) as H.
    cbv zeta in H. destruct H as [Hdup _]. apply Hdup.
    change (PartitionKey sampleEntity) with "p". change (RowKey sampleEntity) with "r1".
    rewrite sampleCollection_findOne. by eexists.
  - pose proof (insertTableEntity_outcomes sampleClock "t" "acct" sampleInserted (Some "b1")
                  (sampleStore sampleClock) sampleCollection sampleStore_hasTable
                  sampleStore_collection sampleCollection_wellFormed) as H.
    cbv zeta in H. destruct H as [_ Hnew].
    destruct (Hnew sampleCollection_free)
      as (doc & Hdoc & Hkeys & _ & _ & _ & _ & _ & _ & _ & Hlog & _).
    exists doc. split; [exact Hdoc|]. split; [exact Hkeys | exact Hlog].
Defined.

Lemma upserts_always_return_witness :
  (exists doc,
     (insertOrUpdateTableEntity sampleClock "t" "acct" (sampleChange 5) None None
        (sampleStore sampleClock)).2 = Ok doc
     /\ entity doc = stampTimestamp sampleClock (sampleChange 5))
  /\ insertOrMergeTableEntity sampleClock "t" "acct" sampleInserted (Some "etag") None
       (sampleStore sampleClock)
     = (sampleStore sampleClock, Throw EntityNotFound).
Proof.
  split.
  - pose proof (upserts_always_return sampleClock "t" "acct" (sampleChange 5) None None
                  (sampleStore sampleClock) sampleCollection sampleStore_hasTable
                  sampleStore_collection sampleCollection_wellFormed) as H.
    cbv zeta in H. destruct H as [Hup _].
    destruct (Hup eq_refl) as [(doc & Hdoc & Hent & _) _].
    exists doc. split; [exact Hdoc | exact Hent].
  - pose proof (upserts_always_return sampleClock "t" "acct" sampleInserted (Some "etag") None
                  (sampleStore sampleClock) sampleCollection sampleStore_hasTable
                  sampleStore_collection sampleCollection_wellFormed) as H.
    cbv zeta in H. destruct H as [_ Hno].
    exact (proj2 (Hno eq_refl sampleCollection_free)).
Defined.

Lemma failed_batch_restores_entities_witness :
  let st' := (endBatchTransaction "acct" "t" "b1" false
                (runCalls sampleClock "t" "acct"
                   [CallDelete (Some "p") (Some "r1") "*" "b1";
                    CallInsert sampleInserted (Some "b1")]
                   (sampleStore sampleClock))).1 in
  exists c',
    collections st' !! getTableCollectionName "acct" "t" = Some c'
    /\ (forall pk rk, entityAt pk rk c' = entityAt pk rk sampleCollection)
    /\ transactionRollbackTheseEntities st' = []
    /\ transactionDeleteTheseEntities st' = [].
Proof.
  assert (Hnd : NoDup (omap callKeys
                         [CallDelete (Some "p") (Some "r1") "*" "b1";
                          CallInsert sampleInserted (Some "b1")])).
  { cbn. repeat (apply NoDup_cons; split;
            [intros H; repeat (apply elem_of_cons in H as [H|H]; [discriminate H|]);
             by apply elem_of_nil in H|]).
    apply NoDup_nil_2. }
  pose proof (failed_batch_restores_entities sampleClock "t" "acct" "b1"
                [CallDelete (Some "p") (Some "r1") "*" "b1";
                 CallInsert sampleInserted (Some "b1")]
                (sampleStore sampleClock) sampleCollection
                ltac:(discriminate) sampleStore_hasTable sampleStore_collection
                sampleCollection_wellFormed sampleStore_begin
                ltac:(repeat constructor) Hnd) as H.
  cbv zeta in *. destruct H as (c' & Hc & _ & Hent & _ & _ & Hr & Hd).
  exists c'. split; [exact Hc|]. split; [exact Hent|]. split; [exact Hr | exact Hd].
Defined.

Lemma queryTableEntities_pages_witness :
  let query := queryTableEntities 1000 (fun s => s) (fun s => s)
                 (fun _ => Some (fun _ => true)) "acct" "t"
                 {| Models.filter := None; Models.top := Some 2%nat |} in
  let answer :=
    fullAnswer (fun _ => true)
      {| Loki.data :=
           [sampleDoc;
            {| loki := 2; entity := stampTimestamp sampleClock sampleThird |};
            {| loki := 3; entity := stampTimestamp sampleClock sampleInserted |}];
         Loki.maxId := 3 |} in
  query None None sampleStoreOfThree
  = (sampleStoreOfThree,
     Ok (take 2 answer, (continuationOf (fun s => s) (answer !! 2%nat)).1,
         (continuationOf (fun s => s) (answer !! 2%nat)).2))
  /\ (RowKey <$> (entity <$> answer)) = ["r1"; "r2"; "r3"]
  /\ query (Some "p") (Some "r3") sampleStoreOfThree
     = (sampleStoreOfThree,
        Ok (take 2 (drop 2 answer), (continuationOf (fun s => s) (answer !! 4%nat)).1,
            (continuationOf (fun s => s) (answer !! 4%nat)).2)).
Proof.
  pose proof (queryTableEntities_pages 1000 (fun s => s) (fun s => s)
                (fun _ => Some (fun _ => true)) sampleStoreOfThree "acct" "t"
                {| Models.filter := None; Models.top := Some 2%nat |} _ (fun _ => true)
                sampleStoreOfThree_hasTable sampleStoreOfThree_collection
                sampleStoreOfThree_uniqueKeys eq_refl
                (fun d _ => conj eq_refl eq_refl)) as H.
  cbv zeta in *. destruct H as (Hfirst & Hnext & _).
  split; [exact Hfirst|]. split; [vm_compute; reflexivity|].
  exact (Hnext 2%nat {| loki := 2; entity := stampTimestamp sampleClock sampleThird |}
           ltac:(vm_compute; reflexivity)).
Defined.

Lemma comparison_filter_compiles_witness :
  transformEntityQuery ("PartitionKey" +:+ " " +:+ "eq" +:+ " " +:+ "'" +:+ "p" +:+ "'")
  = Ok ("return ( item."
        +:+ match entitySystemProperties !! convertToken "PartitionKey" with
            | Some field => field
            | None => "properties." +:+ convertToken "PartitionKey"
            end +:+ " " +:+ convertToken "eq" +:+ " `" +:+ "p" +:+ "` )")
  /\ transformEntityQuery "PartitionKey eq 'p'" = Ok "return ( item.PartitionKey === `p` )".
Proof.
  pose proof (comparison_filter_compiles "PartitionKey" "eq" "p"
                ltac:(discriminate) eq_refl eq_refl ltac:(constructor) eq_refl eq_refl) as H.
  cbv zeta in H. destruct H as [Hent _].
  split; [exact Hent | vm_compute; reflexivity].
Defined.
